(** * Cluster-convergence checks of the e2e infra package

    A shallow embedding of
    [vendor/github.com/openshift/cluster-api-actuator-pkg/pkg/e2e/infra/utils.go]:
    the polled one-machine-per-node check, the node readiness gate, the
    machine-set scale update, the machine delete and the
    wait-for-cluster-size workflow.

    The Go code talks to a cluster through [runtimeclient.Client], the scale
    client and helpers of the [e2e] framework package.  These are kept
    abstract: the class [ClusterAccess] gives each of them as a transition on
    an environment [E] that may fail and may change the environment.  Every
    statement the code executes against the outside world (an API call, a
    [glog] line, a sleep of the poller) is recorded, in order, in the [trace]
    of the [World] the code runs in. *)

From stdpp Require Import base strings list gmap.
From Stdlib Require Import ZArith Lia Ascii.

Local Open Scope Z_scope.
Local Open Scope string_scope.
Local Open Scope list_scope.

(** ** Go values *)

(** [time.Duration]: a count of nanoseconds. *)
Definition Duration := Z.
Definition Second : Duration := 1000000000.
Definition Minute : Duration := 60 * Second.

(** The conversion [int32(x)] of a Go [int]: wrap-around into
    [-2^31 .. 2^31-1]. *)
Definition int32 (x : Z) : Z := (x + 2 ^ 31) mod 2 ^ 32 - 2 ^ 31.

(** [corev1.NodeCondition], with the two fields the code reads.  Both are
    string types in Go. *)
Module NodeCondition.
Record t := mk { Type_ : string; Status : string }.
End NodeCondition.

Definition NodeReady : string := "Ready".
Definition ConditionTrue : string := "True".

(** [corev1.ObjectReference], as used for [Machine.Status.NodeRef]. *)
Module ObjectReference.
Record t := mk { Namespace : string; Name : string }.
End ObjectReference.

(** [corev1.Node]: [Name], [Annotations], [Status.Conditions] and
    [Spec.Unschedulable]. *)
Module Node.
Record t := mk {
  Name : string;
  Annotations : gmap string string;
  Conditions : list NodeCondition.t;
  Unschedulable : bool
}.
End Node.

(** [mapiv1beta1.Machine]: [Name], [Namespace] and [Status.NodeRef], a
    pointer that may be nil. *)
Module Machine.
Record t := mk {
  Name : string;
  Namespace : string;
  NodeRef : option ObjectReference.t
}.
End Machine.

(** [mapiv1beta1.MachineSet]: [Name], [Spec.Replicas] (a pointer) and the two
    status counters that the snapshot log prints. *)
Module MachineSet.
Record t := mk {
  Name : string;
  Replicas : option Z;
  ReadyReplicas : Z;
  AvailableReplicas : Z
}.
End MachineSet.

(** [autoscalingv1.Scale], the scale sub-resource: type and object metadata,
    [Spec.Replicas], [Status.Replicas] and [Status.Selector]. *)
Module Scale.
Record t := mk {
  Kind : string;
  APIVersion : string;
  Name : string;
  Namespace : string;
  ResourceVersion : string;
  Labels : gmap string string;
  Annotations : gmap string string;
  SpecReplicas : Z;
  StatusReplicas : Z;
  StatusSelector : string
}.

(** [scale.DeepCopy()]: values are immutable here, the copy is the value. *)
Definition DeepCopy (s : t) : t := s.

(** [s.Spec.Replicas = r] *)
Definition set_SpecReplicas (r : Z) (s : t) : t :=
  mk (Kind s) (APIVersion s) (Name s) (Namespace s) (ResourceVersion s)
     (Labels s) (Annotations s) r (StatusReplicas s) (StatusSelector s).
End Scale.

(** [schema.GroupResource] *)
Module GroupResource.
Record t := mk { Group : string; Resource : string }.
End GroupResource.

(** [runtimeclient.ListOptions]: the namespace and the label selector. *)
Module ListOptions.
Record t := mk { Namespace : string; MatchingLabels : gmap string string }.
End ListOptions.

(** ** Errors and formatted values *)

(** A Go [error].  [ErrWaitTimeout] is [wait.ErrWaitTimeout]; [ErrExternal]
    stands for an error made by a collaborator outside this package;
    [Errorf] is [fmt.Errorf] with its format string and arguments kept apart
    (the message is not rendered). *)
Inductive error :=
| ErrWaitTimeout
| ErrExternal (msg : string)
| Errorf (format : string) (args : list arg)
with arg :=
| AString (s : string)
| AInt (z : Z)
| ABool (b : bool)
| AError (e : error)
| AConditions (cs : list NodeCondition.t).

(** A Go result pair [(value, err)] with [err == nil] or not. *)
Inductive result (A : Type) :=
| Ok (a : A)
| Err (e : error).
Arguments Ok {A} a.
Arguments Err {A} e.

(** [fmt.Sprintf("%s/%s", a, b)] *)
Definition Sprintf_slash (a b : string) : string := a +:+ "/" +:+ b.

(** ** The trace of a run *)

Inductive Severity := SevInfo | SevError.

(** The calls the package makes to its collaborators. *)
Inductive Call :=
| CListMachines (opts : ListOptions.t)
| CListNodes (opts : ListOptions.t)
| CDelete (machine : Machine.t)
| CGetMachine (name : string)
| CGetNodes
| CGetMachineSets
| CWaitUntilAllNodesAreReady
| CLoadConfig
| CNewDiscoveryRESTMapper
| CScaleNewForConfig
| CScalesGet (namespace : string) (gr : GroupResource.t) (name : string)
| CScalesUpdate (namespace : string) (gr : GroupResource.t) (s : Scale.t).

Inductive Event :=
| EvCall (c : Call)
| EvLog (sev : Severity) (format : string) (args : list arg)
| EvSleep (d : Duration).

(** ** The collaborators *)

(** What the package needs from the outside.  Each operation is a transition
    on the environment [E]: it may fail, and the environment after it may
    differ from the one before (other actors change the cluster while the
    code polls).  [elapse d] is the environment after [d] has passed. *)
Class ClusterAccess (E : Type) := {
  (* runtimeclient.Client *)
  client_List_machines : ListOptions.t -> E -> result (list Machine.t) * E;
  client_List_nodes : ListOptions.t -> E -> result (list Node.t) * E;
  client_Delete : Machine.t -> E -> option error * E;
  (* package e2e *)
  e2e_GetNodes : E -> result (list Node.t) * E;
  e2e_GetMachineSets : E -> result (list MachineSet.t) * E;
  e2e_GetMachine : string -> E -> result Machine.t * E;
  e2e_WaitUntilAllNodesAreReady : E -> option error * E;
  e2e_LoadConfig : E -> option error * E;
  (* apiutil, scale *)
  apiutil_NewDiscoveryRESTMapper : E -> option error * E;
  scale_NewForConfig : E -> option error * E;
  scales_Get : string -> GroupResource.t -> string -> E -> result Scale.t * E;
  scales_Update : string -> GroupResource.t -> Scale.t -> E -> result Scale.t * E;
  (* cache.SplitMetaNamespaceKey *)
  cache_SplitMetaNamespaceKey : string -> result (string * string);
  (* time *)
  elapse : Duration -> E -> E
}.

(** The package-level values the code reads: [e2e.TestContext], the waits of
    package [e2e] and the annotation key of the node controller. *)
Class Settings := {
  MachineApiNamespace : string;
  MachineAnnotationKey : string;
  WaitShort : Duration;
  WaitLong : Duration;
  DefaultMachineSetReplicas : Z
}.

Record World (E : Type) := mkWorld { env : E; trace : list Event }.
Arguments mkWorld {E} env trace.
Arguments env {E} w.
Arguments trace {E} w.

(** ** The monad the code runs in *)

Definition M (E A : Type) : Type := World E -> A * World E.

Definition ret {E A} (a : A) : M E A := fun w => (a, w).

Definition bind {E A B} (c : M E A) (k : A -> M E B) : M E B :=
  fun w => let (a, w') := c w in k a w'.

Notation "x <~ c ;; k" := (bind c (fun x => k))
  (at level 100, c at next level, right associativity).
Notation "c ;;; k" := (bind c (fun _ => k))
  (at level 100, right associativity).

(** Record an event. *)
Definition emit {E} (ev : Event) : M E unit :=
  fun w => (tt, mkWorld (env w) (trace w ++ [ev])).

(** Run a collaborator: record the call, step the environment. *)
Definition call {E A} (c : Call) (op : E -> A * E) : M E A :=
  fun w => let (a, e') := op (env w) in (a, mkWorld e' (trace w ++ [EvCall c])).

Definition glog_Infof {E} (format : string) (args : list arg) : M E unit :=
  emit (EvLog SevInfo format args).

Definition glog_Errorf {E} (format : string) (args : list arg) : M E unit :=
  emit (EvLog SevError format args).

(** [time.Sleep]-like wait of the poller: the environment moves on. *)
Definition sleep {E} `{ClusterAccess E} (d : Duration) : M E unit :=
  fun w => (tt, mkWorld (elapse d (env w)) (trace w ++ [EvSleep d])).

(** ** Bounded poller *)

(** A Go [wait.ConditionFunc]: [(done, err)]. *)
Definition ConditionFunc (E : Type) := M E (bool * option error).

Section Poller.
Context {E : Type} `{ClusterAccess E}.

(** Modelled from the spec: [wait.PollImmediate] of
    k8s.io/apimachinery is not part of the sources; this follows the
    contract of the Bounded Poller.  The predicate is invoked, then at most
    once per interval, until it reports satisfied (success, nil), it
    returns an error (propagated at once), or the timeout has elapsed
    ([ErrWaitTimeout]).  [retries] is the number of intervals that fit in
    the timeout. *)
Fixpoint poll_loop (interval : Duration) (retries : nat)
    (condition : ConditionFunc E) : M E (option error) :=
  match retries with
  | O => ret (Some ErrWaitTimeout)
  | S k =>
      sleep interval ;;;
      r <~ condition ;;
      match r with
      | (_, Some err) => ret (Some err)
      | (true, None) => ret None
      | (false, None) => poll_loop interval k condition
      end
  end.

Definition poll_retries (interval timeout : Duration) : nat :=
  Z.to_nat (timeout / interval).

Definition PollImmediate (interval timeout : Duration)
    (condition : ConditionFunc E) : M E (option error) :=
  r <~ condition ;;
  match r with
  | (_, Some err) => ret (Some err)
  | (true, None) => ret None
  | (false, None) =>
      poll_loop interval (poll_retries interval timeout) condition
  end.

(** The world in which the [k]-th retry of a poll runs its predicate, when
    every earlier attempt asked for a retry: each attempt is followed by one
    sleep of [interval]. *)
Fixpoint attempt_world (interval : Duration) (condition : ConditionFunc E)
    (k : nat) (w : World E) : World E :=
  match k with
  | O => w
  | S k' =>
      snd (sleep interval
             (snd (condition (attempt_world interval condition k' w))))
  end.

(** An attempt is decisive when it does not ask for a retry. *)
Definition decisive (r : bool * option error) : Prop :=
  r <> (false, None).

Definition verdict (r : bool * option error) : option error :=
  match r with
  | (_, Some err) => Some err
  | (_, None) => None
  end.

End Poller.

(** ** Package infra *)

Definition nodeWorkerRoleLabel : string := "node-role.kubernetes.io/worker".
Definition machineRoleLabel : string :=
  "machine.openshift.io/cluster-api-machine-role".
Definition machineAPIGroup : string := "machine.openshift.io".

(** Modelled from the spec: [e2e.IsNodeReady] is not part of the sources.  A
    node is ready when its condition set holds the canonical ready condition
    in true state. *)
Definition IsNodeReady (node : Node.t) : bool :=
  existsb
    (fun c => bool_decide (NodeCondition.Type_ c = NodeReady)
              && bool_decide (NodeCondition.Status c = ConditionTrue))
    (Node.Conditions node).

(** [pointer.Int32PtrDerefOr] *)
Definition Int32PtrDerefOr (p : option Z) (def : Z) : Z :=
  match p with Some v => v | None => def end.

Section Infra.
Context {E : Type} `{ClusterAccess E} `{Settings}.

(** *** isOneMachinePerNode *)

(** The first loop of the predicate: fill [nodeNameToMachineAnnotation],
    leaving at the first node without the annotation. *)
Fixpoint collectAnnotations (nodes : list Node.t)
    (nodeNameToMachineAnnotation : gmap string string)
    : M E (option (gmap string string)) :=
  match nodes with
  | [] => ret (Some nodeNameToMachineAnnotation)
  | node :: rest =>
      match Node.Annotations node !! MachineAnnotationKey with
      | None =>
          glog_Errorf
            "Node %q does not have a MachineAnnotationKey %q, retrying..."
            [AString (Node.Name node); AString MachineAnnotationKey] ;;;
          ret None
      | Some v =>
          collectAnnotations rest
            (<[Node.Name node := v]> nodeNameToMachineAnnotation)
      end
  end.

(** Indexing a Go map: the zero value for an absent key. *)
Definition map_index (m : gmap string string) (k : string) : string :=
  default EmptyString (m !! k).

(** The second loop: every machine against the map. *)
Fixpoint checkMachines (machines : list Machine.t)
    (nodeNameToMachineAnnotation : gmap string string) : M E bool :=
  match machines with
  | [] => ret true
  | machine :: rest =>
      match Machine.NodeRef machine with
      | None =>
          glog_Errorf "Machine %q has no NodeRef, retrying..."
            [AString (Machine.Name machine)] ;;;
          ret false
      | Some ref =>
          let nodeName := ObjectReference.Name ref in
          if bool_decide
               (map_index nodeNameToMachineAnnotation nodeName
                <> Sprintf_slash MachineApiNamespace (Machine.Name machine))
          then
            glog_Errorf
              "Node name %q does not match expected machine name %q, retrying..."
              [AString nodeName; AString (Machine.Name machine)] ;;;
            ret false
          else
            glog_Infof "Machine %q is linked to node %q"
              [AString (Machine.Name machine); AString nodeName] ;;;
            checkMachines rest nodeNameToMachineAnnotation
      end
  end.

Definition oneMachinePerNode_listOptions : ListOptions.t :=
  ListOptions.mk MachineApiNamespace ∅.

(** The predicate polled by [isOneMachinePerNode].  In Go the two list
    objects live outside the closure and each successful [client.List] fills
    them anew; an attempt uses them only after both reads of that attempt
    succeeded, so each attempt works on the values it has just read. *)
Definition oneMachinePerNode_condition : ConditionFunc E :=
  let listOptions := oneMachinePerNode_listOptions in
  rm <~ call (CListMachines listOptions) (client_List_machines listOptions) ;;
  match rm with
  | Err err =>
      glog_Errorf "Error querying api for machineList object: %v, retrying..."
        [AError err] ;;;
      ret (false, None)
  | Ok machineList =>
      rn <~ call (CListNodes listOptions) (client_List_nodes listOptions) ;;
      match rn with
      | Err err =>
          glog_Errorf "Error querying api for nodeList object: %v, retrying..."
            [AError err] ;;;
          ret (false, None)
      | Ok nodeList =>
          glog_Infof
            "Expecting the same number of machines and nodes, have %d nodes and %d machines"
            [AInt (Z.of_nat (length nodeList));
             AInt (Z.of_nat (length machineList))] ;;;
          if bool_decide (length machineList <> length nodeList)
          then ret (false, None)
          else
            om <~ collectAnnotations nodeList ∅ ;;
            match om with
            | None => ret (false, None)
            | Some nodeNameToMachineAnnotation =>
                ok <~ checkMachines machineList nodeNameToMachineAnnotation ;;
                if ok then ret (true, None) else ret (false, None)
            end
      end
  end.

Definition isOneMachinePerNode : M E bool :=
  r <~ PollImmediate (5 * Second) WaitShort oneMachinePerNode_condition ;;
  match r with
  | Some err =>
      glog_Errorf "Error checking isOneMachinePerNode: %v" [AError err] ;;;
      ret false
  | None => ret true
  end.

(** *** getClusterSize and the snapshot logs *)

Definition getClusterSize : M E (result Z) :=
  r <~ call CGetNodes e2e_GetNodes ;;
  match r with
  | Err err => ret (Err (Errorf "error getting nodes: %v" [AError err]))
  | Ok nodes =>
      glog_Infof "Cluster size is %d nodes" [AInt (Z.of_nat (length nodes))] ;;;
      ret (Ok (Z.of_nat (length nodes)))
  end.

Fixpoint logMachineSets (machineSets : list MachineSet.t) : M E unit :=
  match machineSets with
  | [] => ret tt
  | machineset :: rest =>
      glog_Infof "MachineSet %q replicas %d. Ready: %d, available %d"
        [AString (MachineSet.Name machineset);
         AInt (Int32PtrDerefOr (MachineSet.Replicas machineset)
                 DefaultMachineSetReplicas);
         AInt (MachineSet.ReadyReplicas machineset);
         AInt (MachineSet.AvailableReplicas machineset)] ;;;
      logMachineSets rest
  end.

Definition machineSetsSnapShotLogs : M E (option error) :=
  r <~ call CGetMachineSets e2e_GetMachineSets ;;
  match r with
  | Err err => ret (Some (Errorf "error getting machines: %v" [AError err]))
  | Ok machineSets => logMachineSets machineSets ;;; ret None
  end.

Fixpoint logNodes (nodes : list Node.t) : M E unit :=
  match nodes with
  | [] => ret tt
  | node :: rest =>
      glog_Infof "Node %q. Ready: %t. Unschedulable: %t"
        [AString (Node.Name node); ABool (IsNodeReady node);
         ABool (Node.Unschedulable node)] ;;;
      logNodes rest
  end.

Definition nodesSnapShotLogs : M E (option error) :=
  r <~ call CGetNodes e2e_GetNodes ;;
  match r with
  | Err err => ret (Some (Errorf "error getting nodes: %v" [AError err]))
  | Ok nodes => logNodes nodes ;;; ret None
  end.

(** *** getMachineFromNode *)

Definition getMachineFromNode (node : Node.t) : M E (result Machine.t) :=
  match Node.Annotations node !! MachineAnnotationKey with
  | None =>
      ret (Err (Errorf "node %q does not have a MachineAnnotationKey %q"
                  [AString (Node.Name node); AString MachineAnnotationKey]))
  | Some machineNamespaceKey =>
      match cache_SplitMetaNamespaceKey machineNamespaceKey with
      | Err err =>
          ret (Err (Errorf "machine annotation format is incorrect %v: %v"
                      [AString machineNamespaceKey; AError err]))
      | Ok (namespace, machineName) =>
          if bool_decide (namespace <> MachineApiNamespace)
          then
            ret (Err (Errorf
                        "Machine %q is forbidden to live outside of default %v namespace"
                        [AString machineNamespaceKey;
                         AString MachineApiNamespace]))
          else
            r <~ call (CGetMachine machineName) (e2e_GetMachine machineName) ;;
            match r with
            | Err err =>
                ret (Err (Errorf "error querying api for machine object: %v"
                            [AError err]))
            | Ok machine => ret (Ok machine)
            end
      end
  end.

(** *** deleteMachine *)

Definition deleteMachine_condition (machine : Machine.t) : ConditionFunc E :=
  r <~ call (CDelete machine) (client_Delete machine) ;;
  match r with
  | Some err =>
      glog_Errorf "Error querying api for machine object %q: %v, retrying..."
        [AString (Machine.Name machine); AError err] ;;;
      ret (false, Some err)
  | None => ret (true, None)
  end.

Definition deleteMachine (machine : Machine.t) : M E (option error) :=
  PollImmediate (1 * Second) Minute (deleteMachine_condition machine).

(** *** nodesAreReady *)

Fixpoint nodesAreReady (nodes : list Node.t) : M E bool :=
  match nodes with
  | [] => ret true
  | node :: rest =>
      if negb (IsNodeReady node)
      then
        glog_Errorf "Node %q is not ready. Conditions are: %v"
          [AString (Node.Name node); AConditions (Node.Conditions node)] ;;;
        ret false
      else
        glog_Infof "Node %q is ready. Conditions are: %v"
          [AString (Node.Name node); AConditions (Node.Conditions node)] ;;;
        nodesAreReady rest
  end.

(** *** scaleMachineSet *)

(** [getScaleClient]: the configuration, the REST mapper and the scale
    client are built in turn; the client itself carries no data the
    package reads.  ([discovery.NewDiscoveryClientForConfigOrDie] returns no
    error and is left out.) *)
Definition getScaleClient : M E (option error) :=
  r <~ call CLoadConfig e2e_LoadConfig ;;
  match r with
  | Some err => ret (Some (Errorf "error getting config %v" [AError err]))
  | None =>
      r <~ call CNewDiscoveryRESTMapper apiutil_NewDiscoveryRESTMapper ;;
      match r with
      | Some err =>
          ret (Some (Errorf "error calling NewDiscoveryRESTMapper %v"
                       [AError err]))
      | None =>
          r <~ call CScaleNewForConfig scale_NewForConfig ;;
          match r with
          | Some err =>
              ret (Some (Errorf "error calling building scale client %v"
                           [AError err]))
          | None => ret None
          end
      end
  end.

Definition machineSet_GroupResource : GroupResource.t :=
  GroupResource.mk machineAPIGroup "MachineSet".

Definition scaleMachineSet (name : string) (replicas : Z)
    : M E (option error) :=
  r <~ getScaleClient ;;
  match r with
  | Some err => ret (Some (Errorf "error calling getScaleClient %v" [AError err]))
  | None =>
      let gr := machineSet_GroupResource in
      r <~ call (CScalesGet MachineApiNamespace gr name)
             (scales_Get MachineApiNamespace gr name) ;;
      match r with
      | Err err =>
          ret (Some (Errorf "error calling scaleClient.Scales get: %v"
                       [AError err]))
      | Ok scale =>
          let scaleUpdate := Scale.DeepCopy scale in
          let scaleUpdate := Scale.set_SpecReplicas (int32 replicas) scaleUpdate in
          r <~ call (CScalesUpdate MachineApiNamespace gr scaleUpdate)
                 (scales_Update MachineApiNamespace gr scaleUpdate) ;;
          match r with
          | Err err =>
              ret (Some (Errorf "error calling scaleClient.Scales update: %v"
                           [AError err]))
          | Ok _ => ret None
          end
      end
  end.

(** *** waitUntilAllNodesAreSchedulable *)

Fixpoint checkSchedulable (nodes : list Node.t) : M E bool :=
  match nodes with
  | [] => ret true
  | node :: rest =>
      if Node.Unschedulable node
      then
        glog_Errorf "Node %q is unschedulable" [AString (Node.Name node)] ;;;
        ret false
      else
        glog_Infof "Node %q is schedulable" [AString (Node.Name node)] ;;;
        checkSchedulable rest
  end.

Definition allNodesSchedulable_condition : ConditionFunc E :=
  let opts := ListOptions.mk EmptyString ∅ in
  r <~ call (CListNodes opts) (client_List_nodes opts) ;;
  match r with
  | Err err =>
      glog_Errorf "error querying api for nodeList object: %v, retrying..."
        [AError err] ;;;
      ret (false, None)
  | Ok nodeList =>
      ok <~ checkSchedulable nodeList ;;
      if ok then ret (true, None) else ret (false, None)
  end.

Definition waitUntilAllNodesAreSchedulable : M E (option error) :=
  PollImmediate (1 * Second) Minute allNodesSchedulable_condition.

(** *** waitForClusterSizeToBeHealthy *)

(** The predicate of the size poll. *)
Definition clusterSize_condition (targetSize : Z) : ConditionFunc E :=
  glog_Infof "Cluster size expected to be %d nodes" [AInt targetSize] ;;;
  r <~ machineSetsSnapShotLogs ;;
  match r with
  | Some err => ret (false, Some err)
  | None =>
      r <~ nodesSnapShotLogs ;;
      match r with
      | Some err => ret (false, Some err)
      | None =>
          r <~ getClusterSize ;;
          match r with
          | Err err => ret (false, Some err)
          | Ok finalClusterSize =>
              ret (bool_decide (finalClusterSize = targetSize), None)
          end
      end
  end.

Definition clusterSize_poll (targetSize : Z) : M E (option error) :=
  PollImmediate (5 * Second) WaitLong (clusterSize_condition targetSize).

Definition waitForClusterSizeToBeHealthy (targetSize : Z)
    : M E (option error) :=
  r <~ clusterSize_poll targetSize ;;
  match r with
  | Some err =>
      ret (Some (Errorf "Did not reach expected number of nodes: %v"
                   [AError err]))
  | None =>
      glog_Infof "waiting for all nodes to be ready" [] ;;;
      r <~ call CWaitUntilAllNodesAreReady e2e_WaitUntilAllNodesAreReady ;;
      match r with
      | Some err => ret (Some err)
      | None =>
          glog_Infof "waiting for all nodes to be schedulable" [] ;;;
          r <~ waitUntilAllNodesAreSchedulable ;;
          match r with
          | Some err => ret (Some err)
          | None =>
              glog_Infof "waiting for each node to be backed by a machine" [] ;;;
              ok <~ isOneMachinePerNode ;;
              if negb ok
              then ret (Some (Errorf "One machine per node condition violated" []))
              else ret None
          end
      end
  end.
End Infra.

(** ** Reading a trace *)

(** The collaborator calls among some events, in order. *)
Definition calls_of (evs : list Event) : list Call :=
  omap (fun ev => match ev with EvCall c => Some c | _ => None end) evs.

(** The sleeps among some events, in order. *)
Definition sleeps_of (evs : list Event) : list Duration :=
  omap (fun ev => match ev with EvSleep d => Some d | _ => None end) evs.

(** Whether a line of the given format was logged. *)
Definition logged (format : string) (evs : list Event) : bool :=
  existsb
    (fun ev =>
       match ev with
       | EvLog _ f _ => bool_decide (f = format)
       | _ => false
       end)
    evs.

Definition is_scale_call (c : Call) : bool :=
  match c with
  | CScalesGet _ _ _ | CScalesUpdate _ _ _ => true
  | _ => false
  end.

(** Calls that change no object of the cluster. *)
Definition is_read_call (c : Call) : bool :=
  match c with
  | CListMachines _ | CListNodes _ | CGetMachine _ | CGetNodes
  | CGetMachineSets | CScalesGet _ _ _ => true
  | _ => false
  end.

(** The spec's reading of "ready": the condition set holds a condition of
    type ready whose status is true. *)
Definition has_ready_true (node : Node.t) : Prop :=
  exists c, c ∈ Node.Conditions node
            /\ NodeCondition.Type_ c = NodeReady
            /\ NodeCondition.Status c = ConditionTrue.

(** The lines [nodesAreReady] logs for nodes that pass, and for the one that
    does not. *)
Definition ready_line (node : Node.t) : Event :=
  EvLog SevInfo "Node %q is ready. Conditions are: %v"
    [AString (Node.Name node); AConditions (Node.Conditions node)].

Definition not_ready_line (node : Node.t) : Event :=
  EvLog SevError "Node %q is not ready. Conditions are: %v"
    [AString (Node.Name node); AConditions (Node.Conditions node)].

(** Events that are log lines. *)
Definition is_log (ev : Event) : Prop :=
  match ev with EvLog _ _ _ => True | _ => False end.

(** Events that are not sleeps. *)
Definition no_sleep (ev : Event) : Prop :=
  match ev with EvSleep _ => False | _ => True end.

(** [emits P c]: running [c] only appends events, and each one satisfies
    [P]. *)
Definition emits {E A} (P : Event -> Prop) (c : M E A) : Prop :=
  forall w, exists evs,
    trace (snd (c w)) = trace w ++ evs /\ Forall P evs.

(** What each stage of the wait may leave in the trace. *)
Definition size_stage_event (ev : Event) : Prop :=
  match ev with
  | EvCall CGetMachineSets | EvCall CGetNodes | EvLog _ _ _ | EvSleep _ => True
  | _ => False
  end.

Definition schedulable_stage_event (ev : Event) : Prop :=
  match ev with
  | EvCall (CListNodes opts) => opts = ListOptions.mk EmptyString ∅
  | EvLog _ _ _ | EvSleep _ => True
  | _ => False
  end.

Definition oneMachinePerNode_stage_event `{Settings} (ev : Event) : Prop :=
  match ev with
  | EvCall (CListMachines opts) | EvCall (CListNodes opts) =>
      opts = oneMachinePerNode_listOptions
  | EvLog _ _ _ | EvSleep _ => True
  | _ => False
  end.

(** ** What the properties speak of *)

Section Correspondence.
Context `{Settings}.

(** The string "namespace/machineName" of a machine: the configured
    namespace and the machine's name. *)
Definition machine_key (machine : Machine.t) : string :=
  Sprintf_slash MachineApiNamespace (Machine.Name machine).

Definition has_machine_annotation (node : Node.t) : Prop :=
  is_Some (Node.Annotations node !! MachineAnnotationKey).

(** The node of a list that goes by [name].  Node names are unique in a
    cluster; should a list repeat a name, the last node of that name is
    meant. *)
Definition node_named (nodes : list Node.t) (name : string)
    : option Node.t :=
  last (filter (fun node => Node.Name node = name) nodes).

(** A machine is linked: it has a node reference, and the annotation of the
    node it names is the machine's own key. *)
Definition machine_linked (nodes : list Node.t) (machine : Machine.t)
    : Prop :=
  exists ref node,
    Machine.NodeRef machine = Some ref
    /\ node_named nodes (ObjectReference.Name ref) = Some node
    /\ Node.Annotations node !! MachineAnnotationKey
       = Some (machine_key machine).

(** What one iteration asks of the two lists it read. *)
Definition snapshot_consistent (machines : list Machine.t)
    (nodes : list Node.t) : Prop :=
  length machines = length nodes
  /\ Forall has_machine_annotation nodes
  /\ Forall (machine_linked nodes) machines.

(** A machine references a node when its node reference carries the node's
    name; it backs the node when, besides, the node's annotation is the
    machine's key: the link in both directions. *)
Definition references (machine : Machine.t) (node : Node.t) : Prop :=
  exists ref,
    Machine.NodeRef machine = Some ref
    /\ ObjectReference.Name ref = Node.Name node.

Definition backs (machine : Machine.t) (node : Node.t) : Prop :=
  references machine node
  /\ Node.Annotations node !! MachineAnnotationKey
     = Some (machine_key machine).

(** The machines and the nodes correspond one to one: two machines whose
    references name the same node are the same machine, node names are
    distinct, every node is backed by one machine of the list and referenced
    by no other, and every machine backs one node of the list and references
    no other. *)
Definition one_to_one (machines : list Machine.t) (nodes : list Node.t)
    : Prop :=
  (forall m1 m2 r1 r2,
     m1 ∈ machines -> m2 ∈ machines ->
     Machine.NodeRef m1 = Some r1 -> Machine.NodeRef m2 = Some r2 ->
     ObjectReference.Name r1 = ObjectReference.Name r2 -> m1 = m2)
  /\ NoDup (Node.Name <$> nodes)
  /\ (forall node, node ∈ nodes ->
        exists machine,
          machine ∈ machines /\ backs machine node
          /\ forall machine',
               machine' ∈ machines -> references machine' node ->
               machine' = machine)
  /\ (forall machine, machine ∈ machines ->
        exists node,
          node ∈ nodes /\ backs machine node
          /\ forall node',
               node' ∈ nodes -> references machine node' -> node' = node).

(** A converged snapshot, in the words of the spec: the counts are equal,
    every node's annotation matches its owning machine's key, and every
    machine's node reference names that same node.  Node names are unique. *)
Definition converged (machines : list Machine.t) (nodes : list Node.t)
    : Prop :=
  length machines = length nodes
  /\ NoDup (Node.Name <$> nodes)
  /\ (forall node, node ∈ nodes ->
        exists machine, machine ∈ machines /\ backs machine node)
  /\ (forall machine, machine ∈ machines ->
        exists node, node ∈ nodes /\ backs machine node).

Definition linked_in_map (m : gmap string string) (machine : Machine.t)
    : Prop :=
  exists ref,
    Machine.NodeRef machine = Some ref
    /\ m !! ObjectReference.Name ref = Some (machine_key machine).

(** The name a machine's node reference carries (empty without one). *)
Definition ref_name (machine : Machine.t) : string :=
  match Machine.NodeRef machine with
  | Some ref => ObjectReference.Name ref
  | None => EmptyString
  end.

End Correspondence.

Section Attempts.
Context {E : Type} `{ClusterAccess E} `{Settings}.

(** The retries the timeout of [isOneMachinePerNode] allows. *)
Definition oneMachinePerNode_retries : nat :=
  poll_retries (5 * Second) WaitShort.

(** The attempts of the poll inside [isOneMachinePerNode]. *)
Definition oneMachinePerNode_attempt (k : nat) (w : World E) : World E :=
  attempt_world (5 * Second) oneMachinePerNode_condition k w.

(** The three reads of one attempt of the size poll, in the order the code
    makes them: the machine-sets for their snapshot log, the nodes for
    theirs, the nodes again for the count.  [read_failure e err]: started in
    environment [e], one of them fails, and [err] is the error the predicate
    then returns.  [size_read e n]: all three succeed and the count is
    [n]. *)
Inductive read_failure (e : E) : error -> Prop :=
| machineSets_read_fails err e1 :
    e2e_GetMachineSets e = (Err err, e1) ->
    read_failure e (Errorf "error getting machines: %v" [AError err])
| nodes_read_fails machineSets e1 err e2 :
    e2e_GetMachineSets e = (Ok machineSets, e1) ->
    e2e_GetNodes e1 = (Err err, e2) ->
    read_failure e (Errorf "error getting nodes: %v" [AError err])
| count_read_fails machineSets e1 nodes e2 err e3 :
    e2e_GetMachineSets e = (Ok machineSets, e1) ->
    e2e_GetNodes e1 = (Ok nodes, e2) ->
    e2e_GetNodes e2 = (Err err, e3) ->
    read_failure e (Errorf "error getting nodes: %v" [AError err]).

Definition size_read (e : E) (n : Z) : Prop :=
  exists machineSets e1 nodes e2 counted e3,
    e2e_GetMachineSets e = (Ok machineSets, e1)
    /\ e2e_GetNodes e1 = (Ok nodes, e2)
    /\ e2e_GetNodes e2 = (Ok counted, e3)
    /\ n = Z.of_nat (length counted).

(** The retries the long timeout allows the size poll, and its attempts. *)
Definition clusterSize_retries : nat := poll_retries (5 * Second) WaitLong.

Definition clusterSize_attempt (targetSize : Z) (k : nat) (w : World E)
    : World E :=
  attempt_world (5 * Second) (clusterSize_condition targetSize) k w.

End Attempts.

(** ** More of package infra *)

(** How a Go call that may also panic ends: with a value, with an error, or
    in a run-time panic. *)
Inductive returned (A : Type) :=
| Returned (a : A)
| Failed (err : error)
| Panicked.
Arguments Returned {A} a.
Arguments Failed {A} err.
Arguments Panicked {A}.

Section CapturingPoller.
Context {E : Type} `{ClusterAccess E} {V : Type}.

(** A condition function that is a closure over a variable of type [V] of
    the enclosing function: it reads and may assign the variable, so the
    variable is threaded through the attempts of the poll. *)
Definition CapturingCondition : Type :=
  V -> M E ((bool * option error) * V).

(** Modelled from the spec: the Bounded Poller, as [poll_loop] and
    [PollImmediate], for such a closure: the same attempts and sleeps, with
    the captured variable handed from one attempt to the next and, at the
    end, back to the enclosing function. *)
Fixpoint poll_loop_capturing (interval : Duration) (retries : nat)
    (condition : CapturingCondition) (v : V) : M E (option error * V) :=
  match retries with
  | O => ret (Some ErrWaitTimeout, v)
  | S k =>
      sleep interval ;;;
      r <~ condition v ;;
      match r with
      | ((_, Some err), v') => ret (Some err, v')
      | ((true, None), v') => ret (None, v')
      | ((false, None), v') => poll_loop_capturing interval k condition v'
      end
  end.

Definition PollImmediate_capturing (interval timeout : Duration)
    (condition : CapturingCondition) (v : V) : M E (option error * V) :=
  r <~ condition v ;;
  match r with
  | ((_, Some err), v') => ret (Some err, v')
  | ((true, None), v') => ret (None, v')
  | ((false, None), v') =>
      poll_loop_capturing interval (poll_retries interval timeout) condition v'
  end.

(** The condition with the captured variable fixed at [v] and its final
    value dropped. *)
Definition forget_captured (condition : CapturingCondition) (v : V)
    : ConditionFunc E :=
  fun w => let (r, w') := condition v w in (fst r, w').

(** A closure whose verdict and effects do not depend on the value its
    captured variable has when an attempt starts. *)
Definition blind (condition : CapturingCondition) : Prop :=
  forall v v' u,
    fst (fst (condition v u)) = fst (fst (condition v' u))
    /\ snd (condition v u) = snd (condition v' u).
End CapturingPoller.

Section InfraMore.
Context {E : Type} `{ClusterAccess E} `{Settings}.

(** *** getWorkerNode *)

(** [listOptions.MatchingLabels(map[string]string{nodeWorkerRoleLabel: ""})] *)
Definition getWorkerNode_listOptions : ListOptions.t :=
  ListOptions.mk EmptyString {[ nodeWorkerRoleLabel := EmptyString ]}.

(** The closure polled by [getWorkerNode]; the captured variable is
    [nodeList.Items].  A failed [client.List] is taken to leave the list as
    it was; the list is read by the enclosing function only after an attempt
    that has just filled it. *)
Definition getWorkerNode_condition : CapturingCondition (V := list Node.t) :=
  fun nodeList =>
    r <~ call (CListNodes getWorkerNode_listOptions)
           (client_List_nodes getWorkerNode_listOptions) ;;
    match r with
    | Err err =>
        glog_Errorf "Error querying api for nodeList object: %v, retrying..."
          [AError err] ;;;
        ret ((false, None), nodeList)
    | Ok items =>
        if bool_decide (length items < 1)%nat
        then
          glog_Errorf "No nodes were found with label %q"
            [AString nodeWorkerRoleLabel] ;;;
          ret ((false, None), items)
        else ret ((true, None), items)
    end.

(** [&nodeList.Items[0]] panics on an empty list. *)
Definition getWorkerNode : M E (returned Node.t) :=
  r <~ PollImmediate_capturing (1 * Second) Minute getWorkerNode_condition [] ;;
  match r with
  | (Some err, _) =>
      glog_Errorf "Error calling getWorkerMachine: %v" [AError err] ;;;
      ret (Failed err)
  | (None, nodeList) =>
      match nodeList with
      | node :: _ => ret (Returned node)
      | [] => ret Panicked
      end
  end.

(** The retries one minute allows at one attempt a second, and the attempts
    of the polls that use them. *)
Definition minute_retries : nat := poll_retries (1 * Second) Minute.

Definition schedulable_attempt (k : nat) (w : World E) : World E :=
  attempt_world (1 * Second) allNodesSchedulable_condition k w.

Definition getWorkerNode_attempt (k : nat) (w : World E) : World E :=
  attempt_world (1 * Second) (forget_captured getWorkerNode_condition []) k w.

(** An attempt of [getWorkerNode] that finds no node: the list call fails
    or returns no item. *)
Definition unproductive (e : E) : Prop :=
  match fst (client_List_nodes getWorkerNode_listOptions e) with
  | Ok (_ :: _) => False
  | _ => True
  end.

(** *** The snapshot logs *)

(** The line logged for a machine-set, with the default replica count for a
    nil [Spec.Replicas], and the line logged for a node. *)
Definition machineSet_line (machineset : MachineSet.t) : Event :=
  EvLog SevInfo "MachineSet %q replicas %d. Ready: %d, available %d"
    [AString (MachineSet.Name machineset);
     AInt (default DefaultMachineSetReplicas (MachineSet.Replicas machineset));
     AInt (MachineSet.ReadyReplicas machineset);
     AInt (MachineSet.AvailableReplicas machineset)].

Definition node_line (node : Node.t) : Event :=
  EvLog SevInfo "Node %q. Ready: %t. Unschedulable: %t"
    [AString (Node.Name node); ABool (IsNodeReady node);
     ABool (Node.Unschedulable node)].
End InfraMore.

(** *** The machines of a snapshot *)

(** Two machines that carry the same links: the same name and the same
    node name in their references, whatever their namespaces. *)
Definition same_links (m m' : Machine.t) : Prop :=
  Machine.Name m = Machine.Name m'
  /\ ObjectReference.Name <$> Machine.NodeRef m
     = ObjectReference.Name <$> Machine.NodeRef m'.

(** ** Package operator: the metal3 password secrets *)

(** From [pkg/operator/baremetal_pod.go]: the random password and the two
    secrets that hold one.  The code talks to the secrets of a namespace and
    to [crypto/rand]; as for package infra these are transitions on an
    environment, and the calls and log lines are recorded in order. *)
Module Operator.

(** [corev1.Secret]: [ObjectMeta.Name], [ObjectMeta.Namespace] and
    [StringData]. *)
Module Secret.
Record t := mk {
  Name : string;
  Namespace : string;
  StringData : gmap string string
}.
End Secret.

(** [OperatorConfig], with the field the code reads here. *)
Module OperatorConfig.
Record t := mk { TargetNamespace : string }.
End OperatorConfig.

Inductive Call :=
| CSecretsGet (namespace name : string)
| CSecretsCreate (namespace : string) (secret : Secret.t)
| CRandInt (max : Z).

(** [glog.V(level).Info(msg)] and [glog.Error(msg)]. *)
Inductive Event :=
| EvCall (c : Call)
| EvInfoV (level : Z) (msg : string)
| EvError (msg : string).

(** [client.Secrets(namespace)] with its [Get] and [Create],
    [rand.Int(rand.Reader, max)], and [apierrors.IsNotFound], which is
    asked about an error that may be nil. *)
Class Access (S : Type) := {
  secrets_Get : string -> string -> S -> result Secret.t * S;
  secrets_Create : string -> Secret.t -> S -> result Secret.t * S;
  rand_Int : Z -> S -> result Z * S;
  apierrors_IsNotFound : option error -> bool
}.

Record World (S : Type) := mkWorld { env : S; trace : list Event }.
Arguments mkWorld {S} env trace.
Arguments env {S} w.
Arguments trace {S} w.

Definition M (S A : Type) : Type := World S -> A * World S.

Definition ret {S A} (a : A) : M S A := fun w => (a, w).

Definition bind {S A B} (c : M S A) (k : A -> M S B) : M S B :=
  fun w => let (a, w') := c w in k a w'.

Definition emit {S} (ev : Event) : M S unit :=
  fun w => (tt, mkWorld (env w) (trace w ++ [ev])).

Definition call {S A} (c : Call) (op : S -> A * S) : M S A :=
  fun w => let (a, e') := op (env w) in (a, mkWorld e' (trace w ++ [EvCall c])).

Definition baremetalSecretName : string := "metal3-mariadb-password".
Definition baremetalSecretKey : string := "password".
Definition ironicSecretName : string := "metal3-ironic-password".
Definition ironicSecretKey : string := "password".

(** The runes a password is drawn from. *)
Definition chars : list ascii :=
  String.list_ascii_of_string
    ("ABCDEFGHIJKLMNOPQRSTUVWXYZ" +:+ "abcdefghijklmnopqrstuvwxyz"
     +:+ "0123456789").

(** How many draws, and runes, a password takes. *)
Definition passwordLength : nat := 16.

Section Passwords.
Context {S : Type} `{Access S}.

(** The loop of [generateRandomPassword] over the indices of [buf]: a draw
    below [numChars], then [buf[i] = chars[c.Uint64()]].  An index outside
    [chars] is a run-time panic; a negative draw, for which [Uint64] is not
    defined and which [rand.Int] does not return, is taken as one too. *)
Fixpoint fillPassword (indices : list nat) (buf : list ascii)
    : M S (returned (list ascii)) :=
  match indices with
  | [] => ret (Returned buf)
  | i :: rest =>
      let numChars := Z.of_nat (length chars) in
      bind (call (CRandInt numChars) (rand_Int numChars)) (fun r =>
      match r with
      | Err err => ret (Failed err)
      | Ok c =>
          match (if bool_decide (0 <= c) then chars !! Z.to_nat c else None)
          with
          | Some rune => fillPassword rest (<[i := rune]> buf)
          | None => ret Panicked
          end
      end)
  end.

Definition generateRandomPassword : M S (returned string) :=
  let length := passwordLength in
  let buf := replicate length Ascii.zero in
  bind (fillPassword (seq 0 length) buf) (fun r =>
  match r with
  | Returned buf => ret (Returned (String.string_of_list_ascii buf))
  | Failed err => ret (Failed err)
  | Panicked => ret Panicked
  end).

(** The two functions return an [error]: [Returned tt] is nil. *)
Definition createMariadbPasswordSecret (config : OperatorConfig.t)
    : M S (returned unit) :=
  bind (emit (EvInfoV 3
                "Checking if the MariaDB password secret already exists"))
    (fun _ =>
  let namespace := OperatorConfig.TargetNamespace config in
  bind (call (CSecretsGet namespace baremetalSecretName)
          (secrets_Get namespace baremetalSecretName)) (fun r =>
  let err := match r with Ok _ => None | Err err => Some err end in
  if negb (apierrors_IsNotFound err)
  then ret (match err with Some e => Failed e | None => Returned tt end)
  else
    bind generateRandomPassword (fun p =>
    match p with
    | Failed e => ret (Failed e)
    | Panicked => ret Panicked
    | Returned password =>
        let secret :=
          Secret.mk baremetalSecretName namespace
            {[ baremetalSecretKey := password ]} in
        bind (call (CSecretsCreate namespace secret)
                (secrets_Create namespace secret)) (fun c =>
        match c with
        | Ok _ => ret (Returned tt)
        | Err e => ret (Failed e)
        end)
    end))).

Definition createIronicPasswordSecret (config : OperatorConfig.t)
    : M S (returned unit) :=
  bind (emit (EvInfoV 3
                "Checking if the Ironic password secret already exists"))
    (fun _ =>
  let namespace := OperatorConfig.TargetNamespace config in
  bind (call (CSecretsGet namespace ironicSecretName)
          (secrets_Get namespace ironicSecretName)) (fun r =>
  let err := match r with Ok _ => None | Err err => Some err end in
  if negb (apierrors_IsNotFound err)
  then ret (match err with Some e => Failed e | None => Returned tt end)
  else
    bind generateRandomPassword (fun p =>
    match p with
    | Failed e => ret (Failed e)
    | Panicked => ret Panicked
    | Returned password =>
        let secret :=
          Secret.mk ironicSecretName namespace
            {[ ironicSecretKey := password ]} in
        bind (call (CSecretsCreate namespace secret)
                (secrets_Create namespace secret)) (fun c =>
        match c with
        | Ok _ => ret (Returned tt)
        | Err e => ret (Failed e)
        end)
    end))).

Definition createMetal3PasswordSecrets (config : OperatorConfig.t)
    : M S (returned unit) :=
  bind (createMariadbPasswordSecret config) (fun r =>
  match r with
  | Failed err =>
      bind (emit (EvError "Failed to create Mariadb password."))
        (fun _ => ret (Failed err))
  | Panicked => ret Panicked
  | Returned _ =>
      bind (createIronicPasswordSecret config) (fun r =>
      match r with
      | Failed err =>
          bind (emit (EvError "Failed to create Ironic password."))
            (fun _ => ret (Failed err))
      | Panicked => ret Panicked
      | Returned _ => ret (Returned tt)
      end)
  end).
End Passwords.

(** The calls among some events, in order. *)
Definition calls_of (evs : list Event) : list Call :=
  omap (fun ev => match ev with EvCall c => Some c | _ => None end) evs.

(** *** What the secret functions are held to *)

(** [rand.Int] keeps its contract: for a bound above zero, a draw is at
    least zero and below the bound. *)
Definition fair {St} `{Access St} : Prop :=
  forall max s c s',
    0 < max -> rand_Int max s = (Ok c, s') -> 0 <= c < max.

(** A password: sixteen runes, each a letter or a digit of [chars]. *)
Definition well_formed (password : string) : Prop :=
  String.length password = passwordLength
  /\ Forall (fun rune => rune ∈ chars) (String.list_ascii_of_string password).

(** A call that concerns the secret [name] of [namespace] and no other
    secret: its get, its create, or a draw. *)
Definition own_call (namespace name : string) (c : Call) : Prop :=
  match c with
  | CSecretsGet ns n => ns = namespace /\ n = name
  | CSecretsCreate ns secret => ns = namespace /\ Secret.Name secret = name
  | CRandInt max => max = 62
  end.

(** What either of the two secret functions [create] does for the secret
    [name] with the key [key], started in [w]: it begins with the get of its
    secret and makes no call about another secret; an existing secret is
    left alone and nil returned; an error of the get other than not-found is
    returned as it is; a secret is created only after a not-found, as the
    last call, under [name] in the target namespace, holding under [key] a
    well-formed password and nothing else. *)
Definition creates_if_missing {St} `{Access St}
    (create : OperatorConfig.t -> M St (returned unit)) (name key : string)
    (config : OperatorConfig.t) (w : World St) : Prop :=
  let namespace := OperatorConfig.TargetNamespace config in
  let r := create config w in
  let calls := calls_of (drop (length (trace w)) (trace (snd r))) in
  (forall found e1,
     secrets_Get namespace name (env w) = (Ok found, e1) ->
     fst r = Returned tt /\ env (snd r) = e1
     /\ calls = [CSecretsGet namespace name])
  /\ (forall err e1,
        secrets_Get namespace name (env w) = (Err err, e1) ->
        apierrors_IsNotFound (Some err) = false ->
        fst r = Failed err /\ env (snd r) = e1
        /\ calls = [CSecretsGet namespace name])
  /\ (forall ns secret,
        CSecretsCreate ns secret ∈ calls ->
        (exists err e1,
           secrets_Get namespace name (env w) = (Err err, e1)
           /\ apierrors_IsNotFound (Some err) = true)
        /\ last calls = Some (CSecretsCreate ns secret)
        /\ ns = namespace
        /\ Secret.Name secret = name
        /\ Secret.Namespace secret = namespace
        /\ exists password,
             Secret.StringData secret = {[ key := password ]}
             /\ well_formed password)
  /\ head calls = Some (CSecretsGet namespace name)
  /\ Forall (own_call namespace name) calls
  /\ fst r <> Panicked.

Section Stores.
Context {S : Type} `{Access S}.

(** The body the two secret functions share. *)
Definition createPasswordSecret (msg name key : string)
    (config : OperatorConfig.t) : M S (returned unit) :=
  bind (emit (EvInfoV 3 msg)) (fun _ =>
  let namespace := OperatorConfig.TargetNamespace config in
  bind (call (CSecretsGet namespace name) (secrets_Get namespace name))
    (fun r =>
  let err := match r with Ok _ => None | Err err => Some err end in
  if negb (apierrors_IsNotFound err)
  then ret (match err with Some e => Failed e | None => Returned tt end)
  else
    bind generateRandomPassword (fun p =>
    match p with
    | Failed e => ret (Failed e)
    | Panicked => ret Panicked
    | Returned password =>
        let secret := Secret.mk name namespace {[ key := password ]} in
        bind (call (CSecretsCreate namespace secret)
                (secrets_Create namespace secret)) (fun c =>
        match c with
        | Ok _ => ret (Returned tt)
        | Err e => ret (Failed e)
        end)
    end))).

(** The environment holds a secret: getting it succeeds. *)
Definition held (e : S) (namespace name : string) : Prop :=
  exists secret e', secrets_Get namespace name e = (Ok secret, e').

(** A store of secrets: a get and a draw lose no secret, and a create that
    succeeds adds its secret and loses none. *)
Definition store_laws : Prop :=
  (forall ns n e r e',
     secrets_Get ns n e = (r, e') ->
     forall ns' n', held e ns' n' -> held e' ns' n')
  /\ (forall max e r e',
        rand_Int max e = (r, e') ->
        forall ns' n', held e ns' n' -> held e' ns' n')
  /\ (forall ns s e s' e',
        secrets_Create ns s e = (Ok s', e') ->
        held e' ns (Secret.Name s)
        /\ forall ns' n', held e ns' n' -> held e' ns' n').
End Stores.

(** A store of secrets to run the code against: the secrets by namespace
    and name, and the draws [rand.Int] will return.  A missing secret is
    reported by the error [not_found], the one [IsNotFound] recognises; when
    the draws are used up [rand.Int] fails. *)
Module Fake.
Record t := mk {
  secrets : gmap (string * string) Secret.t;
  draws : list Z
}.

Definition not_found : error := ErrExternal "not found".

Definition get (namespace name : string) (e : t) : result Secret.t * t :=
  match secrets e !! (namespace, name) with
  | Some s => (Ok s, e)
  | None => (Err not_found, e)
  end.

Definition create (namespace : string) (s : Secret.t) (e : t)
    : result Secret.t * t :=
  match secrets e !! (namespace, Secret.Name s) with
  | Some _ => (Err (ErrExternal "already exists"), e)
  | None =>
      (Ok s, mk (<[(namespace, Secret.Name s) := s]> (secrets e)) (draws e))
  end.

Definition draw (max : Z) (e : t) : result Z * t :=
  match draws e with
  | d :: rest => (Ok (d mod max), mk (secrets e) rest)
  | [] => (Err (ErrExternal "entropy exhausted"), e)
  end.

Definition is_not_found (err : option error) : bool :=
  match err with
  | Some (ErrExternal msg) => bool_decide (msg = "not found")
  | _ => false
  end.

#[export] Instance access : Access t := {
  secrets_Get := get;
  secrets_Create := create;
  rand_Int := draw;
  apierrors_IsNotFound := is_not_found
}.

Definition config : OperatorConfig.t :=
  OperatorConfig.mk "openshift-machine-api".

(** An empty store with forty draws at hand, and one that already holds a
    MariaDB password. *)
Definition empty_world : World t :=
  mkWorld (mk ∅ (Z.of_nat <$> seq 0 40)) [].

Definition existing : Secret.t :=
  Secret.mk baremetalSecretName "openshift-machine-api"
    {[ baremetalSecretKey := "chosen-by-an-admin" ]}.

Definition seeded_world : World t :=
  mkWorld
    (mk {[ ("openshift-machine-api", baremetalSecretName) := existing ]}
       (Z.of_nat <$> seq 0 40))
    [].

(** An empty store with no draw left. *)
Definition dry_world : World t := mkWorld (mk ∅ []) [].
End Fake.
End Operator.

(** ** A scripted cluster *)

(** A cluster to run the code against: lists of machines, nodes and
    machine-sets, the scale sub-resources by machine-set name, a clock, and
    a script of faults saying, call by call, whether the next call to the
    cluster fails (an exhausted script means no more faults). *)
Module Fake.
Record t := mk {
  machines : list Machine.t;
  nodes : list Node.t;
  machineSets : list MachineSet.t;
  scales : gmap string Scale.t;
  faults : list bool;
  now : Duration
}.

Definition with_faults (fs : list bool) (e : t) : t :=
  mk (machines e) (nodes e) (machineSets e) (scales e) fs (now e).

Definition with_machines (ms : list Machine.t) (e : t) : t :=
  mk ms (nodes e) (machineSets e) (scales e) (faults e) (now e).

Definition with_scales (sc : gmap string Scale.t) (e : t) : t :=
  mk (machines e) (nodes e) (machineSets e) sc (faults e) (now e).

Definition with_now (d : Duration) (e : t) : t :=
  mk (machines e) (nodes e) (machineSets e) (scales e) (faults e) d.

Definition unavailable : error := ErrExternal "unavailable".
Definition not_found : error := ErrExternal "not found".

(** One call: consult the script, then fail or run [ok]. *)
Definition step {A} (ok : t -> A * t) (ko : error -> A) (e : t) : A * t :=
  match faults e with
  | true :: fs => (ko unavailable, with_faults fs e)
  | false :: fs => ok (with_faults fs e)
  | [] => ok e
  end.

Definition list_machines (opts : ListOptions.t)
    : t -> result (list Machine.t) * t :=
  step
    (fun e =>
       (Ok (filter
              (fun m => Machine.Namespace m = ListOptions.Namespace opts)
              (machines e)), e))
    Err.

Definition list_nodes (_ : ListOptions.t) : t -> result (list Node.t) * t :=
  step (fun e => (Ok (nodes e), e)) Err.

Definition delete (machine : Machine.t) : t -> option error * t :=
  step
    (fun e =>
       if bool_decide (Machine.Name machine ∈ Machine.Name <$> machines e)
       then
         (None,
          with_machines
            (filter (fun m => Machine.Name m <> Machine.Name machine)
               (machines e)) e)
       else (Some not_found, e))
    Some.

Definition get_nodes : t -> result (list Node.t) * t :=
  step (fun e => (Ok (nodes e), e)) Err.

Definition get_machineSets : t -> result (list MachineSet.t) * t :=
  step (fun e => (Ok (machineSets e), e)) Err.

Definition get_machine (name : string) : t -> result Machine.t * t :=
  step
    (fun e =>
       match list_find (fun m => Machine.Name m = name) (machines e) with
       | Some (_, m) => (Ok m, e)
       | None => (Err not_found, e)
       end)
    Err.

Definition wait_nodes_ready : t -> option error * t :=
  step
    (fun e =>
       (if forallb IsNodeReady (nodes e) then None else Some ErrWaitTimeout,
        e))
    Some.

Definition setup : t -> option error * t :=
  step (fun e => (None, e)) Some.

Definition scales_get (_ : string) (_ : GroupResource.t) (name : string)
    : t -> result Scale.t * t :=
  step
    (fun e =>
       match scales e !! name with
       | Some s => (Ok s, e)
       | None => (Err not_found, e)
       end)
    Err.

Definition scales_update (_ : string) (_ : GroupResource.t) (s : Scale.t)
    : t -> result Scale.t * t :=
  step (fun e => (Ok s, with_scales (<[Scale.Name s := s]> (scales e)) e)) Err.

(** Splitting a key at its slashes. *)
Fixpoint split_slash (s : string) : list string :=
  match s with
  | EmptyString => [EmptyString]
  | String c rest =>
      if Ascii.eqb c "/"%char then EmptyString :: split_slash rest
      else
        match split_slash rest with
        | part :: parts => String c part :: parts
        | [] => [String c EmptyString]
        end
  end.

Definition split_key (key : string) : result (string * string) :=
  match split_slash key with
  | [name] => Ok (EmptyString, name)
  | [namespace; name] => Ok (namespace, name)
  | _ => Err (Errorf "unexpected key format: %q" [AString key])
  end.

#[export] Instance access : ClusterAccess t := {
  client_List_machines := list_machines;
  client_List_nodes := list_nodes;
  client_Delete := delete;
  e2e_GetNodes := get_nodes;
  e2e_GetMachineSets := get_machineSets;
  e2e_GetMachine := get_machine;
  e2e_WaitUntilAllNodesAreReady := wait_nodes_ready;
  e2e_LoadConfig := setup;
  apiutil_NewDiscoveryRESTMapper := setup;
  scale_NewForConfig := setup;
  scales_Get := scales_get;
  scales_Update := scales_update;
  cache_SplitMetaNamespaceKey := split_key;
  elapse := fun d e => with_now (now e + d) e
}.

#[export] Instance settings : Settings := {
  MachineApiNamespace := "openshift-machine-api";
  MachineAnnotationKey := "machine.openshift.io/machine";
  WaitShort := 1 * Minute;
  WaitLong := 10 * Minute;
  DefaultMachineSetReplicas := 0
}.

(** The same settings with both waits cut down to ten seconds. *)
Definition quick : Settings := {|
  MachineApiNamespace := "openshift-machine-api";
  MachineAnnotationKey := "machine.openshift.io/machine";
  WaitShort := 10 * Second;
  WaitLong := 10 * Second;
  DefaultMachineSetReplicas := 0
|}.

(** Fixtures: two workers, each machine backing one node. *)
Definition ready : list NodeCondition.t :=
  [NodeCondition.mk "MemoryPressure" "False"; NodeCondition.mk "Ready" "True"].

Definition not_ready : list NodeCondition.t :=
  [NodeCondition.mk "MemoryPressure" "False"; NodeCondition.mk "Ready" "False"].

Definition annotated (machineKey : string) : gmap string string :=
  {[ "machine.openshift.io/machine" := machineKey ]}.

Definition node_a : Node.t :=
  Node.mk "node-a" (annotated "openshift-machine-api/machine-a") ready false.

Definition node_b : Node.t :=
  Node.mk "node-b" (annotated "openshift-machine-api/machine-b") ready false.

(** A node annotated with a machine of another namespace. *)
Definition node_foreign : Node.t :=
  Node.mk "node-c" (annotated "default/machine-c") ready false.

(** A node that is not ready, and one that is cordoned. *)
Definition node_down : Node.t :=
  Node.mk "node-d" (annotated "openshift-machine-api/machine-d") not_ready
    false.

Definition node_cordoned : Node.t :=
  Node.mk "node-b" (annotated "openshift-machine-api/machine-b") ready true.

Definition machine_a : Machine.t :=
  Machine.mk "machine-a" "openshift-machine-api"
    (Some (ObjectReference.mk EmptyString "node-a")).

Definition machine_b : Machine.t :=
  Machine.mk "machine-b" "openshift-machine-api"
    (Some (ObjectReference.mk EmptyString "node-b")).

Definition workers : MachineSet.t := MachineSet.mk "workers" (Some 2) 2 2.

Definition workers_scale : Scale.t :=
  Scale.mk "Scale" "autoscaling/v1" "workers" "openshift-machine-api" "41"
    {[ "machine.openshift.io/cluster-api-machine-role" := "worker" ]}
    {[ "owner" := "e2e" ]} 2 2 "machineset=workers".

(** The converged cluster, and the same cluster under a script of faults. *)
Definition cluster : t :=
  mk [machine_a; machine_b] [node_a; node_b] [workers]
     {[ "workers" := workers_scale ]} [] 0.

Definition world (e : t) : World t := mkWorld e [].

Definition converged_world : World t := world cluster.

Definition faulty_world (script : list bool) : World t :=
  world (with_faults script cluster).

(** The cluster with its second node cordoned. *)
Definition cordoned_world : World t :=
  world (mk [machine_a; machine_b] [node_a; node_cordoned] [workers]
           {[ "workers" := workers_scale ]} [] 0).

(** The cluster with its second node annotated with a machine that is not
    the one referencing it. *)
Definition mismatched_world : World t :=
  world (mk [machine_a; machine_b]
           [node_a;
            Node.mk "node-b" (annotated "openshift-machine-api/machine-x")
              ready false]
           [workers] {[ "workers" := workers_scale ]} [] 0).

(** The cluster with a second node that is not ready. *)
Definition down_world : World t :=
  world (mk [machine_a; machine_b] [node_a; node_down] [workers]
           {[ "workers" := workers_scale ]} [] 0).

(** A cluster whose machine list returns the first machine twice and the
    second machine not at all. *)
Definition duplicated_world : World t :=
  world (mk [machine_a; machine_a] [node_a; node_b] [workers]
           {[ "workers" := workers_scale ]} [] 0).
End Fake.

(** ** Properties *)

Ltac run_step :=
  unfold bind, ret, emit, call, glog_Infof, glog_Errorf, sleep; simpl.

Lemma IsNodeReady_spec (node : Node.t) :
  IsNodeReady node = true <-> has_ready_true node.
Proof.
  unfold IsNodeReady, has_ready_true. rewrite existsb_exists. split.
  - intros (c & Hin & Hc). apply andb_prop in Hc as [H1 H2].
    apply bool_decide_eq_true in H1, H2.
    exists c. rewrite list_elem_of_In. auto.
  - intros (c & Hin & H1 & H2). exists c. rewrite <- list_elem_of_In.
    split; [done|]. by rewrite !bool_decide_eq_true_2.
Qed.

Section ReadyGate.
Context {E : Type}.

Lemma nodesAreReady_prefix (pre : list Node.t) (node : Node.t)
    (post : list Node.t) (w : World E) :
  Forall has_ready_true pre -> ~ has_ready_true node ->
  nodesAreReady (pre ++ node :: post) w
  = (false, mkWorld (env w)
              (trace w ++ map ready_line pre ++ [not_ready_line node])).
Proof.
  intros Hpre Hnode. revert w.
  induction Hpre as [|n pre Hn Hpre IH]; intros w; simpl.
  - destruct (IsNodeReady node) eqn:Hr.
    + exfalso. by apply Hnode, IsNodeReady_spec.
    + reflexivity.
  - apply IsNodeReady_spec in Hn. rewrite Hn. simpl.
    run_step. rewrite IH. simpl. by rewrite <- app_assoc.
Qed.

Lemma nodesAreReady_true (nodes : list Node.t) (w : World E) :
  Forall has_ready_true nodes ->
  nodesAreReady nodes w
  = (true, mkWorld (env w) (trace w ++ map ready_line nodes)).
Proof.
  intros Hall. revert w.
  induction Hall as [|n nodes Hn Hall IH]; intros w; simpl.
  - run_step. rewrite app_nil_r. by destruct w.
  - apply IsNodeReady_spec in Hn. rewrite Hn. simpl.
    run_step. rewrite IH. simpl. by rewrite <- app_assoc.
Qed.

(** Every list of nodes is all ready, or splits at its first node that is
    not. *)
Lemma first_not_ready (nodes : list Node.t) :
  Forall has_ready_true nodes
  \/ exists pre node post,
       nodes = pre ++ node :: post
       /\ Forall has_ready_true pre /\ ~ has_ready_true node.
Proof.
  induction nodes as [|n nodes IH].
  - left. constructor.
  - destruct (IsNodeReady n) eqn:Hn.
    + apply IsNodeReady_spec in Hn.
      destruct IH as [IH | (pre & node & post & -> & Hpre & Hnode)].
      * left. by constructor.
      * right. exists (n :: pre), node, post. repeat split; auto.
    + right. exists [], n, nodes. repeat split; auto.
      intros Hr. apply IsNodeReady_spec in Hr. congruence.
Qed.

(** C5: [nodesAreReady] answers true exactly when every node of the
    sequence has the ready condition in true state; at the first node that
    lacks it, wherever that node stands (after any ready nodes [pre], before
    any nodes [post], or alone), it answers false having logged the ready
    nodes before it and that node, and looks at no later node; on the empty
    sequence it answers true and does nothing. *)
Theorem nodesAreReady_all_or_nothing (nodes : list Node.t) (w : World E) :
  (fst (nodesAreReady nodes w) = true <-> Forall has_ready_true nodes)
  /\ (forall pre node post,
        nodes = pre ++ node :: post ->
        Forall has_ready_true pre -> ~ has_ready_true node ->
        nodesAreReady nodes w
        = (false, mkWorld (env w)
                    (trace w ++ map ready_line pre ++ [not_ready_line node])))
  /\ nodesAreReady [] w = (true, w).
Proof.
  split; [|split].
  - split.
    + intros Htrue.
      destruct (first_not_ready nodes)
        as [Hall | (pre & node & post & -> & Hpre & Hnode)]; [done|].
      rewrite nodesAreReady_prefix in Htrue by done. discriminate.
    + intros Hall. by rewrite nodesAreReady_true.
  - intros pre node post -> Hpre Hnode. by apply nodesAreReady_prefix.
  - reflexivity.
Qed.
End ReadyGate.

(** *** The monad and the poller *)

Section Monad.
Context {E : Type} `{ClusterAccess E}.

Lemma emits_ret {A} (P : Event -> Prop) (a : A) : emits P (ret (E:=E) a).
Proof. intros w. exists []. simpl. by rewrite app_nil_r. Qed.

Lemma emits_bind {A B} (P : Event -> Prop) (c : M E A) (k : A -> M E B) :
  emits P c -> (forall a, emits P (k a)) -> emits P (bind c k).
Proof.
  intros Hc Hk w. unfold bind.
  destruct (Hc w) as (evs1 & Ht1 & HP1).
  destruct (c w) as [a w1] eqn:Hcw. simpl in Ht1.
  destruct (Hk a w1) as (evs2 & Ht2 & HP2).
  exists (evs1 ++ evs2). split.
  - by rewrite Ht2, Ht1, app_assoc.
  - by apply Forall_app.
Qed.

Lemma emits_emit (P : Event -> Prop) (ev : Event) :
  P ev -> emits P (emit (E:=E) ev).
Proof. intros HP w. exists [ev]. simpl. auto. Qed.

Lemma emits_call {A} (P : Event -> Prop) (c : Call) (op : E -> A * E) :
  P (EvCall c) -> emits P (call c op).
Proof.
  intros HP w. exists [EvCall c]. unfold call.
  destruct (op (env w)). simpl. auto.
Qed.

Lemma emits_sleep (P : Event -> Prop) (d : Duration) :
  P (EvSleep d) -> emits P (sleep d).
Proof. intros HP w. exists [EvSleep d]. simpl. auto. Qed.

Lemma emits_poll_loop (P : Event -> Prop) interval retries
    (condition : ConditionFunc E) :
  P (EvSleep interval) -> emits P condition ->
  emits P (poll_loop interval retries condition).
Proof.
  intros Hs Hc. induction retries as [|k IH]; simpl.
  - apply emits_ret.
  - apply emits_bind; [by apply emits_sleep|]. intros _.
    apply emits_bind; [done|]. intros [[] [err|]];
      auto using emits_ret.
Qed.

Lemma emits_PollImmediate (P : Event -> Prop) interval timeout
    (condition : ConditionFunc E) :
  P (EvSleep interval) -> emits P condition ->
  emits P (PollImmediate interval timeout condition).
Proof.
  intros Hs Hc. unfold PollImmediate.
  apply emits_bind; [done|]. intros [[] [err|]];
    auto using emits_ret, emits_poll_loop.
Qed.

Lemma attempt_world_S interval (condition : ConditionFunc E) k w :
  attempt_world interval condition (S k) w
  = attempt_world interval condition k
      (snd (sleep interval (snd (condition w)))).
Proof.
  induction k as [|k IH]; [done|].
  change (attempt_world interval condition (S (S k)) w)
    with (snd (sleep interval
                 (snd (condition (attempt_world interval condition (S k) w))))).
  by rewrite IH.
Qed.

Lemma decisive_dec (r : bool * option error) :
  r = (false, None) \/ decisive r.
Proof. destruct r as [[] [err|]]; (by left) || (by right). Qed.

Lemma poll_loop_S interval r (condition : ConditionFunc E) u :
  poll_loop interval (S r) condition u
  = (let (a, w1) := condition (snd (sleep interval u)) in
     match a with
     | (_, Some err) => (Some err, w1)
     | (true, None) => (None, w1)
     | (false, None) => poll_loop interval r condition w1
     end).
Proof.
  simpl. unfold bind. simpl.
  by destruct (condition _) as [[[] [err|]] w1].
Qed.

Lemma PollImmediate_unfold interval timeout (condition : ConditionFunc E) w :
  PollImmediate interval timeout condition w
  = (let (a, w1) := condition w in
     match a with
     | (_, Some err) => (Some err, w1)
     | (true, None) => (None, w1)
     | (false, None) =>
         poll_loop interval (poll_retries interval timeout) condition w1
     end).
Proof.
  unfold PollImmediate, bind.
  by destruct (condition w) as [[[] [err|]] w1].
Qed.

Lemma poll_loop_decided interval retries (condition : ConditionFunc E) k u :
  (k < retries)%nat ->
  (forall j, (j < k)%nat ->
     fst (condition
            (attempt_world interval condition j (snd (sleep interval u))))
     = (false, None)) ->
  decisive
    (fst (condition
            (attempt_world interval condition k (snd (sleep interval u))))) ->
  poll_loop interval retries condition u
  = (verdict
       (fst (condition
               (attempt_world interval condition k (snd (sleep interval u))))),
     snd (condition
            (attempt_world interval condition k (snd (sleep interval u))))).
Proof.
  revert k u. induction retries as [|r IH]; intros k u Hk Hpre Hdec; [lia|].
  rewrite poll_loop_S. destruct k as [|k].
  - cbn [attempt_world] in *.
    destruct (condition (snd (sleep interval u))) as [[d oe] w1].
    simpl in *. destruct d, oe; try done.
  - pose proof (Hpre O ltac:(lia)) as H0. cbn [attempt_world] in H0.
    rewrite attempt_world_S in Hdec |- *.
    destruct (condition (snd (sleep interval u))) as [[d oe] w1] eqn:Hc.
    simpl in H0. injection H0 as -> ->. simpl snd in Hdec |- *.
    apply IH; [lia| |done].
    intros j Hj. specialize (Hpre (S j) ltac:(lia)).
    rewrite attempt_world_S in Hpre. by rewrite Hc in Hpre.
Qed.

Lemma poll_loop_timeout interval retries (condition : ConditionFunc E) u :
  (forall j, (j < retries)%nat ->
     fst (condition
            (attempt_world interval condition j (snd (sleep interval u))))
     = (false, None)) ->
  poll_loop interval retries condition u
  = (Some ErrWaitTimeout,
     match retries with
     | O => u
     | S r =>
         snd (condition
                (attempt_world interval condition r (snd (sleep interval u))))
     end).
Proof.
  revert u. induction retries as [|r IH]; intros u Hpre; [done|].
  pose proof (Hpre O ltac:(lia)) as H0. cbn [attempt_world] in H0.
  rewrite poll_loop_S.
  destruct (condition (snd (sleep interval u))) as [[d oe] w1] eqn:Hc.
  simpl in H0. injection H0 as -> ->.
  rewrite IH.
  - destruct r as [|r].
    + cbn [attempt_world]. by rewrite Hc.
    + rewrite attempt_world_S. by rewrite Hc.
  - intros j Hj. specialize (Hpre (S j) ltac:(lia)).
    rewrite attempt_world_S in Hpre. by rewrite Hc in Hpre.
Qed.

(** A poll ends at its first decisive attempt, with that attempt's verdict
    and in the world that attempt left: no sleep and no attempt follows. *)
Lemma PollImmediate_decided interval timeout (condition : ConditionFunc E)
    k w :
  (k <= poll_retries interval timeout)%nat ->
  (forall j, (j < k)%nat ->
     fst (condition (attempt_world interval condition j w)) = (false, None)) ->
  decisive (fst (condition (attempt_world interval condition k w))) ->
  PollImmediate interval timeout condition w
  = (verdict (fst (condition (attempt_world interval condition k w))),
     snd (condition (attempt_world interval condition k w))).
Proof.
  intros Hk Hpre Hdec. rewrite PollImmediate_unfold.
  destruct k as [|k].
  - cbn [attempt_world] in *. destruct (condition w) as [[d oe] w1].
    simpl in *. destruct d, oe; try done.
  - pose proof (Hpre O ltac:(lia)) as H0. cbn [attempt_world] in H0.
    rewrite attempt_world_S in Hdec |- *.
    destruct (condition w) as [[d oe] w1] eqn:Hc.
    simpl in H0. injection H0 as -> ->. simpl snd in Hdec |- *.
    apply poll_loop_decided; [lia| |done].
    intros j Hj. specialize (Hpre (S j) ltac:(lia)).
    rewrite attempt_world_S in Hpre. by rewrite Hc in Hpre.
Qed.

(** A poll whose every attempt asks for a retry ends with the timeout
    error, after the last attempt the budget allows. *)
Lemma PollImmediate_timeout interval timeout (condition : ConditionFunc E) w :
  (forall j, (j <= poll_retries interval timeout)%nat ->
     fst (condition (attempt_world interval condition j w)) = (false, None)) ->
  PollImmediate interval timeout condition w
  = (Some ErrWaitTimeout,
     snd (condition
            (attempt_world interval condition
               (poll_retries interval timeout) w))).
Proof.
  intros Hpre. rewrite PollImmediate_unfold.
  pose proof (Hpre O ltac:(lia)) as H0. cbn [attempt_world] in H0.
  destruct (condition w) as [[d oe] w1] eqn:Hc.
  simpl in H0. injection H0 as -> ->.
  rewrite poll_loop_timeout.
  - destruct (poll_retries interval timeout) as [|r].
    + cbn [attempt_world]. by rewrite Hc.
    + rewrite attempt_world_S. by rewrite Hc.
  - intros j Hj. specialize (Hpre (S j) ltac:(lia)).
    rewrite attempt_world_S in Hpre. by rewrite Hc in Hpre.
Qed.

(** Up to any bound, either some attempt is the first decisive one or every
    attempt asks for a retry. *)
Lemma first_decisive interval (condition : ConditionFunc E) w n :
  (exists k, (k <= n)%nat
     /\ (forall j, (j < k)%nat ->
           fst (condition (attempt_world interval condition j w))
           = (false, None))
     /\ decisive (fst (condition (attempt_world interval condition k w))))
  \/ (forall j, (j <= n)%nat ->
        fst (condition (attempt_world interval condition j w))
        = (false, None)).
Proof.
  induction n as [|n IH].
  - destruct (decisive_dec (fst (condition w))) as [H0|H0].
    + right. intros j Hj. by replace j with O by lia.
    + left. exists O. split; [lia|]. split; [intros; lia|done].
  - destruct IH as [(k & Hk & Hpre & Hdec)|Hall].
    + left. exists k. split; [lia|done].
    + destruct (decisive_dec
                  (fst (condition
                          (attempt_world interval condition (S n) w))))
        as [H0|H0].
      * right. intros j Hj.
        destruct (decide (j = S n)) as [->|]; [done|]. apply Hall. lia.
      * left. exists (S n). split; [lia|]. split; [|done].
        intros j Hj. apply Hall. lia.
Qed.
End Monad.

Section Operations.
Context {E : Type} `{ClusterAccess E} `{Settings}.

(** *** deleteMachine *)

(** C7: [deleteMachine] makes exactly one delete call and never sleeps.  When
    the call fails, its error is the result of the poll at once (after the
    one log line), so none of the sixty retries of the one-minute budget is
    used; the poll returns nil exactly when the delete call succeeded. *)
Theorem deleteMachine_failure_is_fatal (machine : Machine.t) (w : World E) :
  let r := fst (client_Delete machine (env w)) in
  let w' := snd (deleteMachine machine w) in
  fst (deleteMachine machine w) = r
  /\ env w' = snd (client_Delete machine (env w))
  /\ trace w'
     = trace w ++ EvCall (CDelete machine)
         :: match r with
            | Some err =>
                [EvLog SevError
                   "Error querying api for machine object %q: %v, retrying..."
                   [AString (Machine.Name machine); AError err]]
            | None => []
            end
  /\ calls_of (drop (length (trace w)) (trace w')) = [CDelete machine]
  /\ sleeps_of (drop (length (trace w)) (trace w')) = []
  /\ poll_retries (1 * Second) Minute = 60%nat
  /\ (fst (deleteMachine machine w) = None
      <-> fst (client_Delete machine (env w)) = None).
Proof.
  unfold deleteMachine. rewrite PollImmediate_unfold.
  unfold deleteMachine_condition, bind, call.
  destruct (client_Delete machine (env w)) as [[err|] e'] eqn:Hd; simpl.
  - rewrite <- app_assoc. simpl. rewrite drop_app_length. simpl.
    repeat split; try done.
  - rewrite drop_app_length. simpl. repeat split; done.
Qed.

(** *** getMachineFromNode *)

(** C10: when the node's machine annotation splits into a namespace and a
    name, and the namespace is not the configured machine-API namespace,
    [getMachineFromNode] returns the "forbidden to live outside" error and
    leaves the world as it was: no machine lookup is made.  When it returns
    a machine, the annotation named the configured namespace and the machine
    is the one the lookup of the annotation's name gave. *)
Theorem getMachineFromNode_foreign_namespace (node : Node.t) (w : World E) :
  (forall key namespace machineName,
     Node.Annotations node !! MachineAnnotationKey = Some key ->
     cache_SplitMetaNamespaceKey key = Ok (namespace, machineName) ->
     namespace <> MachineApiNamespace ->
     getMachineFromNode node w
     = (Err (Errorf
               "Machine %q is forbidden to live outside of default %v namespace"
               [AString key; AString MachineApiNamespace]),
        w))
  /\ (forall machine w',
        getMachineFromNode node w = (Ok machine, w') ->
        exists key machineName,
          Node.Annotations node !! MachineAnnotationKey = Some key
          /\ cache_SplitMetaNamespaceKey key
             = Ok (MachineApiNamespace, machineName)
          /\ e2e_GetMachine machineName (env w) = (Ok machine, env w')
          /\ trace w' = trace w ++ [EvCall (CGetMachine machineName)]).
Proof.
  split.
  - intros key namespace machineName Hann Hsplit Hns.
    unfold getMachineFromNode. rewrite Hann, Hsplit.
    by rewrite bool_decide_eq_true_2.
  - intros machine w'. unfold getMachineFromNode.
    destruct (Node.Annotations node !! MachineAnnotationKey) as [key|];
      [|discriminate].
    destruct (cache_SplitMetaNamespaceKey key) as [[namespace machineName]|]
      eqn:Hsplit; [|discriminate].
    case_bool_decide as Hns; [discriminate|].
    subst namespace.
    unfold bind, call.
    destruct (e2e_GetMachine machineName (env w)) as [[m|err] e'] eqn:Hg;
      [|discriminate].
    intros [= <- <-]. by exists key, machineName.
Qed.

(** *** scaleMachineSet *)

Lemma getScaleClient_ok (w w1 : World E) :
  getScaleClient w = (None, w1) ->
  trace w1
  = trace w ++ [EvCall CLoadConfig; EvCall CNewDiscoveryRESTMapper;
                EvCall CScaleNewForConfig].
Proof.
  unfold getScaleClient, bind, call.
  destruct (e2e_LoadConfig (env w)) as [[err|] e1]; [discriminate|]. simpl.
  destruct (apiutil_NewDiscoveryRESTMapper e1) as [[err|] e2];
    [discriminate|]. simpl.
  destruct (scale_NewForConfig e2) as [[err|] e3]; [discriminate|]. simpl.
  intros [= <-]. simpl. by rewrite <- !app_assoc.
Qed.

(** C6: when [scaleMachineSet] returns nil, the calls it made are the three
    that build the scale client followed by exactly one get and one update of
    the scale sub-resource of the named machine-set; the object sent by the
    update is the object the get returned with [Spec.Replicas] set to
    [int32(replicas)], and each other field of it is the field that was
    read. *)
Theorem scaleMachineSet_read_modify_write (name : string) (replicas : Z)
    (w w' : World E) :
  scaleMachineSet name replicas w = (None, w') ->
  exists (scale written : Scale.t) (e1 : E),
    scales_Get MachineApiNamespace machineSet_GroupResource name
      (env (snd (getScaleClient w)))
    = (Ok scale, e1)
    /\ trace w'
       = trace w
         ++ [EvCall CLoadConfig; EvCall CNewDiscoveryRESTMapper;
             EvCall CScaleNewForConfig;
             EvCall (CScalesGet MachineApiNamespace machineSet_GroupResource
                       name);
             EvCall (CScalesUpdate MachineApiNamespace
                       machineSet_GroupResource written)]
    /\ filter is_scale_call (calls_of (drop (length (trace w)) (trace w')))
       = [CScalesGet MachineApiNamespace machineSet_GroupResource name;
          CScalesUpdate MachineApiNamespace machineSet_GroupResource written]
    /\ Scale.SpecReplicas written = int32 replicas
    /\ Scale.Kind written = Scale.Kind scale
    /\ Scale.APIVersion written = Scale.APIVersion scale
    /\ Scale.Name written = Scale.Name scale
    /\ Scale.Namespace written = Scale.Namespace scale
    /\ Scale.ResourceVersion written = Scale.ResourceVersion scale
    /\ Scale.Labels written = Scale.Labels scale
    /\ Scale.Annotations written = Scale.Annotations scale
    /\ Scale.StatusReplicas written = Scale.StatusReplicas scale
    /\ Scale.StatusSelector written = Scale.StatusSelector scale.
Proof.
  unfold scaleMachineSet. unfold bind at 1.
  destruct (getScaleClient w) as [[err|] w1] eqn:Hsc; [discriminate|].
  apply getScaleClient_ok in Hsc. unfold bind, call. simpl snd.
  destruct (scales_Get _ _ _ (env w1)) as [[scale|err] e1] eqn:Hget;
    [|discriminate].
  simpl.
  destruct (scales_Update _ _ _ e1) as [[s2|err] e2] eqn:Hupd;
    [|discriminate].
  intros [= <-]. simpl.
  exists scale, (Scale.set_SpecReplicas (int32 replicas) (Scale.DeepCopy scale)), e1.
  split; [done|]. rewrite Hsc, <- !app_assoc. simpl.
  split; [done|]. rewrite drop_app_length. simpl.
  repeat split; done.
Qed.
End Operations.

(** *** One machine per node *)

Section CorrespondenceFacts.
Context `{Settings}.

Lemma Sprintf_slash_nonempty (a b : string) : Sprintf_slash a b <> EmptyString.
Proof. unfold Sprintf_slash. by destruct a. Qed.

Lemma Sprintf_slash_inj (a b b' : string) :
  Sprintf_slash a b = Sprintf_slash a b' -> b = b'.
Proof.
  unfold Sprintf_slash. induction a as [|c a IH]; simpl; intros Heq.
  - by injection Heq.
  - injection Heq. auto.
Qed.

Lemma node_named_cons (node : Node.t) (nodes : list Node.t) (name : string) :
  node_named (node :: nodes) name
  = match node_named nodes name with
    | Some n => Some n
    | None => if decide (Node.Name node = name) then Some node else None
    end.
Proof.
  unfold node_named. rewrite filter_cons.
  destruct (decide (Node.Name node = name)); [|by destruct (last _)].
  by rewrite last_cons.
Qed.

Lemma node_named_Some (nodes : list Node.t) (name : string) (node : Node.t) :
  node_named nodes name = Some node -> node ∈ nodes /\ Node.Name node = name.
Proof.
  unfold node_named. intros Hl. apply last_Some_elem_of in Hl.
  apply list_elem_of_filter in Hl. tauto.
Qed.

(** With unique names, the node of a name is the node of the list that has
    it. *)
Lemma node_named_unique (nodes : list Node.t) (node : Node.t) :
  NoDup (Node.Name <$> nodes) -> node ∈ nodes ->
  node_named nodes (Node.Name node) = Some node.
Proof.
  induction nodes as [|n nodes IH]; intros Hnd Hin.
  - by apply elem_of_nil in Hin.
  - apply NoDup_cons in Hnd as [Hn Hnd]. rewrite node_named_cons.
    apply elem_of_cons in Hin as [->|Hin].
    + destruct (node_named nodes (Node.Name n)) as [n'|] eqn:Hn'.
      * apply node_named_Some in Hn' as [Hin' Heq]. exfalso. apply Hn.
        rewrite <- Heq. by apply list_elem_of_fmap_2.
      * by rewrite decide_True.
    + by rewrite IH.
Qed.
End CorrespondenceFacts.

Section OneMachinePerNode.
Context {E : Type} `{ClusterAccess E} `{Settings}.

Lemma collectAnnotations_env nodes acc (w : World E) :
  env (snd (collectAnnotations nodes acc w)) = env w.
Proof.
  revert acc w. induction nodes as [|node nodes IH]; intros acc w; simpl.
  - done.
  - destruct (Node.Annotations node !! MachineAnnotationKey); [apply IH|done].
Qed.

Lemma collectAnnotations_emits nodes acc :
  emits (E:=E) is_log (collectAnnotations nodes acc).
Proof.
  revert acc. induction nodes as [|node nodes IH]; intros acc; simpl.
  - apply emits_ret.
  - destruct (Node.Annotations node !! MachineAnnotationKey); [apply IH|].
    apply emits_bind; [by apply emits_emit|]. intros _. apply emits_ret.
Qed.

Lemma collectAnnotations_None nodes acc (w : World E) :
  ~ Forall has_machine_annotation nodes ->
  fst (collectAnnotations nodes acc w) = None.
Proof.
  revert acc w. induction nodes as [|node nodes IH]; intros acc w Hn; simpl.
  - exfalso. apply Hn. constructor.
  - destruct (Node.Annotations node !! MachineAnnotationKey) as [v|] eqn:Hv;
      [|done].
    apply IH. intros Hall. apply Hn. constructor; [|done].
    unfold has_machine_annotation. by rewrite Hv.
Qed.

(** With every node annotated the first loop logs nothing, and the map it
    builds holds, for each name, the annotation of the node of that name. *)
Lemma collectAnnotations_Some nodes acc (w : World E) :
  Forall has_machine_annotation nodes ->
  exists m : gmap string string,
    collectAnnotations nodes acc w = (Some m, w)
    /\ forall name,
         m !! name
         = match node_named nodes name with
           | Some node => Node.Annotations node !! MachineAnnotationKey
           | None => acc !! name
           end.
Proof.
  intros Hall. revert acc.
  induction Hall as [|node nodes [v Hv] Hall IH]; intros acc; simpl.
  - by exists acc.
  - rewrite Hv. destruct (IH (<[Node.Name node := v]> acc)) as (m & Hm & Hl).
    exists m. split; [done|]. intros name.
    rewrite Hl, node_named_cons.
    destruct (node_named nodes name); [done|].
    destruct (decide (Node.Name node = name)) as [<-|Hne].
    + by rewrite lookup_insert_eq.
    + by rewrite lookup_insert_ne.
Qed.

Lemma map_index_key (m : gmap string string) (name : string)
    (machine : Machine.t) :
  map_index m name = Sprintf_slash MachineApiNamespace (Machine.Name machine)
  <-> m !! name = Some (machine_key machine).
Proof.
  unfold map_index, machine_key. destruct (m !! name) as [v|]; simpl.
  - split; [by intros ->|by intros [= ->]].
  - split; [|done]. intros Heq. symmetry in Heq.
    by apply Sprintf_slash_nonempty in Heq.
Qed.

Lemma checkMachines_env machines m (w : World E) :
  env (snd (checkMachines machines m w)) = env w.
Proof.
  revert w. induction machines as [|machine machines IH]; intros w; simpl.
  - done.
  - destruct (Machine.NodeRef machine) as [ref|]; [|done].
    case_bool_decide; [done|]. unfold bind. simpl. by rewrite IH.
Qed.

Lemma checkMachines_emits machines m :
  emits (E:=E) is_log (checkMachines machines m).
Proof.
  induction machines as [|machine machines IH]; simpl.
  - apply emits_ret.
  - destruct (Machine.NodeRef machine) as [ref|].
    + case_bool_decide.
      * apply emits_bind; [by apply emits_emit|]. intros _. apply emits_ret.
      * apply emits_bind; [by apply emits_emit|]. by intros _.
    + apply emits_bind; [by apply emits_emit|]. intros _. apply emits_ret.
Qed.

Lemma checkMachines_true machines m (w : World E) :
  fst (checkMachines machines m w) = true
  <-> Forall (linked_in_map m) machines.
Proof.
  revert w. induction machines as [|machine machines IH]; intros w; simpl.
  - split; [constructor|done].
  - rewrite Forall_cons. unfold linked_in_map at 1.
    destruct (Machine.NodeRef machine) as [ref|] eqn:Href.
    + case_bool_decide as Hk.
      * simpl. split; [done|]. intros [(ref' & [= <-] & Hl) _].
        by apply map_index_key in Hl.
      * unfold bind. simpl. rewrite IH.
        apply map_index_key in Hk. split; [|tauto].
        intros Hall. split; [|done]. by exists ref.
    + simpl. split; [done|]. by intros [(ref' & ? & _) _].
Qed.

Lemma linked_in_map_iff nodes (m : gmap string string) machine :
  (forall name,
     m !! name
     = match node_named nodes name with
       | Some node => Node.Annotations node !! MachineAnnotationKey
       | None => (∅ : gmap string string) !! name
       end) ->
  linked_in_map m machine <-> machine_linked nodes machine.
Proof.
  intros Hm. unfold linked_in_map, machine_linked. split.
  - intros (ref & Href & Hl). rewrite Hm in Hl.
    destruct (node_named nodes (ObjectReference.Name ref)) as [node|] eqn:Hn.
    + by exists ref, node.
    + by rewrite lookup_empty in Hl.
  - intros (ref & node & Href & Hn & Hann). exists ref. split; [done|].
    by rewrite Hm, Hn.
Qed.

Lemma calls_of_app (a b : list Event) :
  calls_of (a ++ b) = calls_of a ++ calls_of b.
Proof. apply omap_app. Qed.

Lemma sleeps_of_app (a b : list Event) :
  sleeps_of (a ++ b) = sleeps_of a ++ sleeps_of b.
Proof. apply omap_app. Qed.

Lemma calls_of_call (c : Call) (evs : list Event) :
  calls_of (EvCall c :: evs) = c :: calls_of evs.
Proof. done. Qed.

Lemma sleeps_of_call (c : Call) (evs : list Event) :
  sleeps_of (EvCall c :: evs) = sleeps_of evs.
Proof. done. Qed.

Lemma is_log_calls_of (evs : list Event) :
  Forall is_log evs -> calls_of evs = [] /\ sleeps_of evs = [].
Proof.
  induction 1 as [|ev evs Hev _ [IH1 IH2]]; [done|].
  destruct ev; done.
Qed.

(** One iteration never returns an error. *)
Lemma oneMachinePerNode_condition_no_error (w : World E) :
  snd (fst (oneMachinePerNode_condition w)) = None.
Proof.
  unfold oneMachinePerNode_condition, bind, call.
  destruct (client_List_machines _ (env w)) as [[machines|err] e1]; [|done].
  simpl. destruct (client_List_nodes _ e1) as [[nodes|err] e2]; [|done].
  simpl. case_bool_decide; [done|].
  destruct (collectAnnotations _ _ _) as [[m|] w1]; [|done].
  by destruct (checkMachines _ _ _) as [[] w2].
Qed.

(** A satisfied iteration, step by step: the two reads, then log lines. *)
Lemma oneMachinePerNode_condition_run (w : World E) machines nodes e1 e2 :
  client_List_machines oneMachinePerNode_listOptions (env w)
  = (Ok machines, e1) ->
  client_List_nodes oneMachinePerNode_listOptions e1 = (Ok nodes, e2) ->
  snapshot_consistent machines nodes ->
  exists logs,
    Forall is_log logs
    /\ oneMachinePerNode_condition w
       = ((true, None),
          mkWorld e2
            (trace w
             ++ EvCall (CListMachines oneMachinePerNode_listOptions)
                :: EvCall (CListNodes oneMachinePerNode_listOptions)
                :: logs)).
Proof.
  intros Hm Hn (Hlen & Hann & Hlinked).
  unfold oneMachinePerNode_condition, bind, call.
  rewrite Hm. simpl. rewrite Hn. simpl.
  rewrite bool_decide_eq_false_2 by (by intros ?).
  set (w0 := mkWorld e2 _).
  destruct (collectAnnotations_Some nodes ∅ w0 Hann) as (m & Hc & Hl).
  rewrite Hc.
  pose proof (checkMachines_true machines m w0) as Htrue.
  pose proof (checkMachines_env machines m w0) as Henv.
  destruct (checkMachines_emits machines m w0) as (logs & Ht & Hlogs).
  destruct (checkMachines machines m w0) as [ok w1]. simpl in *.
  assert (ok = true) as ->.
  { apply Htrue. eapply Forall_impl; [exact Hlinked|].
    intros machine. by apply linked_in_map_iff. }
  exists (EvLog SevInfo
            "Expecting the same number of machines and nodes, have %d nodes and %d machines"
            [AInt (Z.of_nat (length nodes)); AInt (Z.of_nat (length machines))]
          :: logs).
  split; [by constructor|].
  unfold ret. f_equal. destruct w1 as [e' t']. simpl in *. subst.
  by rewrite <- !app_assoc.
Qed.

Lemma oneMachinePerNode_condition_true (w : World E) :
  fst (oneMachinePerNode_condition w) = (true, None)
  <-> exists machines nodes e1 e2,
        client_List_machines oneMachinePerNode_listOptions (env w)
        = (Ok machines, e1)
        /\ client_List_nodes oneMachinePerNode_listOptions e1
           = (Ok nodes, e2)
        /\ snapshot_consistent machines nodes.
Proof.
  split.
  - unfold oneMachinePerNode_condition, bind, call.
    destruct (client_List_machines _ (env w)) as [[machines|err] e1] eqn:Hm;
      [|done].
    simpl. destruct (client_List_nodes _ e1) as [[nodes|err] e2] eqn:Hn;
      [|done].
    simpl. case_bool_decide as Hlen; [done|].
    set (w0 := mkWorld e2 _).
    destruct (decide (Forall has_machine_annotation nodes)) as [Hann|Hann].
    + destruct (collectAnnotations_Some nodes ∅ w0 Hann) as (m & Hc & Hl).
      rewrite Hc.
      pose proof (checkMachines_true machines m w0) as Htrue.
      destruct (checkMachines machines m w0) as [[] w1]; [|done].
      intros _. exists machines, nodes, e1, e2.
      repeat split; try done.
      eapply Forall_impl; [by apply Htrue|].
      intros machine. by apply linked_in_map_iff.
    + pose proof (collectAnnotations_None nodes ∅ w0 Hann) as Hc.
      destruct (collectAnnotations nodes ∅ w0) as [[m|] w1]; [done|done].
  - intros (machines & nodes & e1 & e2 & Hm & Hn & Hcons).
    destruct (oneMachinePerNode_condition_run w _ _ _ _ Hm Hn Hcons)
      as (logs & _ & ->).
    done.
Qed.

(** C1: an iteration of the polled predicate answers satisfied or
    not-yet-satisfied, never an error; it answers satisfied exactly when the
    machine list and then the node list were read, the two have the same
    length, every node carries the machine annotation, and every machine has
    a node reference and the annotation of the node it names is
    "namespace/machineName" for the configured namespace and the machine's
    name. *)
Theorem oneMachinePerNode_iteration (w : World E) :
  (fst (oneMachinePerNode_condition w) = (true, None)
   \/ fst (oneMachinePerNode_condition w) = (false, None))
  /\ (fst (oneMachinePerNode_condition w) = (true, None)
      <-> exists machines nodes e1 e2,
            client_List_machines oneMachinePerNode_listOptions (env w)
            = (Ok machines, e1)
            /\ client_List_nodes oneMachinePerNode_listOptions e1
               = (Ok nodes, e2)
            /\ length machines = length nodes
            /\ Forall has_machine_annotation nodes
            /\ Forall (machine_linked nodes) machines).
Proof.
  split.
  - pose proof (oneMachinePerNode_condition_no_error w) as Hne.
    destruct (oneMachinePerNode_condition w) as [[[] oe] w1];
      simpl in *; subst; auto.
  - apply oneMachinePerNode_condition_true.
Qed.

Lemma NoDup_fmap_inj_on {A B} (f : A -> B) (l : list A) (x y : A) :
  NoDup (f <$> l) -> x ∈ l -> y ∈ l -> f x = f y -> x = y.
Proof.
  induction l as [|a l IH]; intros Hnd Hx Hy Heq.
  - by apply elem_of_nil in Hx.
  - simpl in Hnd. apply NoDup_cons in Hnd as [Ha Hnd].
    apply elem_of_cons in Hx as [->|Hx]; apply elem_of_cons in Hy as [->|Hy].
    + done.
    + exfalso. apply Ha. rewrite Heq. by apply list_elem_of_fmap_2.
    + exfalso. apply Ha. rewrite <- Heq. by apply list_elem_of_fmap_2.
    + by apply IH.
Qed.

Lemma linked_ref_name_inj machines nodes (m1 m2 : Machine.t) :
  NoDup (Machine.Name <$> machines) ->
  Forall (machine_linked nodes) machines ->
  m1 ∈ machines -> m2 ∈ machines -> ref_name m1 = ref_name m2 -> m1 = m2.
Proof.
  intros Hnd Hall H1 H2 Heq.
  rewrite Forall_forall in Hall.
  destruct (Hall _ H1) as (r1 & n1 & Hr1 & Hn1 & Ha1).
  destruct (Hall _ H2) as (r2 & n2 & Hr2 & Hn2 & Ha2).
  unfold ref_name in Heq. rewrite Hr1, Hr2 in Heq. rewrite Heq in Hn1.
  rewrite Hn1 in Hn2. injection Hn2 as ->. rewrite Ha1 in Ha2.
  injection Ha2 as Hkey. apply Sprintf_slash_inj in Hkey.
  by apply (NoDup_fmap_inj_on Machine.Name machines).
Qed.

Lemma linked_names_permutation machines nodes :
  NoDup (Machine.Name <$> machines) ->
  length machines = length nodes ->
  Forall (machine_linked nodes) machines ->
  ref_name <$> machines ≡ₚ Node.Name <$> nodes.
Proof.
  intros Hnd Hlen Hall.
  apply submseteq_length_Permutation; [|by rewrite !length_fmap, Hlen].
  apply NoDup_submseteq.
  - apply NoDup_fmap_2_strong; [|by apply NoDup_fmap_1 in Hnd].
    intros x y. by apply (linked_ref_name_inj machines nodes).
  - intros name (machine & -> & Hin)%list_elem_of_fmap.
    rewrite Forall_forall in Hall.
    destruct (Hall _ Hin) as (ref & node & Href & Hnode & _).
    apply node_named_Some in Hnode as [Hnin Hname].
    unfold ref_name. rewrite Href, <- Hname. by apply list_elem_of_fmap_2.
Qed.

(** C2: when an iteration answers satisfied on lists whose machines have
    distinct names, the machines and nodes it read correspond one to one:
    two machines whose references name the same node are the same machine,
    node names are distinct, every node is backed by one machine of the list
    and referenced by no other, and every machine backs one node of the list
    and references no other. *)
Theorem oneMachinePerNode_bijection (w : World E)
    (machines : list Machine.t) (nodes : list Node.t) (e1 e2 : E) :
  client_List_machines oneMachinePerNode_listOptions (env w)
  = (Ok machines, e1) ->
  client_List_nodes oneMachinePerNode_listOptions e1 = (Ok nodes, e2) ->
  fst (oneMachinePerNode_condition w) = (true, None) ->
  NoDup (Machine.Name <$> machines) ->
  one_to_one machines nodes.
Proof.
  intros Hm Hn Htrue Hnd.
  apply oneMachinePerNode_condition_true in Htrue
    as (ms & ns & e1' & e2' & Hm' & Hn' & Hlen & Hann & Hall).
  rewrite Hm in Hm'. injection Hm' as <- <-.
  rewrite Hn in Hn'. injection Hn' as <- <-.
  pose proof (linked_names_permutation _ _ Hnd Hlen Hall) as Hperm.
  assert (NoDup (Node.Name <$> nodes)) as Hndn.
  { rewrite <- Hperm.
    apply NoDup_fmap_2_strong; [|by apply NoDup_fmap_1 in Hnd].
    intros x y. by apply (linked_ref_name_inj machines nodes). }
  pose proof Hall as Hall'. rewrite Forall_forall in Hall'.
  unfold one_to_one. split; [|split; [done|split]].
  - intros m1 m2 r1 r2 H1 H2 Hr1 Hr2 Heq.
    apply (linked_ref_name_inj machines nodes); try done.
    unfold ref_name. by rewrite Hr1, Hr2.
  - intros node Hin.
    assert (Node.Name node ∈ ref_name <$> machines) as Hr.
    { rewrite Hperm. by apply list_elem_of_fmap_2. }
    apply list_elem_of_fmap in Hr as (machine & Heq & Hmin).
    destruct (Hall' _ Hmin) as (ref & node' & Href & Hnode' & Hann').
    unfold ref_name in Heq. rewrite Href in Heq.
    apply node_named_Some in Hnode' as [Hin' Hname'].
    assert (node' = node) as ->.
    { apply (NoDup_fmap_inj_on Node.Name nodes); try done. congruence. }
    exists machine. split; [done|]. split.
    + split; [|done]. by exists ref.
    + intros machine' Hmin' (ref' & Href' & Hname).
      apply (linked_ref_name_inj machines nodes); try done.
      unfold ref_name. rewrite Href, Href'. congruence.
  - intros machine Hmin.
    destruct (Hall' _ Hmin) as (ref & node & Href & Hnode & Hann').
    apply node_named_Some in Hnode as [Hin Hname].
    exists node. split; [done|]. split.
    + split; [|done]. by exists ref.
    + intros node' Hin' (ref' & Href' & Hname').
      rewrite Href in Href'. injection Href' as <-.
      apply (NoDup_fmap_inj_on Node.Name nodes); try done. congruence.
Qed.

Lemma converged_consistent machines nodes :
  converged machines nodes -> snapshot_consistent machines nodes.
Proof.
  intros (Hlen & Hnd & Hnodes & Hmachines). split; [done|]. split.
  - apply Forall_forall. intros node Hin.
    destruct (Hnodes _ Hin) as (machine & _ & _ & Hann).
    unfold has_machine_annotation. by rewrite Hann.
  - apply Forall_forall. intros machine Hin.
    destruct (Hmachines _ Hin) as (node & Hnin & (ref & Href & Hname) & Hann).
    exists ref, node. split; [done|]. split; [|done].
    rewrite Hname. by apply node_named_unique.
Qed.

Lemma isOneMachinePerNode_satisfied_at_once (w w1 : World E) :
  oneMachinePerNode_condition w = ((true, None), w1) ->
  isOneMachinePerNode w = (true, w1).
Proof.
  intros Hc. unfold isOneMachinePerNode. unfold bind at 1.
  by rewrite PollImmediate_unfold, Hc.
Qed.

(** C8: on an environment in which reading the machines and reading the
    nodes return a converged snapshot and leave the environment as it is,
    [isOneMachinePerNode] returns true, and true again when run a second
    time; each run makes the two list calls and nothing else but log lines:
    no sleep, no call that changes an object, and the environment after each
    run is the one before it. *)
Theorem isOneMachinePerNode_idempotent (w : World E)
    (machines : list Machine.t) (nodes : list Node.t) :
  client_List_machines oneMachinePerNode_listOptions (env w)
  = (Ok machines, env w) ->
  client_List_nodes oneMachinePerNode_listOptions (env w)
  = (Ok nodes, env w) ->
  converged machines nodes ->
  let w1 := snd (isOneMachinePerNode w) in
  let w2 := snd (isOneMachinePerNode w1) in
  let reads :=
    [CListMachines oneMachinePerNode_listOptions;
     CListNodes oneMachinePerNode_listOptions] in
  fst (isOneMachinePerNode w) = true
  /\ fst (isOneMachinePerNode w1) = true
  /\ env w1 = env w /\ env w2 = env w
  /\ calls_of (drop (length (trace w)) (trace w1)) = reads
  /\ calls_of (drop (length (trace w1)) (trace w2)) = reads
  /\ sleeps_of (drop (length (trace w)) (trace w2)) = []
  /\ Forall (fun c => is_read_call c = true)
       (calls_of (drop (length (trace w)) (trace w2))).
Proof.
  intros Hm Hn Hconv. apply converged_consistent in Hconv.
  destruct (oneMachinePerNode_condition_run w _ _ _ _ Hm Hn Hconv)
    as (logs1 & Hlogs1 & Hrun1).
  apply isOneMachinePerNode_satisfied_at_once in Hrun1.
  rewrite Hrun1. cbn zeta. simpl fst. simpl snd.
  set (w1 := mkWorld (env w) _) in *.
  destruct (oneMachinePerNode_condition_run w1 _ _ _ _ Hm Hn Hconv)
    as (logs2 & Hlogs2 & Hrun2).
  apply isOneMachinePerNode_satisfied_at_once in Hrun2.
  rewrite Hrun2. simpl fst. simpl snd.
  apply is_log_calls_of in Hlogs1 as [Hc1 Hs1].
  apply is_log_calls_of in Hlogs2 as [Hc2 Hs2].
  unfold w1. cbn [env trace].
  rewrite !drop_app_length.
  rewrite <- app_assoc, drop_app_length.
  rewrite !calls_of_app, !sleeps_of_app, !calls_of_call, !sleeps_of_call.
  rewrite Hc1, Hc2, Hs1, Hs2.
  repeat split; try done. repeat constructor.
Qed.

(** C9: [isOneMachinePerNode] returns a boolean and nothing else.  It returns
    true exactly when, within the retries the timeout allows, some attempt
    read both lists and found them consistent; whatever error the poll ends
    with, the timeout included, the result is false. *)
Theorem isOneMachinePerNode_collapses_errors (w : World E) :
  (fst (isOneMachinePerNode w) = true
   <-> exists k,
         (k <= oneMachinePerNode_retries)%nat
         /\ exists machines nodes e1 e2,
              client_List_machines oneMachinePerNode_listOptions
                (env (oneMachinePerNode_attempt k w))
              = (Ok machines, e1)
              /\ client_List_nodes oneMachinePerNode_listOptions e1
                 = (Ok nodes, e2)
              /\ snapshot_consistent machines nodes)
  /\ (forall err,
        fst (PollImmediate (5 * Second) WaitShort
               oneMachinePerNode_condition w) = Some err ->
        fst (isOneMachinePerNode w) = false)
  /\ (fst (PollImmediate (5 * Second) WaitShort
             oneMachinePerNode_condition w) = None
      \/ fst (PollImmediate (5 * Second) WaitShort
                oneMachinePerNode_condition w) = Some ErrWaitTimeout).
Proof.
  set (poll := PollImmediate (5 * Second) WaitShort
                 oneMachinePerNode_condition).
  assert (fst (isOneMachinePerNode w) = true <-> fst (poll w) = None)
    as Hres.
  { unfold isOneMachinePerNode, bind. fold poll.
    destruct (poll w) as [[err|] w1]; simpl; split; done. }
  assert (forall k,
            decisive
              (fst (oneMachinePerNode_condition
                      (oneMachinePerNode_attempt k w)))
            <-> fst (oneMachinePerNode_condition
                       (oneMachinePerNode_attempt k w)) = (true, None))
    as Hdec.
  { intros k.
    pose proof (oneMachinePerNode_condition_no_error
                  (oneMachinePerNode_attempt k w)) as Hne.
    destruct (oneMachinePerNode_condition _) as [[[] oe] wk];
      simpl in *; subst; unfold decisive; split; done. }
  destruct (first_decisive (5 * Second) oneMachinePerNode_condition w
              oneMachinePerNode_retries)
    as [(k & Hk & Hpre & Hk')|Hall].
  - pose proof (PollImmediate_decided _ WaitShort _ k w Hk Hpre Hk') as Hp.
    fold poll in Hp. apply Hdec in Hk'. unfold oneMachinePerNode_attempt in Hk'.
    rewrite Hk' in Hp. simpl in Hp.
    split; [|split].
    + rewrite Hres, Hp. simpl. split; [|done]. intros _.
      exists k. split; [done|].
      by apply oneMachinePerNode_condition_true.
    + intros err. rewrite Hp. done.
    + left. by rewrite Hp.
  - pose proof (PollImmediate_timeout _ WaitShort _ w Hall) as Hp.
    fold poll in Hp.
    split; [|split].
    + rewrite Hres, Hp. simpl. split; [done|].
      intros (k & Hk & Hex).
      apply oneMachinePerNode_condition_true in Hex.
      unfold oneMachinePerNode_attempt in Hex.
      rewrite (Hall k Hk) in Hex. discriminate.
    + intros err _. unfold isOneMachinePerNode, bind. fold poll.
      by rewrite Hp.
    + right. by rewrite Hp.
Qed.
End OneMachinePerNode.

(** *** Waiting for the cluster size *)

Ltac emits_step :=
  first
    [ assumption
    | apply emits_ret
    | apply emits_emit; done
    | apply emits_call; done
    | apply emits_sleep; done
    | apply emits_PollImmediate; [done|]
    | apply emits_bind; [|intros ?]
    | match goal with
      | |- emits _ (match ?x with _ => _ end) => destruct x
      | |- emits _ (if ?x then _ else _) => destruct x
      | |- emits _ (glog_Infof _ _) => apply emits_emit; done
      | |- emits _ (glog_Errorf _ _) => apply emits_emit; done
      end ].

Ltac emits_auto := repeat emits_step.

#[local] Arguments calls_of : simpl never.
#[local] Arguments sleeps_of : simpl never.

Section ClusterSize.
Context {E : Type} `{ClusterAccess E} `{Settings}.

Lemma emits_logs_any (P : Event -> Prop) {A} (c : M E A) :
  (forall sev format args, P (EvLog sev format args)) ->
  emits is_log c -> emits P c.
Proof.
  intros HP Hc w. destruct (Hc w) as (evs & Ht & Hlogs).
  exists evs. split; [done|]. eapply Forall_impl; [exact Hlogs|].
  intros [] Hl; done || apply HP.
Qed.

Lemma logMachineSets_emits machineSets :
  emits (E:=E) is_log (logMachineSets machineSets).
Proof. induction machineSets; simpl; emits_auto. Qed.

Lemma logMachineSets_env machineSets (w : World E) :
  env (snd (logMachineSets machineSets w)) = env w.
Proof.
  revert w. induction machineSets as [|ms l IH]; intros w; [done|].
  simpl. unfold bind. simpl. by rewrite IH.
Qed.

Lemma logNodes_emits nodes : emits (E:=E) is_log (logNodes nodes).
Proof. induction nodes; simpl; emits_auto. Qed.

Lemma logNodes_env nodes (w : World E) :
  env (snd (logNodes nodes w)) = env w.
Proof.
  revert w. induction nodes as [|n l IH]; intros w; [done|].
  simpl. unfold bind. simpl. by rewrite IH.
Qed.

Lemma checkSchedulable_emits nodes :
  emits (E:=E) is_log (checkSchedulable nodes).
Proof. induction nodes; simpl; emits_auto. Qed.

Lemma clusterSize_condition_emits (P : Event -> Prop) target :
  (forall sev format args, P (EvLog sev format args)) ->
  P (EvCall CGetMachineSets) -> P (EvCall CGetNodes) ->
  emits P (clusterSize_condition target).
Proof.
  intros Hlog Hms Hn.
  unfold clusterSize_condition, machineSetsSnapShotLogs, nodesSnapShotLogs,
    getClusterSize.
  emits_auto; try apply Hlog.
  - by apply emits_logs_any, logMachineSets_emits.
  - by apply emits_logs_any, logNodes_emits.
Qed.

Lemma clusterSize_poll_emits target :
  emits size_stage_event (clusterSize_poll target).
Proof.
  unfold clusterSize_poll. apply emits_PollImmediate; [done|].
  by apply clusterSize_condition_emits.
Qed.

Lemma waitUntilAllNodesAreSchedulable_emits :
  emits schedulable_stage_event waitUntilAllNodesAreSchedulable.
Proof.
  unfold waitUntilAllNodesAreSchedulable, allNodesSchedulable_condition.
  emits_auto.
  by apply emits_logs_any, checkSchedulable_emits.
Qed.

Lemma isOneMachinePerNode_emits :
  emits oneMachinePerNode_stage_event isOneMachinePerNode.
Proof.
  unfold isOneMachinePerNode, oneMachinePerNode_condition.
  emits_auto.
  - by apply emits_logs_any, collectAnnotations_emits.
  - by apply emits_logs_any, checkMachines_emits.
Qed.

Lemma machineSetsSnapShotLogs_run (w : World E) :
  match e2e_GetMachineSets (env w) with
  | (Err err, e1) =>
      machineSetsSnapShotLogs w
      = (Some (Errorf "error getting machines: %v" [AError err]),
         mkWorld e1 (trace w ++ [EvCall CGetMachineSets]))
  | (Ok _, e1) =>
      fst (machineSetsSnapShotLogs w) = None
      /\ env (snd (machineSetsSnapShotLogs w)) = e1
  end.
Proof.
  unfold machineSetsSnapShotLogs, bind, call.
  destruct (e2e_GetMachineSets (env w)) as [[machineSets|err] e1]; [|done].
  pose proof (logMachineSets_env machineSets
                (mkWorld e1 (trace w ++ [EvCall CGetMachineSets]))) as He.
  by destruct (logMachineSets _ _) as [[] w1].
Qed.

Lemma nodesSnapShotLogs_run (w : World E) :
  match e2e_GetNodes (env w) with
  | (Err err, e1) =>
      nodesSnapShotLogs w
      = (Some (Errorf "error getting nodes: %v" [AError err]),
         mkWorld e1 (trace w ++ [EvCall CGetNodes]))
  | (Ok _, e1) =>
      fst (nodesSnapShotLogs w) = None
      /\ env (snd (nodesSnapShotLogs w)) = e1
  end.
Proof.
  unfold nodesSnapShotLogs, bind, call.
  destruct (e2e_GetNodes (env w)) as [[nodes|err] e1]; [|done].
  pose proof (logNodes_env nodes
                (mkWorld e1 (trace w ++ [EvCall CGetNodes]))) as He.
  by destruct (logNodes _ _) as [[] w1].
Qed.

Lemma getClusterSize_run (w : World E) :
  fst (getClusterSize w)
  = match e2e_GetNodes (env w) with
    | (Err err, _) => Err (Errorf "error getting nodes: %v" [AError err])
    | (Ok nodes, _) => Ok (Z.of_nat (length nodes))
    end.
Proof.
  unfold getClusterSize, bind, call.
  by destruct (e2e_GetNodes (env w)) as [[nodes|err] e1].
Qed.

(** What an attempt answers, read off the three reads. *)
Lemma clusterSize_condition_outcome targetSize (w : World E) :
  fst (clusterSize_condition targetSize w)
  = match e2e_GetMachineSets (env w) with
    | (Err err, _) =>
        (false, Some (Errorf "error getting machines: %v" [AError err]))
    | (Ok _, e1) =>
        match e2e_GetNodes e1 with
        | (Err err, _) =>
            (false, Some (Errorf "error getting nodes: %v" [AError err]))
        | (Ok _, e2) =>
            match e2e_GetNodes e2 with
            | (Err err, _) =>
                (false, Some (Errorf "error getting nodes: %v" [AError err]))
            | (Ok counted, _) =>
                (bool_decide (Z.of_nat (length counted) = targetSize), None)
            end
        end
    end.
Proof.
  unfold clusterSize_condition. unfold bind at 1. simpl.
  set (w0 := mkWorld (env w) _).
  pose proof (machineSetsSnapShotLogs_run w0) as Hms. unfold bind at 1.
  change (env w0) with (env w) in Hms.
  destruct (e2e_GetMachineSets (env w)) as [[machineSets|err] e1].
  - destruct Hms as [Hr He].
    destruct (machineSetsSnapShotLogs w0) as [r w1]. simpl in Hr, He.
    subst r e1.
    pose proof (nodesSnapShotLogs_run w1) as Hn. unfold bind at 1.
    destruct (e2e_GetNodes (env w1)) as [[nodes|err] e2].
    + destruct Hn as [Hr He].
      destruct (nodesSnapShotLogs w1) as [r w2]. simpl in Hr, He.
      subst r e2.
      pose proof (getClusterSize_run w2) as Hc. unfold bind.
      destruct (getClusterSize w2) as [r w3]. simpl in Hc. subst r.
      by destruct (e2e_GetNodes (env w2)) as [[counted|err] e3].
    + by rewrite Hn.
  - by rewrite Hms.
Qed.

Lemma clusterSize_condition_read_failure targetSize (w : World E) err :
  read_failure (env w) err ->
  fst (clusterSize_condition targetSize w) = (false, Some err).
Proof.
  intros Hf. rewrite clusterSize_condition_outcome.
  destruct Hf as [err e1 H1|ms e1 err e2 H1 H2|ms e1 ns e2 err e3 H1 H2 H3].
  - by rewrite H1.
  - by rewrite H1, H2.
  - by rewrite H1, H2, H3.
Qed.

Lemma clusterSize_condition_size_read targetSize (w : World E) n :
  size_read (env w) n ->
  fst (clusterSize_condition targetSize w)
  = (bool_decide (n = targetSize), None).
Proof.
  intros (ms & e1 & ns & e2 & counted & e3 & H1 & H2 & H3 & ->).
  rewrite clusterSize_condition_outcome. by rewrite H1, H2, H3.
Qed.

(** An attempt returns an error exactly when one of its reads failed. *)
Lemma clusterSize_condition_error_iff targetSize (w : World E) err :
  snd (fst (clusterSize_condition targetSize w)) = Some err
  <-> read_failure (env w) err.
Proof.
  split.
  - rewrite clusterSize_condition_outcome.
    destruct (e2e_GetMachineSets (env w)) as [[ms|err1] e1] eqn:H1.
    + destruct (e2e_GetNodes e1) as [[ns|err2] e2] eqn:H2.
      * destruct (e2e_GetNodes e2) as [[counted|err3] e3] eqn:H3; [done|].
        simpl. intros [= <-]. by eapply count_read_fails.
      * simpl. intros [= <-]. by eapply nodes_read_fails.
    + simpl. intros [= <-]. by eapply machineSets_read_fails.
  - intros Hf. by rewrite (clusterSize_condition_read_failure _ _ _ Hf).
Qed.

Lemma no_sleep_sleeps_of (evs : list Event) :
  Forall no_sleep evs -> sleeps_of evs = [].
Proof. induction 1 as [|[] evs Hev _ IH]; done. Qed.

(** Up to its [k]-th retry a poll has slept [k] times, one interval each. *)
Lemma attempt_sleeps interval (condition : ConditionFunc E) k (w : World E) :
  emits no_sleep condition ->
  exists evs,
    trace (snd (condition (attempt_world interval condition k w)))
    = trace w ++ evs
    /\ sleeps_of evs = replicate k interval.
Proof.
  intros Hc. induction k as [|k (evs & Ht & Hs)].
  - destruct (Hc w) as (evs & Ht & Hns). exists evs. split; [done|].
    by apply no_sleep_sleeps_of.
  - cbn [attempt_world].
    set (u := snd (sleep interval _)).
    destruct (Hc u) as (evs' & Ht' & Hns).
    exists (evs ++ [EvSleep interval] ++ evs'). split.
    + rewrite Ht'. unfold u. simpl. rewrite Ht. by rewrite <- !app_assoc.
    + rewrite !sleeps_of_app, Hs, (no_sleep_sleeps_of _ Hns), app_nil_r.
      by rewrite replicate_S_end.
Qed.

Lemma clusterSize_condition_not_yet targetSize (u : World E) :
  (exists n, size_read (env u) n /\ n <> targetSize) ->
  fst (clusterSize_condition targetSize u) = (false, None).
Proof.
  intros (n & Hn & Hne).
  rewrite (clusterSize_condition_size_read _ _ _ Hn).
  by rewrite bool_decide_eq_false_2.
Qed.

Lemma waitForClusterSizeToBeHealthy_poll_error targetSize (w w1 : World E)
    err :
  clusterSize_poll targetSize w = (Some err, w1) ->
  waitForClusterSizeToBeHealthy targetSize w
  = (Some (Errorf "Did not reach expected number of nodes: %v" [AError err]),
     w1).
Proof.
  intros Hp. unfold waitForClusterSizeToBeHealthy. unfold bind at 1.
  by rewrite Hp.
Qed.

(** C4, as the code has it: in the size poll a failed read is fatal.  When,
    after [k] attempts that read a size other than the target, one of the
    three reads of the next attempt fails, the call returns that attempt's
    error wrapped in "Did not reach expected number of nodes", in the world
    that attempt left, having slept [k] intervals and no more.  When every
    attempt the long timeout allows reads a size other than the target, the
    call returns the timeout error, wrapped the same way, after one sleep of
    five seconds per retry. *)
Theorem clusterSize_poll_read_failure_is_fatal (targetSize : Z)
    (w : World E) :
  (forall k err,
     (k <= clusterSize_retries)%nat ->
     (forall j, (j < k)%nat ->
        exists n,
          size_read (env (clusterSize_attempt targetSize j w)) n
          /\ n <> targetSize) ->
     read_failure (env (clusterSize_attempt targetSize k w)) err ->
     waitForClusterSizeToBeHealthy targetSize w
     = (Some (Errorf "Did not reach expected number of nodes: %v"
                [AError err]),
        snd (clusterSize_condition targetSize
               (clusterSize_attempt targetSize k w)))
     /\ sleeps_of
          (drop (length (trace w))
             (trace (snd (waitForClusterSizeToBeHealthy targetSize w))))
        = replicate k (5 * Second))
  /\ ((forall j, (j <= clusterSize_retries)%nat ->
         exists n,
           size_read (env (clusterSize_attempt targetSize j w)) n
           /\ n <> targetSize) ->
      waitForClusterSizeToBeHealthy targetSize w
      = (Some (Errorf "Did not reach expected number of nodes: %v"
                 [AError ErrWaitTimeout]),
         snd (clusterSize_condition targetSize
                (clusterSize_attempt targetSize clusterSize_retries w)))
      /\ sleeps_of
           (drop (length (trace w))
              (trace (snd (waitForClusterSizeToBeHealthy targetSize w))))
         = replicate clusterSize_retries (5 * Second)).
Proof.
  assert (emits no_sleep (clusterSize_condition targetSize)) as Hns
    by (by apply clusterSize_condition_emits).
  split.
  - intros k err Hk Hpre Hfail.
    assert (clusterSize_poll targetSize w
            = (Some err,
               snd (clusterSize_condition targetSize
                      (clusterSize_attempt targetSize k w)))) as Hp.
    { unfold clusterSize_poll.
      rewrite (PollImmediate_decided _ _ _ k); fold (clusterSize_attempt targetSize k w).
      - by rewrite (clusterSize_condition_read_failure _ _ _ Hfail).
      - done.
      - intros j Hj. by apply clusterSize_condition_not_yet, Hpre.
      - by rewrite (clusterSize_condition_read_failure _ _ _ Hfail). }
    rewrite (waitForClusterSizeToBeHealthy_poll_error _ _ _ _ Hp).
    split; [done|]. simpl snd.
    destruct (attempt_sleeps (5 * Second) _ k w Hns) as (evs & Ht & Hs).
    unfold clusterSize_attempt. by rewrite Ht, drop_app_length.
  - intros Hall.
    assert (clusterSize_poll targetSize w
            = (Some ErrWaitTimeout,
               snd (clusterSize_condition targetSize
                      (clusterSize_attempt targetSize clusterSize_retries w))))
      as Hp.
    { unfold clusterSize_poll. apply PollImmediate_timeout.
      intros j Hj. by apply clusterSize_condition_not_yet, Hall. }
    rewrite (waitForClusterSizeToBeHealthy_poll_error _ _ _ _ Hp).
    split; [done|]. simpl snd.
    destruct (attempt_sleeps (5 * Second) _ clusterSize_retries w Hns)
      as (evs & Ht & Hs).
    unfold clusterSize_attempt. by rewrite Ht, drop_app_length.
Qed.

Lemma machineSetsSnapShotLogs_trace (w : World E) :
  exists logs,
    Forall is_log logs
    /\ trace (snd (machineSetsSnapShotLogs w))
       = trace w ++ EvCall CGetMachineSets :: logs.
Proof.
  unfold machineSetsSnapShotLogs, bind, call.
  destruct (e2e_GetMachineSets (env w)) as [[machineSets|err] e1].
  - destruct (logMachineSets_emits machineSets
                (mkWorld e1 (trace w ++ [EvCall CGetMachineSets])))
      as (logs & Ht & Hl).
    destruct (logMachineSets _ _) as [[] w1]. simpl in *.
    exists logs. split; [done|]. by rewrite Ht, <- app_assoc.
  - exists []. split; [done|]. done.
Qed.

Lemma nodesSnapShotLogs_trace (w : World E) :
  exists logs,
    Forall is_log logs
    /\ trace (snd (nodesSnapShotLogs w)) = trace w ++ EvCall CGetNodes :: logs.
Proof.
  unfold nodesSnapShotLogs, bind, call.
  destruct (e2e_GetNodes (env w)) as [[nodes|err] e1].
  - destruct (logNodes_emits nodes
                (mkWorld e1 (trace w ++ [EvCall CGetNodes])))
      as (logs & Ht & Hl).
    destruct (logNodes _ _) as [[] w1]. simpl in *.
    exists logs. split; [done|]. by rewrite Ht, <- app_assoc.
  - exists []. split; [done|]. done.
Qed.

Lemma getClusterSize_trace (w : World E) :
  exists logs,
    Forall is_log logs
    /\ trace (snd (getClusterSize w)) = trace w ++ EvCall CGetNodes :: logs.
Proof.
  unfold getClusterSize, bind, call.
  destruct (e2e_GetNodes (env w)) as [[nodes|err] e1]; simpl.
  - eexists [_]. split; [|by rewrite <- app_assoc]. by repeat constructor.
  - exists []. split; [done|]. done.
Qed.

(** In every attempt of the size poll the snapshots come before the count:
    after its first log line the attempt calls for the machine-sets, then
    the nodes, then the nodes again, stopping at the first call that
    fails. *)
Lemma clusterSize_condition_calls targetSize (u : World E) :
  exists evs n,
    trace (snd (clusterSize_condition targetSize u))
    = trace u
      ++ EvLog SevInfo "Cluster size expected to be %d nodes" [AInt targetSize]
         :: evs
    /\ calls_of evs = take n [CGetMachineSets; CGetNodes; CGetNodes]
    /\ (snd (fst (clusterSize_condition targetSize u)) = None -> n = 3%nat).
Proof.
  destruct (clusterSize_condition targetSize u) as [r w'] eqn:Hrun.
  revert Hrun. unfold clusterSize_condition, bind. simpl.
  set (w0 := mkWorld (env u) _).
  destruct (machineSetsSnapShotLogs_trace w0) as (l1 & Hl1 & Ht1).
  apply is_log_calls_of in Hl1 as [Hc1 _].
  destruct (machineSetsSnapShotLogs w0) as [[err|] w1]; simpl in Ht1.
  { intros [= <- <-].
    exists (EvCall CGetMachineSets :: l1), 1%nat.
    rewrite Ht1. unfold w0. cbn [trace]. rewrite <- app_assoc.
    split; [done|]. rewrite calls_of_call, Hc1. done. }
  destruct (nodesSnapShotLogs_trace w1) as (l2 & Hl2 & Ht2).
  apply is_log_calls_of in Hl2 as [Hc2 _].
  destruct (nodesSnapShotLogs w1) as [[err|] w2]; simpl in Ht2.
  { intros [= <- <-].
    exists (EvCall CGetMachineSets :: l1 ++ EvCall CGetNodes :: l2), 2%nat.
    rewrite Ht2, Ht1. unfold w0. cbn [trace]. rewrite <- !app_assoc.
    split; [done|].
    rewrite calls_of_call, calls_of_app, calls_of_call, Hc1, Hc2. done. }
  destruct (getClusterSize_trace w2) as (l3 & Hl3 & Ht3).
  apply is_log_calls_of in Hl3 as [Hc3 _].
  exists (EvCall CGetMachineSets :: l1 ++ EvCall CGetNodes :: l2
          ++ EvCall CGetNodes :: l3), 3%nat.
  destruct (getClusterSize w2) as [[n|err] w3]; simpl in Ht3;
    injection Hrun as <- <-;
    rewrite Ht3, Ht2, Ht1; unfold w0; cbn [trace]; rewrite <- !app_assoc;
    (split; [done|]);
    rewrite calls_of_call, calls_of_app, calls_of_call, calls_of_app,
      calls_of_call, Hc1, Hc2, Hc3; done.
Qed.

(** C3, as the code has it: the call runs the size poll, then the wait for
    ready nodes, then the wait for schedulable nodes, then the
    one-machine-per-node check, each from the world the stage before it
    left, and stops at the first stage that fails, in the world that stage
    left.  A failed size poll returns its error wrapped in "Did not reach
    expected number of nodes"; a failed wait for readiness or
    schedulability returns that wait's own error as it is; a failed
    one-machine-per-node check returns "One machine per node condition
    violated".  The snapshot logs are not a stage before the poll: every
    attempt of the poll makes them before it reads the count.  Each stage
    leaves only its own kind of event in the trace. *)
Theorem waitForClusterSizeToBeHealthy_stages (targetSize : Z)
    (w : World E) :
  let rb := clusterSize_poll targetSize w in
  let rc :=
    call CWaitUntilAllNodesAreReady e2e_WaitUntilAllNodesAreReady
      (snd (glog_Infof "waiting for all nodes to be ready" [] (snd rb))) in
  let rd :=
    waitUntilAllNodesAreSchedulable
      (snd (glog_Infof "waiting for all nodes to be schedulable" []
              (snd rc))) in
  let re :=
    isOneMachinePerNode
      (snd (glog_Infof "waiting for each node to be backed by a machine" []
              (snd rd))) in
  waitForClusterSizeToBeHealthy targetSize w
  = match fst rb with
    | Some err =>
        (Some (Errorf "Did not reach expected number of nodes: %v"
                 [AError err]),
         snd rb)
    | None =>
        match fst rc with
        | Some err => (Some err, snd rc)
        | None =>
            match fst rd with
            | Some err => (Some err, snd rd)
            | None =>
                (if fst re then None
                 else Some (Errorf "One machine per node condition violated"
                              []),
                 snd re)
            end
        end
    end
  /\ emits size_stage_event (clusterSize_poll targetSize)
  /\ emits schedulable_stage_event waitUntilAllNodesAreSchedulable
  /\ emits oneMachinePerNode_stage_event isOneMachinePerNode
  /\ (forall u, exists evs n,
        trace (snd (clusterSize_condition targetSize u))
        = trace u
          ++ EvLog SevInfo "Cluster size expected to be %d nodes"
               [AInt targetSize]
             :: evs
        /\ calls_of evs = take n [CGetMachineSets; CGetNodes; CGetNodes]
        /\ (snd (fst (clusterSize_condition targetSize u)) = None ->
            n = 3%nat)).
Proof.
  cbn zeta. split; [|split; [|split; [|split]]].
  - unfold waitForClusterSizeToBeHealthy. unfold bind at 1.
    destruct (clusterSize_poll targetSize w) as [[err|] wb]; [done|].
    simpl fst. simpl snd. unfold bind at 1. simpl. unfold bind at 1.
    destruct (call _ _ _) as [[err|] wc]; [done|].
    simpl fst. simpl snd. unfold bind at 1. simpl. unfold bind at 1.
    destruct (waitUntilAllNodesAreSchedulable _) as [[err|] wd]; [done|].
    simpl fst. simpl snd. unfold bind at 1. simpl. unfold bind at 1.
    by destruct (isOneMachinePerNode _) as [[] we].
  - apply clusterSize_poll_emits.
  - apply waitUntilAllNodesAreSchedulable_emits.
  - apply isOneMachinePerNode_emits.
  - apply clusterSize_condition_calls.
Qed.
End ClusterSize.

(** *** Polls whose predicate never returns an error *)

Section QuietPolls.
Context {E : Type} `{ClusterAccess E}.

(** Such a poll ends in one of two ways: satisfied at its first satisfied
    attempt [k], having slept [k] intervals, or with the timeout error after
    every attempt the budget allows, having slept one interval per retry. *)
Lemma PollImmediate_quiet interval timeout (condition : ConditionFunc E) w :
  (forall u, snd (fst (condition u)) = None) ->
  emits no_sleep condition ->
  let poll := PollImmediate interval timeout condition in
  let slept := sleeps_of (drop (length (trace w)) (trace (snd (poll w)))) in
  (exists k,
     (k <= poll_retries interval timeout)%nat
     /\ (forall j, (j < k)%nat ->
           fst (condition (attempt_world interval condition j w))
           = (false, None))
     /\ fst (condition (attempt_world interval condition k w)) = (true, None)
     /\ poll w
        = (None, snd (condition (attempt_world interval condition k w)))
     /\ slept = replicate k interval)
  \/ ((forall j, (j <= poll_retries interval timeout)%nat ->
         fst (condition (attempt_world interval condition j w))
         = (false, None))
      /\ poll w
         = (Some ErrWaitTimeout,
            snd (condition
                   (attempt_world interval condition
                      (poll_retries interval timeout) w)))
      /\ slept = replicate (poll_retries interval timeout) interval).
Proof.
  intros Hquiet Hns. cbn zeta.
  destruct (first_decisive interval condition w
              (poll_retries interval timeout))
    as [(k & Hk & Hpre & Hdec)|Hall].
  - left. exists k.
    assert (fst (condition (attempt_world interval condition k w))
            = (true, None)) as Htrue.
    { pose proof (Hquiet (attempt_world interval condition k w)) as Hq.
      destruct (condition _) as [[[] oe] wk]; simpl in *; subst; [done|].
      by destruct Hdec. }
    pose proof (PollImmediate_decided _ timeout _ k w Hk Hpre Hdec) as Hp.
    rewrite Htrue in Hp. simpl in Hp.
    repeat split; try done. rewrite Hp. simpl snd.
    destruct (attempt_sleeps interval condition k w Hns) as (evs & Ht & Hs).
    by rewrite Ht, drop_app_length.
  - right. pose proof (PollImmediate_timeout _ timeout _ w Hall) as Hp.
    repeat split; try done. rewrite Hp. simpl snd.
    destruct (attempt_sleeps interval condition
                (poll_retries interval timeout) w Hns) as (evs & Ht & Hs).
    by rewrite Ht, drop_app_length.
Qed.

Context {V : Type}.

Lemma forget_captured_blind (condition : CapturingCondition (E:=E) (V:=V)) v v' u :
  blind condition ->
  forget_captured condition v u = forget_captured condition v' u.
Proof.
  intros Hb. unfold forget_captured. destruct (Hb v v' u) as [H1 H2].
  destruct (condition v u) as [[r x] w1], (condition v' u) as [[r' x'] w1'].
  simpl in *. by subst.
Qed.

Lemma poll_loop_capturing_S interval r
    (condition : CapturingCondition (E:=E) (V:=V))
    (v : V) u :
  poll_loop_capturing interval (S r) condition v u
  = (let (a, w1) := condition v (snd (sleep interval u)) in
     match a with
     | ((_, Some err), v') => (Some err, v', w1)
     | ((true, None), v') => (None, v', w1)
     | ((false, None), v') => poll_loop_capturing interval r condition v' w1
     end).
Proof.
  simpl. unfold bind. simpl.
  by destruct (condition v _) as [[[[] [err|]] v'] w1].
Qed.

Lemma PollImmediate_capturing_unfold interval timeout
    (condition : CapturingCondition (E:=E) (V:=V)) (v : V) w :
  PollImmediate_capturing interval timeout condition v w
  = (let (a, w1) := condition v w in
     match a with
     | ((_, Some err), v') => (Some err, v', w1)
     | ((true, None), v') => (None, v', w1)
     | ((false, None), v') =>
         poll_loop_capturing interval (poll_retries interval timeout)
           condition v' w1
     end).
Proof.
  unfold PollImmediate_capturing, bind.
  by destruct (condition v w) as [[[[] [err|]] v'] w1].
Qed.

(** For a blind closure the capturing poll gives the verdict and the world
    of the plain poll of the closure. *)
Lemma poll_loop_capturing_forget interval retries
    (condition : CapturingCondition (E:=E) (V:=V)) v0 v u :
  blind condition ->
  fst (fst (poll_loop_capturing interval retries condition v u))
  = fst (poll_loop interval retries (forget_captured condition v0) u)
  /\ snd (poll_loop_capturing interval retries condition v u)
     = snd (poll_loop interval retries (forget_captured condition v0) u).
Proof.
  intros Hb. revert v u. induction retries as [|r IH]; intros v u; [done|].
  rewrite poll_loop_S, poll_loop_capturing_S.
  rewrite (forget_captured_blind condition v0 v _ Hb).
  unfold forget_captured.
  destruct (condition v _) as [[[d oe] v'] w1]. simpl.
  destruct d, oe; done || apply IH.
Qed.

Lemma PollImmediate_capturing_forget interval timeout
    (condition : CapturingCondition (E:=E) (V:=V)) v w :
  blind condition ->
  fst (fst (PollImmediate_capturing interval timeout condition v w))
  = fst (PollImmediate interval timeout (forget_captured condition v) w)
  /\ snd (PollImmediate_capturing interval timeout condition v w)
     = snd (PollImmediate interval timeout (forget_captured condition v) w).
Proof.
  intros Hb. rewrite PollImmediate_unfold, PollImmediate_capturing_unfold.
  unfold forget_captured.
  destruct (condition v w) as [[[d oe] v'] w1]. simpl.
  destruct d, oe; done || by apply poll_loop_capturing_forget.
Qed.

(** What holds of the captured variable and the world after every satisfied
    attempt holds when the poll returns nil. *)
Lemma poll_loop_capturing_satisfied (Q : V -> World E -> Prop) interval
    retries (condition : CapturingCondition (E:=E) (V:=V)) v u v' u' :
  (forall x y x' y', condition x y = ((true, None), x', y') -> Q x' y') ->
  poll_loop_capturing interval retries condition v u = ((None, v'), u') ->
  Q v' u'.
Proof.
  intros HQ. revert v u. induction retries as [|r IH]; intros v u; [done|].
  rewrite poll_loop_capturing_S.
  destruct (condition v _) as [[[d oe] v1] w1] eqn:Hc.
  destruct d, oe; try done.
  - intros [= <- <-]. by eapply HQ.
  - apply IH.
Qed.

Lemma PollImmediate_capturing_satisfied (Q : V -> World E -> Prop) interval
    timeout (condition : CapturingCondition (E:=E) (V:=V)) v w v' w' :
  (forall x y x' y', condition x y = ((true, None), x', y') -> Q x' y') ->
  PollImmediate_capturing interval timeout condition v w = ((None, v'), w') ->
  Q v' w'.
Proof.
  intros HQ. rewrite PollImmediate_capturing_unfold.
  destruct (condition v w) as [[[d oe] v1] w1] eqn:Hc.
  destruct d, oe; try done.
  - intros [= <- <-]. by eapply HQ.
  - by apply poll_loop_capturing_satisfied.
Qed.
(** A capturing poll of a blind closure ends at the first decisive attempt
    of the plain poll, with what that attempt answers and leaves in the
    captured variable. *)
Lemma poll_loop_capturing_decided interval retries
    (condition : CapturingCondition (E:=E) (V:=V)) v0 v k u :
  blind condition ->
  (k < retries)%nat ->
  (forall j, (j < k)%nat ->
     fst (forget_captured condition v0
            (attempt_world interval (forget_captured condition v0) j
               (snd (sleep interval u))))
     = (false, None)) ->
  decisive
    (fst (forget_captured condition v0
            (attempt_world interval (forget_captured condition v0) k
               (snd (sleep interval u))))) ->
  exists vk,
    poll_loop_capturing interval retries condition v u
    = (let (a, w1) :=
         condition vk
           (attempt_world interval (forget_captured condition v0) k
              (snd (sleep interval u))) in
       (verdict (fst a), snd a, w1)).
Proof.
  intros Hb. revert k v u.
  induction retries as [|r IH]; intros k v u Hk Hpre Hdec; [lia|].
  rewrite poll_loop_capturing_S.
  remember (snd (sleep interval u)) as u1 eqn:Hu1. clear Hu1.
  destruct k as [|k].
  - cbn [attempt_world] in *. exists v.
    rewrite (forget_captured_blind condition v0 v _ Hb) in Hdec.
    unfold forget_captured in Hdec.
    destruct (condition v u1) as [[[d oe] v'] w1].
    simpl in *. destruct d, oe; try done.
  - pose proof (Hpre O ltac:(lia)) as H0. cbn [attempt_world] in H0.
    rewrite attempt_world_S in Hdec.
    assert (forall j,
              attempt_world interval (forget_captured condition v0) (S j) u1
              = attempt_world interval (forget_captured condition v0) j
                  (snd (sleep interval (snd (condition v u1))))) as Hshift.
    { intros j. rewrite attempt_world_S.
      rewrite (forget_captured_blind condition v0 v _ Hb).
      unfold forget_captured. by destruct (condition v u1) as [[? ?] ?]. }
    rewrite <- attempt_world_S, Hshift in Hdec.
    rewrite (forget_captured_blind condition v0 v _ Hb) in H0.
    unfold forget_captured in H0.
    destruct (condition v u1) as [[[d oe] v'] w1] eqn:Hc.
    cbn [fst snd] in H0, Hshift, Hdec. injection H0 as -> ->.
    destruct (IH k v' w1) as (vk & Hrun).
    + lia.
    + intros j Hj. specialize (Hpre (S j) ltac:(lia)).
      by rewrite Hshift in Hpre.
    + exact Hdec.
    + exists vk. by rewrite Hrun, Hshift.
Qed.

Lemma PollImmediate_capturing_decided interval timeout
    (condition : CapturingCondition (E:=E) (V:=V)) v0 k w :
  blind condition ->
  (k <= poll_retries interval timeout)%nat ->
  (forall j, (j < k)%nat ->
     fst (forget_captured condition v0
            (attempt_world interval (forget_captured condition v0) j w))
     = (false, None)) ->
  decisive
    (fst (forget_captured condition v0
            (attempt_world interval (forget_captured condition v0) k w))) ->
  exists vk,
    PollImmediate_capturing interval timeout condition v0 w
    = (let (a, w1) :=
         condition vk
           (attempt_world interval (forget_captured condition v0) k w) in
       (verdict (fst a), snd a, w1)).
Proof.
  intros Hb Hk Hpre Hdec. rewrite PollImmediate_capturing_unfold.
  destruct k as [|k].
  - cbn [attempt_world] in *. exists v0. unfold forget_captured in Hdec.
    destruct (condition v0 w) as [[[d oe] v'] w1].
    simpl in *. destruct d, oe; try done.
  - pose proof (Hpre O ltac:(lia)) as H0. cbn [attempt_world] in H0.
    assert (forall j,
              attempt_world interval (forget_captured condition v0) (S j) w
              = attempt_world interval (forget_captured condition v0) j
                  (snd (sleep interval (snd (condition v0 w))))) as Hshift.
    { intros j. rewrite attempt_world_S.
      unfold forget_captured at 2. by destruct (condition v0 w) as [[? ?] ?]. }
    rewrite Hshift in Hdec.
    unfold forget_captured in H0.
    destruct (condition v0 w) as [[[d oe] v'] w1] eqn:Hc.
    cbn [fst snd] in H0, Hshift, Hdec. injection H0 as -> ->.
    destruct (poll_loop_capturing_decided interval
                (poll_retries interval timeout) condition v0 v' k w1 Hb)
      as (vk & Hrun).
    + lia.
    + intros j Hj. specialize (Hpre (S j) ltac:(lia)).
      by rewrite Hshift in Hpre.
    + exact Hdec.
    + exists vk. by rewrite Hrun, Hshift.
Qed.
End QuietPolls.

(** *** More of package infra *)

Section MoreInfra.
Context {E : Type} `{ClusterAccess E} `{Settings}.

Lemma calls_of_size_stage (P : Call -> Prop) (Q : Event -> Prop)
    (evs : list Event) :
  (forall c, Q (EvCall c) -> P c) ->
  Forall Q evs -> Forall P (calls_of evs).
Proof.
  intros HPQ. induction 1 as [|ev evs Hev _ IH]; [constructor|].
  destruct ev as [c| |]; try exact IH.
  rewrite calls_of_call. constructor; auto.
Qed.

(** **** waitUntilAllNodesAreSchedulable *)

Lemma checkSchedulable_true nodes (w : World E) :
  fst (checkSchedulable nodes w) = true
  <-> Forall (fun node => Node.Unschedulable node = false) nodes.
Proof.
  revert w. induction nodes as [|node nodes IH]; intros w; simpl.
  - split; [constructor|done].
  - rewrite Forall_cons. destruct (Node.Unschedulable node); simpl.
    + split; [done|]. by intros [? _].
    + unfold bind. simpl. rewrite IH. tauto.
Qed.

Lemma allNodesSchedulable_condition_no_error (w : World E) :
  snd (fst (allNodesSchedulable_condition w)) = None.
Proof.
  unfold allNodesSchedulable_condition, bind, call.
  destruct (client_List_nodes _ (env w)) as [[nodes|err] e1]; [|done].
  by destruct (checkSchedulable _ _) as [[] w1].
Qed.

Lemma allNodesSchedulable_condition_true (w : World E) :
  fst (allNodesSchedulable_condition w) = (true, None)
  <-> exists nodes e1,
        client_List_nodes (ListOptions.mk EmptyString ∅) (env w)
        = (Ok nodes, e1)
        /\ Forall (fun node => Node.Unschedulable node = false) nodes.
Proof.
  unfold allNodesSchedulable_condition, bind, call.
  destruct (client_List_nodes _ (env w)) as [[nodes|err] e1]; simpl.
  - pose proof (checkSchedulable_true nodes
                  (mkWorld e1
                     (trace w
                      ++ [EvCall (CListNodes (ListOptions.mk EmptyString ∅))])))
      as Ht.
    destruct (checkSchedulable _ _) as [[] w1]; simpl in *.
    + split; [|done]. intros _. exists nodes, e1. split; [done|].
      by apply Ht.
    + split; [done|]. intros (nodes' & e1' & [= <- <-] & Hall).
      apply Ht in Hall. discriminate.
  - split; [done|]. by intros (nodes' & e1' & [=] & _).
Qed.

Lemma allNodesSchedulable_condition_emits (P : Event -> Prop) :
  (forall sev format args, P (EvLog sev format args)) ->
  P (EvCall (CListNodes (ListOptions.mk EmptyString ∅))) ->
  emits P allNodesSchedulable_condition.
Proof.
  intros Hlog Hcall. unfold allNodesSchedulable_condition.
  emits_auto; try apply Hlog.
  by apply emits_logs_any, checkSchedulable_emits.
Qed.

(** X1: [waitUntilAllNodesAreSchedulable] returns nil exactly when, within
    the sixty retries of its minute, some attempt lists the nodes and finds
    none unschedulable (an empty list passes); a failed list is retried like
    a cordoned node, so the only error it can return is the timeout, and
    then it has slept all sixty seconds.  All it ever calls is the node list
    with empty options. *)
Theorem waitUntilAllNodesAreSchedulable_outcome (w : World E) :
  let r := waitUntilAllNodesAreSchedulable w in
  let evs := drop (length (trace w)) (trace (snd r)) in
  (fst r = None
   <-> exists k,
         (k <= minute_retries)%nat
         /\ exists nodes e1,
              client_List_nodes (ListOptions.mk EmptyString ∅)
                (env (schedulable_attempt k w))
              = (Ok nodes, e1)
              /\ Forall (fun node => Node.Unschedulable node = false) nodes)
  /\ (fst r = None
      \/ (fst r = Some ErrWaitTimeout
          /\ sleeps_of evs = replicate minute_retries (1 * Second)))
  /\ minute_retries = 60%nat
  /\ Forall (fun c => c = CListNodes (ListOptions.mk EmptyString ∅))
       (calls_of evs).
Proof.
  cbn zeta. unfold waitUntilAllNodesAreSchedulable.
  assert (emits no_sleep allNodesSchedulable_condition) as Hns
    by (by apply allNodesSchedulable_condition_emits).
  split; [|split; [|split]].
  - destruct (PollImmediate_quiet (1 * Second) Minute _ w
                allNodesSchedulable_condition_no_error Hns)
      as [(k & Hk & Hpre & Htrue & Hp & _)|(Hall & Hp & _)];
      rewrite Hp; simpl fst.
    + split; [|done]. intros _. exists k. split; [done|].
      by apply allNodesSchedulable_condition_true.
    + split; [done|]. intros (k & Hk & Hex).
      apply allNodesSchedulable_condition_true in Hex.
      unfold schedulable_attempt in Hex. by rewrite (Hall k Hk) in Hex.
  - destruct (PollImmediate_quiet (1 * Second) Minute _ w
                allNodesSchedulable_condition_no_error Hns)
      as [(k & Hk & Hpre & Htrue & Hp & _)|(Hall & Hp & Hs)].
    + left. by rewrite Hp.
    + right. split; [by rewrite Hp|]. exact Hs.
  - reflexivity.
  - destruct (waitUntilAllNodesAreSchedulable_emits w) as (evs & Ht & Hevs).
    unfold waitUntilAllNodesAreSchedulable in Ht.
    rewrite Ht, drop_app_length.
    eapply calls_of_size_stage; [|exact Hevs].
    intros [] Hc; simpl in Hc; try done. by subst.
Qed.

(** **** isOneMachinePerNode: what an answer costs *)

Lemma oneMachinePerNode_condition_emits (P : Event -> Prop) :
  (forall sev format args, P (EvLog sev format args)) ->
  P (EvCall (CListMachines oneMachinePerNode_listOptions)) ->
  P (EvCall (CListNodes oneMachinePerNode_listOptions)) ->
  emits P oneMachinePerNode_condition.
Proof.
  intros Hlog Hm Hn. unfold oneMachinePerNode_condition.
  emits_auto; try apply Hlog.
  - by apply emits_logs_any, collectAnnotations_emits.
  - by apply emits_logs_any, checkMachines_emits.
Qed.

(** X2: a true answer of [isOneMachinePerNode] comes at the first satisfied
    attempt [k], after [k] sleeps of five seconds; a false answer always
    costs the whole budget, one sleep per retry the short wait allows, and
    ends with the log line of the timeout: the check cannot fail early. *)
Theorem isOneMachinePerNode_budget (w : World E) :
  let r := isOneMachinePerNode w in
  let slept := sleeps_of (drop (length (trace w)) (trace (snd r))) in
  if fst r
  then
    exists k,
      (k <= oneMachinePerNode_retries)%nat
      /\ slept = replicate k (5 * Second)
      /\ fst (oneMachinePerNode_condition (oneMachinePerNode_attempt k w))
         = (true, None)
      /\ forall j, (j < k)%nat ->
           fst (oneMachinePerNode_condition (oneMachinePerNode_attempt j w))
           = (false, None)
  else
    slept = replicate oneMachinePerNode_retries (5 * Second)
    /\ last (trace (snd r))
       = Some (EvLog SevError "Error checking isOneMachinePerNode: %v"
                 [AError ErrWaitTimeout]).
Proof.
  cbn zeta.
  assert (emits no_sleep oneMachinePerNode_condition) as Hns
    by (by apply oneMachinePerNode_condition_emits).
  destruct (isOneMachinePerNode w) as [b w'] eqn:Hrun.
  unfold isOneMachinePerNode, bind in Hrun.
  destruct (PollImmediate_quiet (5 * Second) WaitShort _ w
              oneMachinePerNode_condition_no_error Hns)
    as [(k & Hk & Hpre & Htrue & Hp & Hs)|(Hall & Hp & Hs)];
    rewrite Hp in Hs, Hrun; simpl in Hs, Hrun; injection Hrun as <- <-;
    simpl fst; simpl snd.
  - exists k. by repeat split.
  - cbn [trace]. split; [|by rewrite last_snoc].
    destruct (attempt_sleeps (5 * Second) _ oneMachinePerNode_retries w Hns)
      as (evs & Ht & Hsl).
    unfold oneMachinePerNode_retries in *. rewrite Ht in Hs |- *.
    rewrite <- app_assoc, drop_app_length, sleeps_of_app, Hsl.
    by rewrite app_nil_r.
Qed.
(** **** getWorkerNode *)

Lemma getWorkerNode_condition_blind : blind getWorkerNode_condition.
Proof.
  intros v v' u. unfold getWorkerNode_condition, bind, call.
  destruct (client_List_nodes _ (env u)) as [[items|err] e1]; simpl; [|done].
  by case_bool_decide.
Qed.

Lemma getWorkerNode_condition_outcome v (u : World E) :
  fst (forget_captured getWorkerNode_condition v u)
  = match fst (client_List_nodes getWorkerNode_listOptions (env u)) with
    | Ok (_ :: _) => (true, None)
    | _ => (false, None)
    end.
Proof.
  unfold forget_captured, getWorkerNode_condition, bind, call.
  destruct (client_List_nodes _ (env u)) as [[[|node rest]|err] e1]; done.
Qed.

Lemma getWorkerNode_condition_found v (u : World E) node rest e1 :
  client_List_nodes getWorkerNode_listOptions (env u)
  = (Ok (node :: rest), e1) ->
  getWorkerNode_condition v u
  = ((true, None), node :: rest,
     mkWorld e1 (trace u ++ [EvCall (CListNodes getWorkerNode_listOptions)])).
Proof.
  intros Hl. unfold getWorkerNode_condition, bind, call. by rewrite Hl.
Qed.

(** X3: [getWorkerNode] returns a node exactly when, within the sixty
    retries of its minute, some attempt lists a node under the worker role
    label after attempts that all failed or listed none; the node returned
    is the first item of that list.  It never indexes an empty list, and the
    only error it returns is the timeout. *)
Theorem getWorkerNode_outcome (w : World E) :
  let r := fst (getWorkerNode w) in
  (forall node,
     r = Returned node
     <-> exists k,
           (k <= minute_retries)%nat
           /\ (forall j, (j < k)%nat ->
                 unproductive (env (getWorkerNode_attempt j w)))
           /\ exists rest e1,
                client_List_nodes getWorkerNode_listOptions
                  (env (getWorkerNode_attempt k w))
                = (Ok (node :: rest), e1))
  /\ (forall err, r = Failed err -> err = ErrWaitTimeout)
  /\ r <> Panicked.
Proof.
  cbn zeta.
  set (plain := forget_captured getWorkerNode_condition []).
  assert (forall u, fst (plain u) = (false, None) <-> unproductive (env u))
    as Hunprod.
  { intros u. unfold plain, unproductive.
    rewrite getWorkerNode_condition_outcome.
    by destruct (fst (client_List_nodes _ (env u))) as [[|? ?]|?]. }
  assert (forall u,
            decisive (fst (plain u))
            -> exists node rest e1,
                 client_List_nodes getWorkerNode_listOptions (env u)
                 = (Ok (node :: rest), e1)) as Hfound.
  { intros u. unfold plain. rewrite getWorkerNode_condition_outcome.
    destruct (client_List_nodes _ (env u)) as [[[|node rest]|err] e1];
      simpl; try (by intros []). eauto. }
  destruct (first_decisive (1 * Second) plain w minute_retries)
    as [(k & Hk & Hpre & Hdec)|Hall].
  - destruct (PollImmediate_capturing_decided (1 * Second) Minute
                getWorkerNode_condition [] k w getWorkerNode_condition_blind
                Hk Hpre Hdec) as (vk & Hrun).
    destruct (Hfound _ Hdec) as (node & rest & e1 & Hl).
    fold plain in Hrun.
    rewrite (getWorkerNode_condition_found vk _ _ _ _ Hl) in Hrun.
    simpl in Hrun.
    assert (fst (getWorkerNode w) = Returned node) as Hres.
    { unfold getWorkerNode. unfold bind at 1. by rewrite Hrun. }
    rewrite Hres. split; [|split; [done|done]].
    intros node'. split.
    + intros [= <-]. exists k. split; [done|]. split.
      * intros j Hj. by apply Hunprod, Hpre.
      * by exists rest, e1.
    + intros (k' & Hk' & Hpre' & rest' & e1' & Hl').
      unfold getWorkerNode_attempt in *. fold plain in Hl', Hpre'.
      destruct (lt_eq_lt_dec k k') as [[Hlt| <-]|Hgt].
      * specialize (Hpre' k Hlt). unfold unproductive in Hpre'.
        by rewrite Hl in Hpre'.
      * rewrite Hl in Hl'. by injection Hl' as <- _ _.
      * specialize (Hpre k' Hgt). apply Hunprod in Hpre.
        unfold unproductive in Hpre. by rewrite Hl' in Hpre.
  - pose proof (PollImmediate_timeout _ Minute _ w Hall) as Hp.
    destruct (PollImmediate_capturing_forget (1 * Second) Minute
                getWorkerNode_condition [] w getWorkerNode_condition_blind)
      as [Hv _].
    fold plain in Hv. rewrite Hp in Hv. simpl in Hv.
    assert (fst (getWorkerNode w) = Failed ErrWaitTimeout) as Hres.
    { unfold getWorkerNode. unfold bind at 1.
      destruct (PollImmediate_capturing _ _ _ _ w) as [[oe v] w1].
      simpl in Hv. by subst oe. }
    rewrite Hres. split; [|split; [by intros err [= <-]|done]].
    intros node. split; [done|].
    intros (k & Hk & _ & rest & e1 & Hl).
    specialize (Hall k Hk). apply Hunprod in Hall.
    unfold getWorkerNode_attempt in Hl. fold plain in Hl.
    unfold unproductive in Hall. by rewrite Hl in Hall.
Qed.
End MoreInfra.

Section MoreOperations.
Context {E : Type} `{ClusterAccess E} `{Settings}.

(** **** getMachineFromNode *)

(** X4: [getMachineFromNode] fails without touching the cluster when the
    node has no machine annotation or the annotation does not split; with an
    annotation in the configured namespace it makes one lookup, of the name
    in the annotation, and returns what the lookup returns, or its error
    wrapped.  It never makes more than that one call. *)
Theorem getMachineFromNode_outcomes (node : Node.t) (w : World E) :
  let r := getMachineFromNode node w in
  let calls := calls_of (drop (length (trace w)) (trace (snd r))) in
  (Node.Annotations node !! MachineAnnotationKey = None ->
   r = (Err (Errorf "node %q does not have a MachineAnnotationKey %q"
               [AString (Node.Name node); AString MachineAnnotationKey]),
        w))
  /\ (forall key err,
        Node.Annotations node !! MachineAnnotationKey = Some key ->
        cache_SplitMetaNamespaceKey key = Err err ->
        r = (Err (Errorf "machine annotation format is incorrect %v: %v"
                    [AString key; AError err]),
             w))
  /\ (forall key machineName,
        Node.Annotations node !! MachineAnnotationKey = Some key ->
        cache_SplitMetaNamespaceKey key
        = Ok (MachineApiNamespace, machineName) ->
        r = (match fst (e2e_GetMachine machineName (env w)) with
             | Ok machine => Ok machine
             | Err err =>
                 Err (Errorf "error querying api for machine object: %v"
                        [AError err])
             end,
             mkWorld (snd (e2e_GetMachine machineName (env w)))
               (trace w ++ [EvCall (CGetMachine machineName)])))
  /\ (calls = []
      \/ exists key machineName,
           Node.Annotations node !! MachineAnnotationKey = Some key
           /\ cache_SplitMetaNamespaceKey key
              = Ok (MachineApiNamespace, machineName)
           /\ calls = [CGetMachine machineName]).
Proof.
  cbn zeta. unfold getMachineFromNode.
  destruct (Node.Annotations node !! MachineAnnotationKey) as [key|].
  2:{ repeat split; try done. left. by rewrite drop_all. }
  destruct (cache_SplitMetaNamespaceKey key) as [[namespace machineName]|err]
    eqn:Hsplit.
  2:{ split; [done|].
      split; [intros ? ? [= <-] Hs; rewrite Hsplit in Hs; by simplify_eq|].
      split; [intros ? ? [= <-] Hs; rewrite Hsplit in Hs; by simplify_eq|].
      left. by rewrite drop_all. }
  case_bool_decide as Hns.
  { split; [done|].
    split; [intros ? ? [= <-] Hs; rewrite Hsplit in Hs; by simplify_eq|].
    split; [intros ? ? [= <-] Hs; rewrite Hsplit in Hs; by simplify_eq|].
    left. by rewrite drop_all. }
  subst namespace. unfold bind, call.
  destruct (e2e_GetMachine machineName (env w)) as [[m|err] e'] eqn:Hg;
    simpl; (split; [done|]);
    (split; [intros ? ? [= <-] Hs; rewrite Hsplit in Hs; by simplify_eq|]);
    (split;
     [intros ? ? [= <-] Hs; rewrite Hsplit in Hs; simplify_eq;
      by rewrite Hg|]);
    right; exists key, machineName; rewrite drop_app_length; done.
Qed.

(** **** The links an iteration checks *)

Lemma consistent_one_to_one machines nodes :
  NoDup (Machine.Name <$> machines) ->
  snapshot_consistent machines nodes ->
  one_to_one machines nodes.
Proof.
  intros Hnd (Hlen & Hann & Hall).
  pose proof (linked_names_permutation _ _ Hnd Hlen Hall) as Hperm.
  assert (NoDup (Node.Name <$> nodes)) as Hndn.
  { rewrite <- Hperm.
    apply NoDup_fmap_2_strong; [|by apply NoDup_fmap_1 in Hnd].
    intros x y. by apply (linked_ref_name_inj machines nodes). }
  pose proof Hall as Hall'. rewrite Forall_forall in Hall'.
  unfold one_to_one. split; [|split; [done|split]].
  - intros m1 m2 r1 r2 H1 H2 Hr1 Hr2 Heq.
    apply (linked_ref_name_inj machines nodes); try done.
    unfold ref_name. by rewrite Hr1, Hr2.
  - intros node Hin.
    assert (Node.Name node ∈ ref_name <$> machines) as Hr.
    { rewrite Hperm. by apply list_elem_of_fmap_2. }
    apply list_elem_of_fmap in Hr as (machine & Heq & Hmin).
    destruct (Hall' _ Hmin) as (ref & node' & Href & Hnode' & Hann').
    unfold ref_name in Heq. rewrite Href in Heq.
    apply node_named_Some in Hnode' as [Hin' Hname'].
    assert (node' = node) as ->.
    { apply (NoDup_fmap_inj_on Node.Name nodes); try done. congruence. }
    exists machine. split; [done|]. split.
    + split; [|done]. by exists ref.
    + intros machine' Hmin' (ref' & Href' & Hname).
      apply (linked_ref_name_inj machines nodes); try done.
      unfold ref_name. rewrite Href, Href'. congruence.
  - intros machine Hmin.
    destruct (Hall' _ Hmin) as (ref & node & Href & Hnode & Hann').
    apply node_named_Some in Hnode as [Hin Hname].
    exists node. split; [done|]. split.
    + split; [|done]. by exists ref.
    + intros node' Hin' (ref' & Href' & Hname').
      rewrite Href in Href'. injection Href' as <-.
      apply (NoDup_fmap_inj_on Node.Name nodes); try done. congruence.
Qed.

(** X5: the two directions of the link agree.  After a satisfied iteration
    over machines with distinct names, whose keys the key splitter takes
    apart into the configured namespace and the machine's name,
    [getMachineFromNode] on any node of the list looks up exactly the name of
    the machine whose node reference names that node. *)
Theorem satisfied_iteration_resolves_nodes (w u : World E)
    (machines : list Machine.t) (nodes : list Node.t) (e1 e2 : E)
    (node : Node.t) :
  client_List_machines oneMachinePerNode_listOptions (env w)
  = (Ok machines, e1) ->
  client_List_nodes oneMachinePerNode_listOptions e1 = (Ok nodes, e2) ->
  fst (oneMachinePerNode_condition w) = (true, None) ->
  NoDup (Machine.Name <$> machines) ->
  (forall machine, machine ∈ machines ->
     cache_SplitMetaNamespaceKey (machine_key machine)
     = Ok (MachineApiNamespace, Machine.Name machine)) ->
  node ∈ nodes ->
  exists machine,
    machine ∈ machines
    /\ references machine node
    /\ calls_of (drop (length (trace u))
                   (trace (snd (getMachineFromNode node u))))
       = [CGetMachine (Machine.Name machine)]
    /\ fst (getMachineFromNode node u)
       = match fst (e2e_GetMachine (Machine.Name machine) (env u)) with
         | Ok found => Ok found
         | Err err =>
             Err (Errorf "error querying api for machine object: %v"
                    [AError err])
         end.
Proof.
  intros Hm Hn Htrue Hnd Hsplit Hin.
  apply oneMachinePerNode_condition_true in Htrue
    as (ms & ns & e1' & e2' & Hm' & Hn' & Hcons).
  rewrite Hm in Hm'. injection Hm' as <- <-.
  rewrite Hn in Hn'. injection Hn' as <- <-.
  destruct (consistent_one_to_one _ _ Hnd Hcons) as (_ & _ & Hnodes & _).
  destruct (Hnodes node Hin) as (machine & Hmin & [Href Hann] & _).
  exists machine. split; [done|]. split; [done|].
  unfold getMachineFromNode. rewrite Hann, (Hsplit _ Hmin).
  rewrite bool_decide_eq_false_2 by (by intros ?).
  unfold bind, call.
  destruct (e2e_GetMachine _ (env u)) as [[found|err] e'];
    simpl; by rewrite drop_app_length.
Qed.

(** X6: the second loop of the check looks at a machine's name and at the
    node name of its reference and at nothing else: machines that differ
    only in their own namespace or in the namespace of their reference get
    the same verdict. *)
Theorem checkMachines_ignores_namespaces (machines machines' : list Machine.t)
    (m : gmap string string) (w w' : World E) :
  Forall2 same_links machines machines' ->
  fst (checkMachines machines m w) = fst (checkMachines machines' m w').
Proof.
  intros Hall. revert w w'.
  induction Hall as [|x y l l' [Hname Href] _ IH]; intros w w'; [done|].
  simpl. rewrite <- Hname.
  destruct (Machine.NodeRef x) as [rx|], (Machine.NodeRef y) as [ry|];
    try done.
  simpl in Href. injection Href as <-.
  case_bool_decide; [done|]. unfold bind. simpl. apply IH.
Qed.
End MoreOperations.

Section MoreScale.
Context {E : Type} `{ClusterAccess E} `{Settings}.

(** **** scaleMachineSet *)

Lemma int32_range (x : Z) : - 2 ^ 31 <= int32 x < 2 ^ 31.
Proof.
  unfold int32. pose proof (Z.mod_pos_bound (x + 2 ^ 31) (2 ^ 32)). lia.
Qed.

Lemma int32_congruent (x : Z) : (int32 x - x) mod 2 ^ 32 = 0.
Proof.
  unfold int32. rewrite (Z.mod_eq (x + 2 ^ 31) (2 ^ 32)) by lia.
  replace (x + 2 ^ 31 - 2 ^ 32 * ((x + 2 ^ 31) / 2 ^ 32) - 2 ^ 31 - x)
    with (- ((x + 2 ^ 31) / 2 ^ 32) * 2 ^ 32) by lia.
  apply Z_mod_mult.
Qed.

Lemma int32_fits (x : Z) : int32 x = x <-> - 2 ^ 31 <= x < 2 ^ 31.
Proof.
  split.
  - intros <-. apply int32_range.
  - intros Hx. unfold int32. rewrite Z.mod_small; lia.
Qed.

Lemma getScaleClient_emits :
  emits (E:=E)
    (fun ev =>
       exists c, ev = EvCall c /\ is_scale_call c = false)
    getScaleClient.
Proof.
  unfold getScaleClient. emits_auto; apply emits_call; by eexists.
Qed.

Lemma getScaleClient_no_scale_call (w : World E) :
  exists evs,
    trace (snd (getScaleClient w)) = trace w ++ evs
    /\ filter is_scale_call (calls_of evs) = [].
Proof.
  destruct (getScaleClient_emits w) as (evs & Ht & Hevs).
  exists evs. split; [done|]. clear Ht.
  induction Hevs as [|ev evs (c & -> & Hc) _ IH]; [done|].
  rewrite calls_of_call, filter_cons_False; [exact IH|].
  rewrite Hc. by intros ?.
Qed.

(** The whole run of [scaleMachineSet], from the world the construction of
    the scale client left. *)
Lemma scaleMachineSet_run (name : string) (replicas : Z) (w : World E) :
  let ns := MachineApiNamespace in
  let gr := machineSet_GroupResource in
  let w1 := snd (getScaleClient w) in
  scaleMachineSet name replicas w
  = match fst (getScaleClient w) with
    | Some err =>
        (Some (Errorf "error calling getScaleClient %v" [AError err]), w1)
    | None =>
        match scales_Get ns gr name (env w1) with
        | (Err err, e2) =>
            (Some (Errorf "error calling scaleClient.Scales get: %v"
                     [AError err]),
             mkWorld e2 (trace w1 ++ [EvCall (CScalesGet ns gr name)]))
        | (Ok scale, e2) =>
            let written := Scale.set_SpecReplicas (int32 replicas) scale in
            let after :=
              trace w1 ++ [EvCall (CScalesGet ns gr name);
                           EvCall (CScalesUpdate ns gr written)] in
            match scales_Update ns gr written e2 with
            | (Err err, e3) =>
                (Some (Errorf "error calling scaleClient.Scales update: %v"
                         [AError err]),
                 mkWorld e3 after)
            | (Ok _, e3) => (None, mkWorld e3 after)
            end
        end
    end.
Proof.
  cbn zeta. unfold scaleMachineSet. unfold bind at 1.
  destruct (getScaleClient w) as [[err|] w1]; [done|].
  unfold bind, call. simpl.
  destruct (scales_Get _ _ _ (env w1)) as [[scale|err] e2]; [|done].
  simpl. unfold Scale.DeepCopy.
  destruct (scales_Update _ _ _ e2) as [[s2|err] e3]; simpl;
    by rewrite <- app_assoc.
Qed.

(** X7: [scaleMachineSet] never writes what it has not read.  Its calls to
    the scale sub-resource are none, when the client could not be built; one
    get, when the get failed; or one get followed by one update that carries
    the object the get returned with only [Spec.Replicas] replaced.  It
    returns nil exactly when that update succeeded, and otherwise the error
    of the step that failed, wrapped with the name of the step. *)
Theorem scaleMachineSet_update_follows_read (name : string) (replicas : Z)
    (w : World E) :
  let ns := MachineApiNamespace in
  let gr := machineSet_GroupResource in
  let r := scaleMachineSet name replicas w in
  let w1 := snd (getScaleClient w) in
  let scale_calls :=
    filter is_scale_call
      (calls_of (drop (length (trace w)) (trace (snd r)))) in
  (exists err,
     fst (getScaleClient w) = Some err
     /\ scale_calls = []
     /\ fst r = Some (Errorf "error calling getScaleClient %v" [AError err]))
  \/ (exists err e2,
        fst (getScaleClient w) = None
        /\ scales_Get ns gr name (env w1) = (Err err, e2)
        /\ scale_calls = [CScalesGet ns gr name]
        /\ fst r = Some (Errorf "error calling scaleClient.Scales get: %v"
                           [AError err]))
  \/ (exists scale e2 written,
        fst (getScaleClient w) = None
        /\ scales_Get ns gr name (env w1) = (Ok scale, e2)
        /\ written = Scale.set_SpecReplicas (int32 replicas) scale
        /\ scale_calls
           = [CScalesGet ns gr name; CScalesUpdate ns gr written]
        /\ fst r
           = match fst (scales_Update ns gr written e2) with
             | Ok _ => None
             | Err err =>
                 Some (Errorf "error calling scaleClient.Scales update: %v"
                         [AError err])
             end).
Proof.
  cbn zeta. rewrite scaleMachineSet_run. cbn zeta.
  destruct (getScaleClient_no_scale_call w) as (evs & Ht & Hnone).
  destruct (fst (getScaleClient w)) as [err|] eqn:Hsc.
  - left. exists err. simpl snd. rewrite Ht, drop_app_length. done.
  - right.
    destruct (scales_Get _ _ _ (env (snd (getScaleClient w))))
      as [[scale|err] e2] eqn:Hget.
    + right.
      exists scale, e2, (Scale.set_SpecReplicas (int32 replicas) scale).
      split; [done|]. split; [done|].
      split; [done|].
      destruct (scales_Update _ _ _ e2) as [[s2|err] e3]; simpl;
        rewrite Ht, <- app_assoc, drop_app_length, calls_of_app,
          filter_app, Hnone; done.
    + left. exists err, e2. split; [done|]. split; [done|]. simpl.
      rewrite Ht, <- app_assoc, drop_app_length, calls_of_app,
        filter_app, Hnone. done.
Qed.

(** X8: the replica count that [scaleMachineSet] writes is [int32(replicas)]:
    always within the 32-bit range and congruent to the count asked for
    modulo 2^32, and equal to it exactly when the count asked for fits in 32
    bits. *)
Theorem scaleMachineSet_replicas_wrap (name : string) (replicas : Z)
    (w w' : World E) :
  scaleMachineSet name replicas w = (None, w') ->
  exists written,
    last (calls_of (trace w'))
    = Some (CScalesUpdate MachineApiNamespace machineSet_GroupResource
              written)
    /\ - 2 ^ 31 <= Scale.SpecReplicas written < 2 ^ 31
    /\ (Scale.SpecReplicas written - replicas) mod 2 ^ 32 = 0
    /\ (Scale.SpecReplicas written = replicas
        <-> - 2 ^ 31 <= replicas < 2 ^ 31).
Proof.
  rewrite scaleMachineSet_run. cbn zeta.
  destruct (fst (getScaleClient w)) as [err|]; [done|].
  destruct (scales_Get _ _ _ _) as [[scale|err] e2]; [|done].
  destruct (scales_Update _ _ _ e2) as [[s2|err] e3]; [|done].
  intros [= <-]. eexists. cbn [trace].
  rewrite calls_of_app.
  change (calls_of [EvCall ?a; EvCall ?b]) with [a; b].
  rewrite last_app. cbn [last]. split; [done|]. simpl.
  split; [apply int32_range|]. split; [apply int32_congruent|].
  apply int32_fits.
Qed.
End MoreScale.

Section MoreClusterSize.
Context {E : Type} `{ClusterAccess E} `{Settings}.

(** **** waitForClusterSizeToBeHealthy, when it succeeds *)

Lemma clusterSize_condition_quiet targetSize (u : World E) d :
  fst (clusterSize_condition targetSize u) = (d, None) ->
  exists n, size_read (env u) n /\ d = bool_decide (n = targetSize).
Proof.
  rewrite clusterSize_condition_outcome.
  destruct (e2e_GetMachineSets (env u)) as [[ms|err1] e1] eqn:H1; [|done].
  destruct (e2e_GetNodes e1) as [[ns|err2] e2] eqn:H2; [|done].
  destruct (e2e_GetNodes e2) as [[counted|err3] e3] eqn:H3; [|done].
  intros [= <-]. exists (Z.of_nat (length counted)). split; [|done].
  by exists ms, e1, ns, e2, counted, e3.
Qed.

(** X9: the call returns nil exactly when the size poll, the readiness
    wait, the schedulability wait and the one-machine-per-node check all
    succeed, each run where the one before it ended; and the size poll
    succeeds exactly when, within the retries the long wait allows, some
    attempt reads the target size after attempts that each read a different
    size with no read failing. *)
Theorem waitForClusterSizeToBeHealthy_success (targetSize : Z)
    (w : World E) :
  let rb := clusterSize_poll targetSize w in
  let rc :=
    call CWaitUntilAllNodesAreReady e2e_WaitUntilAllNodesAreReady
      (snd (glog_Infof "waiting for all nodes to be ready" [] (snd rb))) in
  let rd :=
    waitUntilAllNodesAreSchedulable
      (snd (glog_Infof "waiting for all nodes to be schedulable" []
              (snd rc))) in
  let re :=
    isOneMachinePerNode
      (snd (glog_Infof "waiting for each node to be backed by a machine" []
              (snd rd))) in
  (fst (waitForClusterSizeToBeHealthy targetSize w) = None
   <-> fst rb = None /\ fst rc = None /\ fst rd = None /\ fst re = true)
  /\ (fst rb = None
      <-> exists k,
            (k <= clusterSize_retries)%nat
            /\ size_read (env (clusterSize_attempt targetSize k w))
                 targetSize
            /\ forall j, (j < k)%nat ->
                 exists n,
                   size_read (env (clusterSize_attempt targetSize j w)) n
                   /\ n <> targetSize).
Proof.
  cbn zeta. split.
  - unfold waitForClusterSizeToBeHealthy. unfold bind at 1.
    destruct (clusterSize_poll targetSize w) as [[err|] wb];
      [split; [done|by intros [? _]]|].
    simpl fst. simpl snd. unfold bind at 1. simpl. unfold bind at 1.
    destruct (call _ _ _) as [[err|] wc];
      [split; [done|by intros (_ & ? & _)]|].
    simpl fst. simpl snd. unfold bind at 1. simpl. unfold bind at 1.
    destruct (waitUntilAllNodesAreSchedulable _) as [[err|] wd];
      [split; [done|by intros (_ & _ & ? & _)]|].
    simpl fst. simpl snd. unfold bind at 1. simpl. unfold bind at 1.
    destruct (isOneMachinePerNode _) as [[] we]; simpl; split; try done.
    by intros (_ & _ & _ & ?).
  - unfold clusterSize_poll.
    destruct (first_decisive (5 * Second) (clusterSize_condition targetSize)
                w clusterSize_retries) as [(k & Hk & Hpre & Hdec)|Hall].
    + rewrite (PollImmediate_decided _ WaitLong _ k w Hk Hpre Hdec).
      simpl fst.
      destruct (fst (clusterSize_condition targetSize
                       (attempt_world (5 * Second)
                          (clusterSize_condition targetSize) k w)))
        as [d oe] eqn:Hc.
      destruct oe as [err|]; simpl.
      * split; [done|]. intros (k' & Hk' & Hsize & Hpre').
        unfold clusterSize_attempt in *.
        destruct (lt_eq_lt_dec k k') as [[Hlt| <-]|Hgt].
        -- destruct (Hpre' k Hlt) as (n & Hn & _).
           rewrite (clusterSize_condition_size_read _ _ _ Hn) in Hc.
           discriminate.
        -- rewrite (clusterSize_condition_size_read _ _ _ Hsize) in Hc.
           discriminate.
        -- specialize (Hpre k' Hgt).
           rewrite (clusterSize_condition_size_read _ _ _ Hsize) in Hpre.
           by rewrite bool_decide_eq_true_2 in Hpre.
      * split; [|done]. intros _. exists k. split; [done|].
        destruct d; [|by destruct Hdec].
        apply clusterSize_condition_quiet in Hc as (n & Hn & Hd).
        symmetry in Hd. apply bool_decide_eq_true in Hd. subst n.
        split; [done|]. intros j Hj.
        destruct (clusterSize_condition_quiet _ _ _ (Hpre j Hj))
          as (n & Hn' & Hd).
        exists n. split; [done|]. symmetry in Hd.
        by apply bool_decide_eq_false in Hd.
    + rewrite (PollImmediate_timeout _ WaitLong _ w Hall). simpl.
      split; [done|]. intros (k & Hk & Hsize & _).
      unfold clusterSize_attempt in Hsize.
      specialize (Hall k Hk).
      rewrite (clusterSize_condition_size_read _ _ _ Hsize) in Hall.
      by rewrite bool_decide_eq_true_2 in Hall.
Qed.

(** **** The snapshot logs *)

Lemma logMachineSets_run machineSets (w : World E) :
  logMachineSets machineSets w
  = (tt, mkWorld (env w) (trace w ++ map machineSet_line machineSets)).
Proof.
  revert w. induction machineSets as [|ms l IH]; intros w; simpl.
  - unfold ret. rewrite app_nil_r. by destruct w.
  - unfold bind. simpl. rewrite IH. simpl. rewrite <- app_assoc.
    unfold machineSet_line at 2. by destruct (MachineSet.Replicas ms).
Qed.

Lemma logNodes_run nodes (w : World E) :
  logNodes nodes w = (tt, mkWorld (env w) (trace w ++ map node_line nodes)).
Proof.
  revert w. induction nodes as [|n l IH]; intros w; simpl.
  - unfold ret. rewrite app_nil_r. by destruct w.
  - unfold bind. simpl. rewrite IH. simpl. by rewrite <- app_assoc.
Qed.

(** X10: [machineSetsSnapShotLogs] makes one read and, when it succeeds,
    logs one line per machine-set, in the order read, a machine-set without
    a replica count shown with the default; when the read fails it logs
    nothing and returns the error wrapped. *)
Theorem machineSetsSnapShotLogs_lines (w : World E) :
  machineSetsSnapShotLogs w
  = match e2e_GetMachineSets (env w) with
    | (Ok machineSets, e1) =>
        (None,
         mkWorld e1
           (trace w ++ EvCall CGetMachineSets
              :: map machineSet_line machineSets))
    | (Err err, e1) =>
        (Some (Errorf "error getting machines: %v" [AError err]),
         mkWorld e1 (trace w ++ [EvCall CGetMachineSets]))
    end.
Proof.
  unfold machineSetsSnapShotLogs, bind, call.
  destruct (e2e_GetMachineSets (env w)) as [[machineSets|err] e1]; [|done].
  rewrite logMachineSets_run. simpl. by rewrite <- app_assoc.
Qed.

(** X11: [nodesSnapShotLogs] makes one read and logs one line per node, in
    the order read, with the node's readiness and its unschedulable flag;
    [getClusterSize] makes one read and returns the number of nodes read.
    Each returns a failed read wrapped as "error getting nodes". *)
Theorem nodes_snapshot_and_size (w : World E) :
  nodesSnapShotLogs w
  = match e2e_GetNodes (env w) with
    | (Ok nodes, e1) =>
        (None, mkWorld e1 (trace w ++ EvCall CGetNodes :: map node_line nodes))
    | (Err err, e1) =>
        (Some (Errorf "error getting nodes: %v" [AError err]),
         mkWorld e1 (trace w ++ [EvCall CGetNodes]))
    end
  /\ getClusterSize w
     = match e2e_GetNodes (env w) with
       | (Ok nodes, e1) =>
           (Ok (Z.of_nat (length nodes)),
            mkWorld e1
              (trace w
               ++ [EvCall CGetNodes;
                   EvLog SevInfo "Cluster size is %d nodes"
                     [AInt (Z.of_nat (length nodes))]]))
       | (Err err, e1) =>
           (Err (Errorf "error getting nodes: %v" [AError err]),
            mkWorld e1 (trace w ++ [EvCall CGetNodes]))
       end.
Proof.
  unfold nodesSnapShotLogs, getClusterSize, bind, call.
  destruct (e2e_GetNodes (env w)) as [[nodes|err] e1]; [|done].
  rewrite logNodes_run. simpl. by rewrite <- !app_assoc.
Qed.
End MoreClusterSize.

(** *** Package operator: the password secrets *)

Module OperatorProps.
Import Operator.

Lemma secret_calls_of_app (a b : list Event) :
  calls_of (a ++ b) = calls_of a ++ calls_of b.
Proof. apply omap_app. Qed.

Lemma length_string_of_list_ascii (l : list ascii) :
  String.length (String.string_of_list_ascii l) = length l.
Proof. induction l as [|c l IH]; simpl; by rewrite ?IH. Qed.

Section Passwords.
Context {St : Type} `{Access St}.
Hypothesis Hfair : fair.

Lemma chars_length : Z.of_nat (length chars) = 62.
Proof. reflexivity. Qed.

(** One loop of draws: every index gets a rune of [chars], the other places
    of the buffer stay, there is one draw per index, and a failed draw ends
    the loop with its error. *)
Lemma fillPassword_run (indices : list nat) (buf : list ascii)
    (w : World St) :
  Forall (fun i => (i < length buf)%nat) indices ->
  exists evs,
    trace (snd (fillPassword indices buf w)) = trace w ++ evs
    /\ match fst (fillPassword indices buf w) with
       | Returned buf' =>
           length buf' = length buf
           /\ (forall i, i ∈ indices ->
                 exists rune, buf' !! i = Some rune /\ rune ∈ chars)
           /\ (forall i, i ∉ indices -> buf' !! i = buf !! i)
           /\ calls_of evs = replicate (length indices) (CRandInt 62)
       | Failed err =>
           exists k,
             (k < length indices)%nat
             /\ calls_of evs = replicate (S k) (CRandInt 62)
             /\ exists s s', rand_Int 62 s = (Err err, s')
       | Panicked => False
       end.
Proof.
  revert buf w. induction indices as [|i rest IH]; intros buf w Hin.
  - exists []. simpl. rewrite app_nil_r. repeat split; try done.
    intros i Hi. by apply elem_of_nil in Hi.
  - apply Forall_cons in Hin as [Hi Hrest].
    cbn [fillPassword]. rewrite chars_length. unfold bind, call.
    destruct (rand_Int 62 (env w)) as [[c|err] e1] eqn:Hdraw.
    + apply Hfair in Hdraw as Hc; [|lia].
      rewrite bool_decide_eq_true_2 by lia.
      destruct (chars !! Z.to_nat c) as [rune|] eqn:Hrune.
      2:{ apply lookup_ge_None in Hrune.
          assert (Z.of_nat (length chars) = 62) by reflexivity. lia. }
      set (w1 := mkWorld e1 (trace w ++ [EvCall (CRandInt 62)])).
      destruct (IH (<[i:=rune]> buf) w1) as (evs & Ht & Hrun).
      { by rewrite length_insert. }
      exists (EvCall (CRandInt 62) :: evs). split.
      { rewrite Ht. unfold w1. cbn [trace]. by rewrite <- app_assoc. }
      change (calls_of (EvCall (CRandInt 62) :: evs))
        with (CRandInt 62 :: calls_of evs).
      destruct (fst (fillPassword rest (<[i:=rune]> buf) w1))
        as [buf'|err|]; [|..|done].
      * destruct Hrun as (Hlen & Hwritten & Hkept & Hc62).
        rewrite length_insert in Hlen.
        split; [done|]. split; [|split].
        -- intros j Hj. destruct (decide (j ∈ rest)) as [Hjr|Hjr].
           ++ by apply Hwritten.
           ++ apply elem_of_cons in Hj as [->|Hj]; [|done].
              exists rune. rewrite (Hkept _ Hjr).
              rewrite list_lookup_insert_eq by done. split; [done|].
              by eapply list_elem_of_lookup_2.
        -- intros j Hj. apply not_elem_of_cons in Hj as [Hji Hjr].
           rewrite (Hkept _ Hjr). by rewrite list_lookup_insert_ne.
        -- simpl. by rewrite Hc62.
      * destruct Hrun as (k & Hk & Hc62 & Hex).
        exists (S k). simpl. split; [lia|]. split; [|done].
        by rewrite Hc62.
    + exists [EvCall (CRandInt 62)]. simpl. split; [done|].
      exists O. split; [lia|]. split; [done|]. eauto.
Qed.

Lemma generateRandomPassword_run (w : World St) :
  exists evs,
    trace (snd (generateRandomPassword w)) = trace w ++ evs
    /\ match fst (generateRandomPassword w) with
       | Returned password =>
           well_formed password
           /\ calls_of evs = replicate 16 (CRandInt 62)
       | Failed err =>
           exists k,
             (k < 16)%nat
             /\ calls_of evs = replicate (S k) (CRandInt 62)
             /\ exists s s', rand_Int 62 s = (Err err, s')
       | Panicked => False
       end.
Proof.
  unfold generateRandomPassword, bind.
  destruct (fillPassword_run (seq 0 passwordLength)
              (replicate passwordLength Ascii.zero) w) as (evs & Ht & Hrun).
  { rewrite length_replicate. apply Forall_forall.
    intros i Hi. apply elem_of_seq in Hi. lia. }
  exists evs.
  destruct (fillPassword _ _ w) as [[buf|err|] w1];
    cbn [fst snd] in Ht, Hrun |- *; [|done..].
  split; [done|]. rewrite length_replicate in Hrun.
  destruct Hrun as (Hlen & Hwritten & _ & Hcalls).
  split; [|done]. split.
  - by rewrite length_string_of_list_ascii.
  - rewrite String.list_ascii_of_string_of_list_ascii.
    apply Forall_forall. intros rune Hr.
    apply list_elem_of_lookup in Hr as (i & Hi).
    destruct (Hwritten i) as (rune' & Hi' & Hin).
    { apply elem_of_seq. apply lookup_lt_Some in Hi. lia. }
    congruence.
Qed.


Hypothesis Hnil : apierrors_IsNotFound None = false.

Lemma createPasswordSecret_spec msg name key config (w : World St) :
  creates_if_missing (createPasswordSecret msg name key) name key config w.
Proof.
  unfold creates_if_missing. cbn zeta.
  set (namespace := OperatorConfig.TargetNamespace config).
  destruct (createPasswordSecret msg name key config w) as [r w'] eqn:Hrun.
  cbn [fst snd].
  unfold createPasswordSecret, bind, emit, call in Hrun.
  cbn [env trace] in Hrun. fold namespace in Hrun.
  destruct (secrets_Get namespace name (env w)) as [[found|err] e1] eqn:Hget.
  - rewrite Hnil in Hrun. cbn [negb ret] in Hrun. injection Hrun as <- <-.
    cbn [env trace]. rewrite <- app_assoc, drop_app_length.
    change (calls_of _) with [CSecretsGet namespace name].
    split; [by intros ? ? [= <- <-]|]. split; [done|].
    split; [|by repeat constructor]. intros ns secret Hin.
    apply list_elem_of_singleton in Hin. discriminate.
  - destruct (apierrors_IsNotFound (Some err)) eqn:Hnf.
    2:{ cbn [negb ret] in Hrun. injection Hrun as <- <-.
        cbn [env trace]. rewrite <- app_assoc, drop_app_length.
        change (calls_of _) with [CSecretsGet namespace name].
        split; [done|]. split; [by intros ? ? [= <- <-] _|].
        split; [|by repeat constructor]. intros ns secret Hin.
        apply list_elem_of_singleton in Hin. discriminate. }
    cbn [negb] in Hrun.
    set (w1 := mkWorld e1 _) in Hrun.
    destruct (generateRandomPassword_run w1) as (evs & Ht & Hgen).
    destruct (generateRandomPassword w1) as [[password|e|] w2];
      cbn [fst snd] in Ht, Hgen; [| |done].
    + destruct Hgen as [Hwf Hcalls].
      assert (calls_of (drop (length (trace w)) (trace w'))
              = CSecretsGet namespace name
                :: replicate 16 (CRandInt 62)
                ++ [CSecretsCreate namespace
                      (Secret.mk name namespace {[ key := password ]})])
        as Hall.
      { destruct (secrets_Create _ _ (env w2)) as [[created|e] e3];
          cbn [ret] in Hrun; injection Hrun as <- <-; cbn [trace];
          rewrite Ht; unfold w1; cbn [trace];
          rewrite <- !app_assoc, drop_app_length; cbn [app];
          change (calls_of (?a :: EvCall ?c :: ?l)) with (c :: calls_of l);
          by rewrite secret_calls_of_app, Hcalls. }
      assert (r <> Panicked) as Hnp.
      { destruct (secrets_Create _ _ (env w2)) as [[created|e] e3];
          cbn [ret] in Hrun; by injection Hrun as <- <-. }
      rewrite Hall. split; [done|]. split; [intros; congruence|].
      split.
      2:{ split; [done|]. split; [|done].
          constructor; [done|]. apply Forall_app. split.
          - apply Forall_forall. intros c Hc.
            by apply elem_of_replicate in Hc as [-> _].
          - by repeat constructor. }
      intros ns secret Hin.
      apply elem_of_cons in Hin as [Hin|Hin]; [discriminate|].
      apply elem_of_app in Hin as [Hin|Hin].
      { apply elem_of_replicate in Hin as [Hin _]. discriminate. }
      apply list_elem_of_singleton in Hin. injection Hin as -> ->.
      split; [by exists err, e1|].
      split; [by rewrite app_comm_cons, last_snoc|].
      repeat split; try done. by exists password.
    + destruct Hgen as (k & Hk & Hcalls & _).
      cbn [ret] in Hrun. injection Hrun as <- <-.
      rewrite Ht. unfold w1. cbn [trace].
      rewrite <- !app_assoc, drop_app_length. cbn [app].
      change (calls_of (?a :: EvCall ?c :: ?l)) with (c :: calls_of l).
      rewrite Hcalls.
      split; [done|]. split; [intros; congruence|].
      split.
      2:{ split; [done|]. split; [|done].
          constructor; [done|]. apply Forall_forall. intros c Hc.
          by apply elem_of_replicate in Hc as [-> _]. }
      intros ns secret Hin.
      apply elem_of_cons in Hin as [Hin|Hin]; [discriminate|].
      apply elem_of_replicate in Hin as [Hin _]. discriminate.
Qed.

(** X13: each of [createMariadbPasswordSecret] and
    [createIronicPasswordSecret] begins by getting its secret; leaves an
    existing secret alone and returns nil; returns an error of the get other
    than not-found as it is; and creates a secret only after a not-found, as
    its last call, under its own name in the target namespace, holding
    under "password" a password of sixteen letters and digits and nothing
    else. *)
Theorem password_secrets_created_if_missing (config : OperatorConfig.t)
    (w : World St) :
  creates_if_missing createMariadbPasswordSecret baremetalSecretName
    baremetalSecretKey config w
  /\ creates_if_missing createIronicPasswordSecret ironicSecretName
       ironicSecretKey config w.
Proof.
  split.
  - exact (createPasswordSecret_spec _ baremetalSecretName baremetalSecretKey
             config w).
  - exact (createPasswordSecret_spec _ ironicSecretName ironicSecretKey
             config w).
Qed.

Lemma fillPassword_keeps indices buf (w : World St) ns n :
  store_laws -> held (env w) ns n ->
  held (env (snd (fillPassword indices buf w))) ns n.
Proof.
  intros (_ & Hrand & _). revert buf w.
  induction indices as [|i rest IH]; intros buf w Hheld; [done|].
  cbn [fillPassword]. unfold bind, call.
  destruct (rand_Int _ (env w)) as [[c|err] e1] eqn:Hdraw.
  - destruct (if bool_decide (0 <= c) then _ else _) as [rune|].
    + apply IH. cbn [env]. by eapply Hrand.
    + cbn [ret snd env]. by eapply Hrand.
  - cbn [ret snd env]. by eapply Hrand.
Qed.

Lemma generateRandomPassword_keeps (w : World St) ns n :
  store_laws -> held (env w) ns n ->
  held (env (snd (generateRandomPassword w))) ns n.
Proof.
  intros Hlaws Hheld. unfold generateRandomPassword, bind.
  pose proof (fillPassword_keeps (seq 0 passwordLength)
                (replicate passwordLength Ascii.zero) w ns n Hlaws Hheld)
    as Hk.
  by destruct (fillPassword _ _ w) as [[buf|err|] w1].
Qed.

(** After a run that returned nil the secret is held, and so is every
    secret that was held before. *)
Lemma createPasswordSecret_holds msg name key config (w : World St) :
  store_laws ->
  fst (createPasswordSecret msg name key config w) = Returned tt ->
  let namespace := OperatorConfig.TargetNamespace config in
  let w' := snd (createPasswordSecret msg name key config w) in
  held (env w') namespace name
  /\ forall ns' n', held (env w) ns' n' -> held (env w') ns' n'.
Proof.
  intros Hlaws. pose proof Hlaws as (Hget & Hrand & Hcreate). cbn zeta.
  set (namespace := OperatorConfig.TargetNamespace config).
  destruct (createPasswordSecret msg name key config w) as [r w'] eqn:Hrun.
  cbn [fst snd]. intros ->.
  unfold createPasswordSecret, bind, emit, call in Hrun.
  cbn [env trace] in Hrun. fold namespace in Hrun.
  destruct (secrets_Get namespace name (env w)) as [[found|err] e1] eqn:Hg.
  - rewrite Hnil in Hrun. cbn [negb ret] in Hrun. injection Hrun as <-.
    cbn [env]. split; [|intros; by eapply Hget].
    eapply Hget; [exact Hg|]. by exists found, e1.
  - destruct (apierrors_IsNotFound (Some err)); [|done].
    cbn [negb] in Hrun.
    set (w1 := mkWorld e1 _) in Hrun.
    assert (forall ns' n',
              held (env w) ns' n'
              -> held (env (snd (generateRandomPassword w1))) ns' n')
      as Hkeep.
    { intros ns' n' Hh. apply generateRandomPassword_keeps; [done|].
      unfold w1. cbn [env]. by eapply Hget. }
    destruct (generateRandomPassword w1) as [[password|e|] w2];
      cbn [snd] in Hkeep; [|done..].
    destruct (secrets_Create _ _ (env w2)) as [[created|e] e3] eqn:Hc;
      [|done].
    cbn [ret] in Hrun. injection Hrun as <-. cbn [env].
    destruct (Hcreate _ _ _ _ _ Hc) as [Hnew Hold]. split; [done|].
    intros ns' n' Hh. by apply Hold, Hkeep.
Qed.

Lemma createPasswordSecret_held msg name key config (w : World St) :
  store_laws ->
  let namespace := OperatorConfig.TargetNamespace config in
  held (env w) namespace name ->
  fst (createPasswordSecret msg name key config w) = Returned tt
  /\ calls_of
       (drop (length (trace w))
          (trace (snd (createPasswordSecret msg name key config w))))
     = [CSecretsGet namespace name]
  /\ forall ns' n',
       held (env w) ns' n'
       -> held (env (snd (createPasswordSecret msg name key config w)))
            ns' n'.
Proof.
  intros (Hget & _ & _). cbn zeta. intros (found & e1 & Hg).
  unfold createPasswordSecret, bind, emit, call. cbn [env trace].
  rewrite Hg, Hnil. cbn [negb ret fst snd trace env].
  rewrite <- app_assoc, drop_app_length.
  split; [done|]. split; [done|]. intros; by eapply Hget.
Qed.

Lemma createMetal3PasswordSecrets_unfold config (w : World St) :
  createMetal3PasswordSecrets config w
  = (let (r, w1) := createMariadbPasswordSecret config w in
     match r with
     | Failed err =>
         (Failed err,
          mkWorld (env w1)
            (trace w1 ++ [EvError "Failed to create Mariadb password."]))
     | Panicked => (Panicked, w1)
     | Returned _ =>
         let (r2, w2) := createIronicPasswordSecret config w1 in
         match r2 with
         | Failed err =>
             (Failed err,
              mkWorld (env w2)
                (trace w2 ++ [EvError "Failed to create Ironic password."]))
         | Panicked => (Panicked, w2)
         | Returned _ => (Returned tt, w2)
         end
     end).
Proof.
  unfold createMetal3PasswordSecrets, bind.
  destruct (createMariadbPasswordSecret config w) as [[[]|err|] w1];
    [|done..].
  by destruct (createIronicPasswordSecret config w1) as [[[]|err|] w2].
Qed.

(** X14: against a store of secrets, [createMetal3PasswordSecrets] is
    idempotent: after a run that returned nil, a second run returns nil
    having only got the two secrets, the MariaDB one first; it draws no
    password and creates nothing, so it never replaces a password. *)
Theorem createMetal3PasswordSecrets_idempotent (config : OperatorConfig.t)
    (w : World St) :
  store_laws ->
  fst (createMetal3PasswordSecrets config w) = Returned tt ->
  let namespace := OperatorConfig.TargetNamespace config in
  let w1 := snd (createMetal3PasswordSecrets config w) in
  let r2 := createMetal3PasswordSecrets config w1 in
  fst r2 = Returned tt
  /\ calls_of (drop (length (trace w1)) (trace (snd r2)))
     = [CSecretsGet namespace baremetalSecretName;
        CSecretsGet namespace ironicSecretName].
Proof.
  intros Hlaws Hfirst. cbn zeta.
  set (namespace := OperatorConfig.TargetNamespace config).
  assert (held (env (snd (createMetal3PasswordSecrets config w))) namespace
            baremetalSecretName
          /\ held (env (snd (createMetal3PasswordSecrets config w)))
               namespace ironicSecretName) as [Hm Hi].
  { rewrite createMetal3PasswordSecrets_unfold in Hfirst |- *.
    pose proof (createPasswordSecret_holds
                  "Checking if the MariaDB password secret already exists"
                  baremetalSecretName baremetalSecretKey config w Hlaws)
      as Hmar.
    change (createPasswordSecret _ baremetalSecretName _ config w)
      with (createMariadbPasswordSecret config w) in Hmar.
    destruct (createMariadbPasswordSecret config w) as [[[]|err|] wm];
      [|done..].
    destruct (Hmar eq_refl) as [Hheld _]. cbn [snd] in Hheld.
    pose proof (createPasswordSecret_holds
                  "Checking if the Ironic password secret already exists"
                  ironicSecretName ironicSecretKey config wm Hlaws) as Hiro.
    change (createPasswordSecret _ ironicSecretName _ config wm)
      with (createIronicPasswordSecret config wm) in Hiro.
    destruct (createIronicPasswordSecret config wm) as [[[]|err|] wi];
      [|done..].
    destruct (Hiro eq_refl) as [Hheld2 Hkeep]. cbn [snd] in *.
    split; [by apply Hkeep|done]. }
  set (w1 := snd (createMetal3PasswordSecrets config w)) in *.
  rewrite createMetal3PasswordSecrets_unfold.
  destruct (createPasswordSecret_held
              "Checking if the MariaDB password secret already exists"
              baremetalSecretName baremetalSecretKey config w1 Hlaws Hm)
    as (Hr1 & Hc1 & Hk1).
  change (createPasswordSecret _ baremetalSecretName _ config w1)
    with (createMariadbPasswordSecret config w1) in Hr1, Hc1, Hk1.
  destruct (createMariadbPasswordSecret config w1) as [r wm] eqn:Hrun1.
  cbn [fst snd] in Hr1, Hc1, Hk1. subst r. cbn beta iota.
  destruct (createPasswordSecret_held
              "Checking if the Ironic password secret already exists"
              ironicSecretName ironicSecretKey config wm Hlaws
              (Hk1 _ _ Hi))
    as (Hr2 & Hc2 & _).
  change (createPasswordSecret _ ironicSecretName _ config wm)
    with (createIronicPasswordSecret config wm) in Hr2, Hc2.
  destruct (createIronicPasswordSecret config wm) as [r wi] eqn:Hrun2.
  cbn [fst snd] in Hr2, Hc2 |- *. subst r. split; [done|].
  subst namespace.
  assert (exists evs1, trace wm = trace w1 ++ evs1) as (evs1 & Ht1).
  { pose proof (f_equal snd Hrun1) as Hw. cbn [snd] in Hw. subst wm.
    unfold createMariadbPasswordSecret, bind, emit, call. cbn [env trace].
    destruct Hm as (found & e1 & ->). rewrite Hnil.
    cbn [negb ret snd trace]. rewrite <- app_assoc. by eexists. }
  assert (exists evs2, trace wi = trace wm ++ evs2) as (evs2 & Ht2).
  { pose proof (f_equal snd Hrun2) as Hw. cbn [snd] in Hw. subst wi.
    unfold createIronicPasswordSecret, bind, emit, call. cbn [env trace].
    destruct (Hk1 _ _ Hi) as (found & e1 & ->). rewrite Hnil.
    cbn [negb ret snd trace]. rewrite <- app_assoc. by eexists. }
  rewrite Ht1, drop_app_length in Hc1.
  rewrite Ht2, drop_app_length in Hc2.
  cbn [snd].
  rewrite Ht2, Ht1, <- app_assoc, drop_app_length, secret_calls_of_app.
  by rewrite Hc1, Hc2.
Qed.

(** X15: [createMetal3PasswordSecrets] deals with the MariaDB secret first
    and with the Ironic secret only when that returned nil.  When the
    MariaDB step fails, the call returns its error having logged the
    failure last, and every call it made concerns the MariaDB secret alone;
    it returns nil exactly when both steps, run in turn, return nil. *)
Theorem createMetal3PasswordSecrets_in_order (config : OperatorConfig.t)
    (w : World St) :
  let namespace := OperatorConfig.TargetNamespace config in
  let r := createMetal3PasswordSecrets config w in
  let rm := createMariadbPasswordSecret config w in
  let ri := createIronicPasswordSecret config (snd rm) in
  (forall err,
     fst rm = Failed err ->
     fst r = Failed err
     /\ last (trace (snd r))
        = Some (EvError "Failed to create Mariadb password.")
     /\ Forall (own_call namespace baremetalSecretName)
          (calls_of (drop (length (trace w)) (trace (snd r)))))
  /\ (fst r = Returned tt <-> fst rm = Returned tt /\ fst ri = Returned tt)
  /\ ~ own_call namespace baremetalSecretName
         (CSecretsGet namespace ironicSecretName).
Proof.
  cbn zeta. rewrite createMetal3PasswordSecrets_unfold.
  pose proof (createPasswordSecret_spec
                "Checking if the MariaDB password secret already exists"
                baremetalSecretName baremetalSecretKey config w)
    as (_ & _ & _ & _ & Hown & _).
  change (createPasswordSecret _ baremetalSecretName _ config w)
    with (createMariadbPasswordSecret config w) in Hown.
  assert (exists evs,
            trace (snd (createMariadbPasswordSecret config w))
            = trace w ++ evs) as (evs & Ht).
  { unfold createMariadbPasswordSecret, bind, emit, call. cbn [env trace].
    destruct (secrets_Get _ _ (env w)) as [r0 e1].
    destruct (negb _).
    - cbn [ret snd trace]. rewrite <- app_assoc. by eexists.
    - destruct (generateRandomPassword_run
                  (mkWorld e1
                     ((trace w
                       ++ [EvInfoV 3
                             "Checking if the MariaDB password secret already exists"])
                      ++ [EvCall
                            (CSecretsGet
                               (OperatorConfig.TargetNamespace config)
                               baremetalSecretName)])))
        as (evs & Hg & _).
      destruct (generateRandomPassword _) as [[password|e|] w2];
        cbn [snd] in Hg; cbn [ret snd].
      + destruct (secrets_Create _ _ (env w2)) as [[c|e] e3];
          cbn [ret snd trace]; rewrite Hg; cbn [trace];
          rewrite <- !app_assoc; by eexists.
      + rewrite Hg. cbn [trace]. rewrite <- !app_assoc. by eexists.
      + rewrite Hg. cbn [trace]. rewrite <- !app_assoc. by eexists. }
  destruct (createMariadbPasswordSecret config w) as [[[]|err|] wm];
    cbn [fst snd] in *.
  - split; [done|]. split; [|by intros [_ [=]]].
    destruct (createIronicPasswordSecret config wm) as [[[]|err|] wi];
      cbn [fst]; split; try done; by intros [_ ?].
  - split; [|split; [split; [done|by intros [? _]]|by intros [_ [=]]]].
    intros err' [= <-]. cbn [trace]. split; [done|].
    split; [by rewrite last_snoc|].
    rewrite Ht, <- app_assoc, drop_app_length, secret_calls_of_app.
    rewrite Ht, drop_app_length in Hown.
    change (calls_of [EvError _]) with (@nil Call). by rewrite app_nil_r.
  - split; [done|]. split; [split; [done|by intros [? _]]|by intros [_ [=]]].
Qed.
End Passwords.
End OperatorProps.

(** ** Runs on the scripted cluster *)

#[local] Existing Instance Fake.access.
#[local] Existing Instance Fake.settings.

(** The readiness gate with the node that is not ready first, last and
    alone, and on no node at all. *)
Example nodesAreReady_positions :
  fst (nodesAreReady [Fake.node_down; Fake.node_a; Fake.node_b]
         Fake.converged_world) = false
  /\ fst (nodesAreReady [Fake.node_a; Fake.node_b; Fake.node_down]
            Fake.converged_world) = false
  /\ fst (nodesAreReady [Fake.node_down] Fake.converged_world) = false
  /\ fst (nodesAreReady [Fake.node_a; Fake.node_b] Fake.converged_world)
     = true
  /\ nodesAreReady [] Fake.converged_world = (true, Fake.converged_world).
Proof. repeat split; reflexivity. Qed.

(** The one-machine-per-node check: a failed read of the machines, then of
    the nodes, costs one retry each and the check still succeeds; a
    mismatched annotation is never accepted, and the check gives false once
    the twelve retries of the short wait are spent. *)
Example isOneMachinePerNode_runs :
  fst (isOneMachinePerNode (Fake.faulty_world [true; false; true])) = true
  /\ sleeps_of
       (trace (snd (isOneMachinePerNode
                      (Fake.faulty_world [true; false; true]))))
     = [5 * Second; 5 * Second]
  /\ fst (isOneMachinePerNode Fake.mismatched_world) = false
  /\ sleeps_of (trace (snd (isOneMachinePerNode Fake.mismatched_world)))
     = replicate 12 (5 * Second)
  /\ Forall (fun c => is_read_call c = true)
       (calls_of (trace (snd (isOneMachinePerNode Fake.mismatched_world)))).
Proof.
  split; [by vm_compute|]. split; [by vm_compute|].
  split; [by vm_compute|]. split; [by vm_compute|].
  apply Forall_fold_right. vm_compute. repeat split.
Qed.

(** The readiness gate stops at a node that is not ready standing between
    ready ones. *)
Lemma nodesAreReady_all_or_nothing_witness :
  Forall has_ready_true [Fake.node_a; Fake.node_b]
  /\ ~ has_ready_true Fake.node_down
  /\ nodesAreReady [Fake.node_a; Fake.node_b; Fake.node_down; Fake.node_a]
       Fake.converged_world
     = (false,
        mkWorld Fake.cluster
          [ready_line Fake.node_a; ready_line Fake.node_b;
           not_ready_line Fake.node_down]).
Proof.
  assert (Forall has_ready_true [Fake.node_a; Fake.node_b]) as Hpre.
  { repeat constructor; by apply IsNodeReady_spec. }
  assert (~ has_ready_true Fake.node_down) as Hdown.
  { intros Hr. by apply IsNodeReady_spec in Hr. }
  split; [exact Hpre|]. split; [exact Hdown|].
  destruct (nodesAreReady_all_or_nothing
              [Fake.node_a; Fake.node_b; Fake.node_down; Fake.node_a]
              Fake.converged_world) as (_ & Hfirst & _).
  exact (Hfirst [Fake.node_a; Fake.node_b] Fake.node_down [Fake.node_a]
           eq_refl Hpre Hdown).
Defined.

(** A node annotated with a machine of namespace default. *)
Lemma getMachineFromNode_foreign_namespace_witness :
  Node.Annotations Fake.node_foreign !! MachineAnnotationKey
  = Some "default/machine-c"
  /\ cache_SplitMetaNamespaceKey "default/machine-c"
     = Ok ("default", "machine-c")
  /\ "default" <> MachineApiNamespace
  /\ getMachineFromNode Fake.node_foreign Fake.converged_world
     = (Err (Errorf
               "Machine %q is forbidden to live outside of default %v namespace"
               [AString "default/machine-c"; AString MachineApiNamespace]),
        Fake.converged_world).
Proof.
  assert ("default" <> MachineApiNamespace) as Hns by done.
  split; [reflexivity|]. split; [reflexivity|]. split; [exact Hns|].
  destruct (getMachineFromNode_foreign_namespace Fake.node_foreign
              Fake.converged_world) as [Hforeign _].
  exact (Hforeign "default/machine-c" "default" "machine-c"
           eq_refl eq_refl Hns).
Defined.

(** Scaling the workers to four replicas on the converged cluster. *)
Lemma scaleMachineSet_read_modify_write_witness :
  scaleMachineSet "workers" 4 Fake.converged_world
  = (None, snd (scaleMachineSet "workers" 4 Fake.converged_world))
  /\ exists written,
       last (calls_of
               (trace (snd (scaleMachineSet "workers" 4
                              Fake.converged_world))))
       = Some (CScalesUpdate MachineApiNamespace machineSet_GroupResource
                 written)
       /\ Scale.SpecReplicas written = 4
       /\ Scale.ResourceVersion written = Scale.ResourceVersion Fake.workers_scale
       /\ Scale.Annotations written = Scale.Annotations Fake.workers_scale
       /\ Scale.StatusSelector written = Scale.StatusSelector Fake.workers_scale.
Proof.
  assert (scaleMachineSet "workers" 4 Fake.converged_world
          = (None, snd (scaleMachineSet "workers" 4 Fake.converged_world)))
    as Hrun by reflexivity.
  split; [exact Hrun|].
  destruct (scaleMachineSet_read_modify_write "workers" 4
              Fake.converged_world _ Hrun)
    as (scale & written & e1 & Hget & Ht & _ & Hrep & _ & _ & _ & _ & Hrv
        & _ & Hann & _ & Hsel).
  injection Hget as <- _.
  exists written. rewrite Ht. split; [reflexivity|].
  split; [exact Hrep|]. split; [exact Hrv|]. split; [exact Hann|].
  exact Hsel.
Defined.

(** The fixture is a converged snapshot. *)
Lemma converged_fixture :
  converged [Fake.machine_a; Fake.machine_b] [Fake.node_a; Fake.node_b].
Proof.
  split; [reflexivity|]. split; [compute_done|]. split.
  - intros node Hin. apply elem_of_cons in Hin as [->|Hin].
    + exists Fake.machine_a. split; [set_solver|].
      split; [|reflexivity]. by eexists.
    + apply list_elem_of_singleton in Hin as ->.
      exists Fake.machine_b. split; [set_solver|].
      split; [|reflexivity]. by eexists.
  - intros machine Hin. apply elem_of_cons in Hin as [->|Hin].
    + exists Fake.node_a. split; [set_solver|].
      split; [|reflexivity]. by eexists.
    + apply list_elem_of_singleton in Hin as ->.
      exists Fake.node_b. split; [set_solver|].
      split; [|reflexivity]. by eexists.
Qed.

(** The satisfied iteration on the converged cluster. *)
Lemma oneMachinePerNode_bijection_witness :
  client_List_machines oneMachinePerNode_listOptions
    (env Fake.converged_world)
  = (Ok [Fake.machine_a; Fake.machine_b], Fake.cluster)
  /\ client_List_nodes oneMachinePerNode_listOptions Fake.cluster
     = (Ok [Fake.node_a; Fake.node_b], Fake.cluster)
  /\ fst (oneMachinePerNode_condition Fake.converged_world) = (true, None)
  /\ NoDup (Machine.Name <$> [Fake.machine_a; Fake.machine_b])
  /\ one_to_one [Fake.machine_a; Fake.machine_b] [Fake.node_a; Fake.node_b].
Proof.
  assert (NoDup (Machine.Name <$> [Fake.machine_a; Fake.machine_b])) as Hnd
    by compute_done.
  split; [reflexivity|]. split; [reflexivity|]. split; [reflexivity|].
  split; [exact Hnd|].
  exact (oneMachinePerNode_bijection Fake.converged_world
           [Fake.machine_a; Fake.machine_b] [Fake.node_a; Fake.node_b]
           Fake.cluster Fake.cluster eq_refl eq_refl eq_refl Hnd).
Defined.

(** Two runs of the check on the converged cluster. *)
Lemma isOneMachinePerNode_idempotent_witness :
  client_List_machines oneMachinePerNode_listOptions
    (env Fake.converged_world)
  = (Ok [Fake.machine_a; Fake.machine_b], env Fake.converged_world)
  /\ client_List_nodes oneMachinePerNode_listOptions
       (env Fake.converged_world)
     = (Ok [Fake.node_a; Fake.node_b], env Fake.converged_world)
  /\ converged [Fake.machine_a; Fake.machine_b] [Fake.node_a; Fake.node_b]
  /\ fst (isOneMachinePerNode Fake.converged_world) = true
  /\ fst (isOneMachinePerNode (snd (isOneMachinePerNode Fake.converged_world)))
     = true
  /\ env (snd (isOneMachinePerNode
                 (snd (isOneMachinePerNode Fake.converged_world))))
     = Fake.cluster.
Proof.
  assert (client_List_machines oneMachinePerNode_listOptions
            (env Fake.converged_world)
          = (Ok [Fake.machine_a; Fake.machine_b], env Fake.converged_world))
    as Hm by reflexivity.
  assert (client_List_nodes oneMachinePerNode_listOptions
            (env Fake.converged_world)
          = (Ok [Fake.node_a; Fake.node_b], env Fake.converged_world))
    as Hn by reflexivity.
  split; [exact Hm|]. split; [exact Hn|].
  split; [exact converged_fixture|].
  destruct (isOneMachinePerNode_idempotent Fake.converged_world
              [Fake.machine_a; Fake.machine_b] [Fake.node_a; Fake.node_b]
              Hm Hn converged_fixture)
    as (H1 & H2 & _ & H4 & _).
  split; [exact H1|]. split; [exact H2|]. exact H4.
Defined.

(** A first attempt whose machine-set read fails, and a poll of two retries
    that never sees five nodes. *)
Lemma clusterSize_poll_read_failure_is_fatal_witness :
  read_failure (env (Fake.faulty_world [true]))
    (Errorf "error getting machines: %v" [AError Fake.unavailable])
  /\ waitForClusterSizeToBeHealthy 2 (Fake.faulty_world [true])
     = (Some (Errorf "Did not reach expected number of nodes: %v"
                [AError (Errorf "error getting machines: %v"
                           [AError Fake.unavailable])]),
        snd (clusterSize_condition 2 (Fake.faulty_world [true])))
  /\ @clusterSize_retries Fake.quick = 2%nat
  /\ fst (@waitForClusterSizeToBeHealthy _ _ Fake.quick 5
            Fake.converged_world)
     = Some (Errorf "Did not reach expected number of nodes: %v"
               [AError ErrWaitTimeout])
  /\ sleeps_of
       (trace (snd (@waitForClusterSizeToBeHealthy _ _ Fake.quick 5
                      Fake.converged_world)))
     = [5 * Second; 5 * Second].
Proof.
  assert (read_failure (env (Fake.faulty_world [true]))
            (Errorf "error getting machines: %v" [AError Fake.unavailable]))
    as Hfail.
  { by eapply machineSets_read_fails. }
  split; [exact Hfail|].
  destruct (clusterSize_poll_read_failure_is_fatal 2
              (Fake.faulty_world [true])) as [Hfatal _].
  destruct (Hfatal O _ ltac:(lia) ltac:(intros j Hj; lia) Hfail)
    as [Hrun _].
  split; [exact Hrun|]. split; [reflexivity|].
  destruct (@clusterSize_poll_read_failure_is_fatal _ _ Fake.quick 5
              Fake.converged_world) as [_ Htimeout].
  assert (forall j, (j <= @clusterSize_retries Fake.quick)%nat ->
            exists n,
              size_read
                (env (@clusterSize_attempt _ _ Fake.quick 5 j
                        Fake.converged_world)) n
              /\ n <> 5) as Hnever.
  { intros j Hj. change (@clusterSize_retries Fake.quick) with 2%nat in Hj.
    exists 2. split; [|done].
    destruct j as [|[|[|j]]]; [..|lia];
      by eexists _, _, _, _, [Fake.node_a; Fake.node_b], _. }
  destruct (Htimeout Hnever) as [Hrun5 Hsleeps].
  split; [by rewrite Hrun5|]. exact Hsleeps.
Defined.

(** A satisfied iteration that is no one-to-one correspondence.  The
    machine list holds the machine of the first node twice: the counts are
    equal, both nodes are annotated and each entry of the machine list is
    linked to the first node, so the iteration answers satisfied and the
    check returns true at once; yet no machine of the list references the
    second node, whose annotation names a machine that was not listed. *)
Lemma satisfied_iteration_not_one_to_one :
  let w := Fake.duplicated_world in
  let machines := [Fake.machine_a; Fake.machine_a] in
  let nodes := [Fake.node_a; Fake.node_b] in
  client_List_machines oneMachinePerNode_listOptions (env w)
  = (Ok machines, env w)
  /\ client_List_nodes oneMachinePerNode_listOptions (env w)
     = (Ok nodes, env w)
  /\ length machines = length nodes
  /\ fst (oneMachinePerNode_condition w) = (true, None)
  /\ fst (isOneMachinePerNode w) = true
  /\ sleeps_of (trace (snd (isOneMachinePerNode w))) = []
  /\ Fake.node_b ∈ nodes
  /\ (forall machine, machine ∈ machines -> ~ references machine Fake.node_b)
  /\ ~ one_to_one machines nodes.
Proof.
  cbn zeta.
  assert (forall machine,
            machine ∈ [Fake.machine_a; Fake.machine_a]
            -> ~ references machine Fake.node_b) as Hnone.
  { intros machine Hin (ref & Href & Hname).
    assert (machine = Fake.machine_a) as ->.
    { apply elem_of_cons in Hin as [->|Hin]; [done|].
      by apply list_elem_of_singleton in Hin. }
    injection Href as <-. discriminate. }
  split; [reflexivity|]. split; [reflexivity|]. split; [reflexivity|].
  split; [reflexivity|]. split; [by vm_compute|]. split; [by vm_compute|].
  split; [set_solver|]. split; [exact Hnone|].
  intros (_ & _ & Hnodes & _).
  destruct (Hnodes Fake.node_b) as (machine & Hin & [Href _] & _);
    [set_solver|].
  exact (Hnone machine Hin Href).
Qed.

(** The cluster is healthy and has the two nodes asked for, and only the
    first read fails.  The call gives up at once: one call, no sleep, and an
    error that is not the timeout, although the very next attempt would have
    succeeded. *)
Lemma clusterSize_read_failure_not_retried :
  let w := Fake.faulty_world [true] in
  let r := waitForClusterSizeToBeHealthy 2 w in
  fst r
  = Some (Errorf "Did not reach expected number of nodes: %v"
            [AError (Errorf "error getting machines: %v"
                       [AError Fake.unavailable])])
  /\ calls_of (trace (snd r)) = [CGetMachineSets]
  /\ sleeps_of (trace (snd r)) = []
  /\ poll_retries (5 * Second) WaitLong = 120%nat
  /\ fst (waitForClusterSizeToBeHealthy 2 (Fake.world (env (snd r)))) = None.
Proof. repeat split; reflexivity. Qed.

(** Failures in different stages that return the same error.  With the
    second read failing, the node snapshot log fails; with the third read
    failing, both snapshot logs succeed and the count fails: the error
    returned is the same.  With a node that is not ready the readiness wait
    fails, with a cordoned node the schedulability wait fails: both return
    the bare timeout error of the poller. *)
Lemma stage_errors_not_specific :
  let wa := Fake.faulty_world [false; true] in
  let wb := Fake.faulty_world [false; false; true] in
  let err :=
    Errorf "Did not reach expected number of nodes: %v"
      [AError (Errorf "error getting nodes: %v" [AError Fake.unavailable])] in
  let entered (stage : string) (w' : World Fake.t) :=
    logged stage (trace w') in
  fst (waitForClusterSizeToBeHealthy 2 wa) = Some err
  /\ calls_of (trace (snd (waitForClusterSizeToBeHealthy 2 wa)))
     = [CGetMachineSets; CGetNodes]
  /\ fst (waitForClusterSizeToBeHealthy 2 wb) = Some err
  /\ calls_of (trace (snd (waitForClusterSizeToBeHealthy 2 wb)))
     = [CGetMachineSets; CGetNodes; CGetNodes]
  /\ fst (waitForClusterSizeToBeHealthy 2 Fake.down_world)
     = Some ErrWaitTimeout
  /\ entered "waiting for all nodes to be ready"
       (snd (waitForClusterSizeToBeHealthy 2 Fake.down_world)) = true
  /\ entered "waiting for all nodes to be schedulable"
       (snd (waitForClusterSizeToBeHealthy 2 Fake.down_world)) = false
  /\ fst (waitForClusterSizeToBeHealthy 2 Fake.cordoned_world)
     = Some ErrWaitTimeout
  /\ entered "waiting for all nodes to be schedulable"
       (snd (waitForClusterSizeToBeHealthy 2 Fake.cordoned_world)) = true
  /\ entered "waiting for each node to be backed by a machine"
       (snd (waitForClusterSizeToBeHealthy 2 Fake.cordoned_world)) = false.
Proof. repeat split; vm_compute; reflexivity. Qed.

(** *** More runs on the scripted cluster *)

(** Every node of the converged cluster leads back to its machine. *)
Lemma satisfied_iteration_resolves_nodes_witness :
  client_List_machines oneMachinePerNode_listOptions
    (env Fake.converged_world)
  = (Ok [Fake.machine_a; Fake.machine_b], Fake.cluster)
  /\ client_List_nodes oneMachinePerNode_listOptions Fake.cluster
     = (Ok [Fake.node_a; Fake.node_b], Fake.cluster)
  /\ fst (oneMachinePerNode_condition Fake.converged_world) = (true, None)
  /\ NoDup (Machine.Name <$> [Fake.machine_a; Fake.machine_b])
  /\ Fake.node_b ∈ [Fake.node_a; Fake.node_b]
  /\ exists machine,
       machine ∈ [Fake.machine_a; Fake.machine_b]
       /\ references machine Fake.node_b
       /\ calls_of
            (drop (length (trace Fake.converged_world))
               (trace (snd (getMachineFromNode Fake.node_b
                              Fake.converged_world))))
          = [CGetMachine (Machine.Name machine)]
       /\ fst (getMachineFromNode Fake.node_b Fake.converged_world)
          = match fst (e2e_GetMachine (Machine.Name machine)
                         (env Fake.converged_world)) with
            | Ok found => Ok found
            | Err err =>
                Err (Errorf "error querying api for machine object: %v"
                       [AError err])
            end.
Proof.
  assert (NoDup (Machine.Name <$> [Fake.machine_a; Fake.machine_b])) as Hnd
    by compute_done.
  assert (Fake.node_b ∈ [Fake.node_a; Fake.node_b]) as Hin by set_solver.
  assert (forall machine,
            machine ∈ [Fake.machine_a; Fake.machine_b] ->
            cache_SplitMetaNamespaceKey (machine_key machine)
            = Ok (MachineApiNamespace, Machine.Name machine)) as Hkeys.
  { intros machine Hm. apply elem_of_cons in Hm as [->|Hm]; [reflexivity|].
    apply list_elem_of_singleton in Hm as ->. reflexivity. }
  split; [reflexivity|]. split; [reflexivity|]. split; [reflexivity|].
  split; [exact Hnd|]. split; [exact Hin|].
  exact (satisfied_iteration_resolves_nodes Fake.converged_world
           Fake.converged_world [Fake.machine_a; Fake.machine_b]
           [Fake.node_a; Fake.node_b] Fake.cluster Fake.cluster Fake.node_b
           eq_refl eq_refl eq_refl Hnd Hkeys Hin).
Defined.

(** The two machines of the fixture, taken to live in namespace default,
    pass and fail the second loop as the originals do. *)
Lemma checkMachines_ignores_namespaces_witness :
  let moved :=
    [Machine.mk "machine-a" "default"
       (Some (ObjectReference.mk "default" "node-a"));
     Machine.mk "machine-b" "default"
       (Some (ObjectReference.mk "default" "node-b"))] in
  let m : gmap string string :=
    {[ "node-a" := "openshift-machine-api/machine-a";
       "node-b" := "openshift-machine-api/machine-b" ]} in
  Forall2 same_links [Fake.machine_a; Fake.machine_b] moved
  /\ fst (checkMachines [Fake.machine_a; Fake.machine_b] m
            Fake.converged_world)
     = fst (checkMachines moved m Fake.mismatched_world)
  /\ fst (checkMachines moved m Fake.mismatched_world) = true.
Proof.
  cbn zeta.
  assert (Forall2 same_links [Fake.machine_a; Fake.machine_b]
            [Machine.mk "machine-a" "default"
               (Some (ObjectReference.mk "default" "node-a"));
             Machine.mk "machine-b" "default"
               (Some (ObjectReference.mk "default" "node-b"))]) as Hsame.
  { repeat constructor. }
  split; [exact Hsame|]. split; [|by vm_compute].
  exact (checkMachines_ignores_namespaces _ _ _ Fake.converged_world
           Fake.mismatched_world Hsame).
Defined.

(** Asked for 2^32 + 3 replicas, the update carries 3. *)
Lemma scaleMachineSet_replicas_wrap_witness :
  let w' := snd (scaleMachineSet "workers" (2 ^ 32 + 3) Fake.converged_world) in
  scaleMachineSet "workers" (2 ^ 32 + 3) Fake.converged_world = (None, w')
  /\ last (calls_of (trace w'))
     = Some (CScalesUpdate MachineApiNamespace machineSet_GroupResource
               (Scale.set_SpecReplicas 3 Fake.workers_scale))
  /\ exists written,
       last (calls_of (trace w'))
       = Some (CScalesUpdate MachineApiNamespace machineSet_GroupResource
                 written)
       /\ - 2 ^ 31 <= Scale.SpecReplicas written < 2 ^ 31
       /\ (Scale.SpecReplicas written - (2 ^ 32 + 3)) mod 2 ^ 32 = 0
       /\ (Scale.SpecReplicas written = 2 ^ 32 + 3
           <-> - 2 ^ 31 <= 2 ^ 32 + 3 < 2 ^ 31).
Proof.
  cbn zeta.
  assert (scaleMachineSet "workers" (2 ^ 32 + 3) Fake.converged_world
          = (None,
             snd (scaleMachineSet "workers" (2 ^ 32 + 3)
                    Fake.converged_world))) as Hrun by reflexivity.
  split; [exact Hrun|]. split; [reflexivity|].
  exact (scaleMachineSet_replicas_wrap "workers" (2 ^ 32 + 3)
           Fake.converged_world _ Hrun).
Defined.

(** ** Runs on the store of secrets *)

Module OperatorRuns.
Import Operator.
#[local] Existing Instance Fake.access.

Lemma Fake_draws_fair : fair (St := Fake.t).
Proof.
  intros max s c s' Hmax Hdraw. cbn in Hdraw. unfold Fake.draw in Hdraw.
  destruct (Fake.draws s) as [|d rest]; [done|].
  injection Hdraw as <- _. by apply Z.mod_pos_bound.
Qed.

Lemma Fake_held (e : Fake.t) ns n :
  held e ns n <-> is_Some (Fake.secrets e !! (ns, n)).
Proof.
  unfold held. cbn. unfold Fake.get. split.
  - intros (secret & e' & Hget).
    destruct (Fake.secrets e !! (ns, n)); [by eexists|done].
  - intros [secret Hs]. rewrite Hs. by eexists _, _.
Qed.

Lemma Fake_store_laws : store_laws (S := Fake.t).
Proof.
  split; [|split].
  - intros ns n e r e' Hget ns' n' Hheld. cbn in Hget. unfold Fake.get in Hget.
    by destruct (Fake.secrets e !! (ns, n)); injection Hget as _ <-.
  - intros max e r e' Hdraw ns' n' Hheld. cbn in Hdraw.
    unfold Fake.draw in Hdraw.
    destruct (Fake.draws e) as [|d rest]; injection Hdraw as _ <-; [done|].
    apply Fake_held in Hheld. by apply Fake_held.
  - intros ns s e s' e' Hcreate. cbn in Hcreate.
    unfold Fake.create in Hcreate.
    destruct (Fake.secrets e !! (ns, Secret.Name s)) eqn:Hs; [done|].
    injection Hcreate as _ <-. split.
    + apply Fake_held. cbn. by rewrite lookup_insert_eq.
    + intros ns' n' Hheld. apply Fake_held in Hheld. apply Fake_held. cbn.
      destruct (decide ((ns, Secret.Name s) = (ns', n'))) as [->|Hne].
      * by rewrite lookup_insert_eq.
      * by rewrite lookup_insert_ne.
Qed.


(** On a store that holds a MariaDB password, and on an empty one. *)
Lemma password_secrets_created_if_missing_witness :
  fair (St := Fake.t)
  /\ apierrors_IsNotFound None = false
  /\ creates_if_missing createMariadbPasswordSecret baremetalSecretName
       baremetalSecretKey Fake.config Fake.seeded_world
  /\ creates_if_missing createIronicPasswordSecret ironicSecretName
       ironicSecretKey Fake.config Fake.seeded_world.
Proof.
  split; [exact Fake_draws_fair|]. split; [reflexivity|].
  exact (OperatorProps.password_secrets_created_if_missing Fake_draws_fair
           eq_refl Fake.config Fake.seeded_world).
Defined.

(** Two runs on an empty store: the second only gets the two secrets. *)
Lemma createMetal3PasswordSecrets_idempotent_witness :
  let w1 := snd (createMetal3PasswordSecrets Fake.config Fake.empty_world) in
  let r2 := createMetal3PasswordSecrets Fake.config w1 in
  apierrors_IsNotFound None = false
  /\ store_laws (S := Fake.t)
  /\ fst (createMetal3PasswordSecrets Fake.config Fake.empty_world)
     = Returned tt
  /\ fst r2 = Returned tt
  /\ calls_of (drop (length (trace w1)) (trace (snd r2)))
     = [CSecretsGet "openshift-machine-api" baremetalSecretName;
        CSecretsGet "openshift-machine-api" ironicSecretName].
Proof.
  cbn zeta.
  assert (fst (createMetal3PasswordSecrets Fake.config Fake.empty_world)
          = Returned tt) as Hrun by (by vm_compute).
  split; [reflexivity|]. split; [exact Fake_store_laws|].
  split; [exact Hrun|].
  exact (OperatorProps.createMetal3PasswordSecrets_idempotent eq_refl
           Fake.config Fake.empty_world Fake_store_laws Hrun).
Defined.

(** On an empty store with no draw left the MariaDB step fails, and the
    Ironic secret is not asked for. *)
Lemma createMetal3PasswordSecrets_in_order_witness :
  let r := createMetal3PasswordSecrets Fake.config Fake.dry_world in
  fair (St := Fake.t)
  /\ apierrors_IsNotFound None = false
  /\ fst (createMariadbPasswordSecret Fake.config Fake.dry_world)
     = Failed (ErrExternal "entropy exhausted")
  /\ fst r = Failed (ErrExternal "entropy exhausted")
  /\ last (trace (snd r)) = Some (EvError "Failed to create Mariadb password.")
  /\ Forall (own_call "openshift-machine-api" baremetalSecretName)
       (calls_of (drop (length (trace Fake.dry_world)) (trace (snd r)))).
Proof.
  cbn zeta.
  assert (fst (createMariadbPasswordSecret Fake.config Fake.dry_world)
          = Failed (ErrExternal "entropy exhausted")) as Hrun
    by (by vm_compute).
  split; [exact Fake_draws_fair|]. split; [reflexivity|].
  split; [exact Hrun|].
  destruct (OperatorProps.createMetal3PasswordSecrets_in_order
              Fake_draws_fair eq_refl Fake.config Fake.dry_world)
    as [Hfail _].
  exact (Hfail _ Hrun).
Defined.
End OperatorRuns.
